(** * The SIMRAD raw-file datagram reader, embedded in Rocq

    A shallow embedding of [echolab2/instruments/util/simrad_raw_file.py]:
    the class [RawSimradFile] becomes a record holding the bytes of the file,
    the byte cursor of the underlying [BufferedReader] and the attributes of
    the object; every method becomes a computation in a small monad that
    threads this record and may raise a Python exception.

    Layout of a datagram on disk (from the module docstring):
<<
    | size 4 | type 4 | time low 4 | time high 4 | data (size - 12) | size 4 |
>>
*)

From Stdlib Require Import String ZArith List Bool Lia.
From Stdlib Require Import Strings.Byte.
Import ListNotations.
Local Open Scope Z_scope.

(** ** Bytes *)

Definition len (l : list byte) : Z := Z.of_nat (length l).

Definition byte_val (b : byte) : Z := Z.of_N (Byte.to_N b).

(** [buf[:k]] and [buf[k:]] for a non-negative [k], with an integer count so
    that a count read from the file (up to [2^31]) is never turned into a
    unary number. *)
Fixpoint take (k : Z) (l : list byte) : list byte :=
  match l with
  | [] => []
  | b :: t => if k <=? 0 then [] else b :: take (k - 1) t
  end.

Fixpoint drop (k : Z) (l : list byte) : list byte :=
  match l with
  | [] => []
  | b :: t => if k <=? 0 then l else drop (k - 1) t
  end.

(** Little-endian unsigned value of a byte string. *)
Fixpoint le_uint (buf : list byte) : Z :=
  match buf with
  | [] => 0
  | b :: t => byte_val b + 256 * le_uint t
  end.

(** [struct.unpack('=L', buf)[0]] on a 4-byte buffer. *)
Definition unpack_L (buf : list byte) : Z := le_uint buf.

(** [struct.unpack('=l', buf)[0]] on a 4-byte buffer: two's complement. *)
Definition unpack_l (buf : list byte) : Z :=
  let u := le_uint buf in
  if u <? 2 ^ 31 then u else u - 2 ^ 32.

(** [struct.unpack('h', buf)[0]] on a 2-byte buffer. *)
Definition unpack_h (buf : list byte) : Z :=
  let u := le_uint buf in
  if u <? 2 ^ 15 then u else u - 2 ^ 16.

Definition bytes_eqb (a b : list byte) : bool :=
  if list_eq_dec Byte.byte_eq_dec a b then true else false.

(** [p] is a prefix of [buf]. *)
Fixpoint startswith (buf p : list byte) : bool :=
  match p, buf with
  | [], _ => true
  | _ :: _, [] => false
  | c :: p', b :: buf' => Byte.eqb c b && startswith buf' p'
  end.

(** [buf.strip(b'\x00')]: NUL bytes removed at both ends. *)
Fixpoint lstrip_nul (buf : list byte) : list byte :=
  match buf with
  | [] => []
  | b :: t => if Byte.eqb b x00 then lstrip_nul t else buf
  end.

Definition strip_nul (buf : list byte) : list byte :=
  rev (lstrip_nul (rev (lstrip_nul buf))).

(** ** Exceptions and outcomes *)

Inductive Exn : Type :=
| SimradEOF
| DatagramReadError (message : string) (expected_size retrieved_size : Z)
                    (file_pos_bytes file_pos_dgrams : Z)
| IOError
| ValueError
| TypeError
| KeyError
| StructError
| OverflowError
| ParserError (what : string).

(** The third outcome belongs to the embedding, not to Python: a loop or a
    recursion of the model that was given too little fuel.  No handler
    catches it, and [_read_next_dgram_fuel] and [_find_next_datagram_fuel]
    below show that the methods do not produce it. *)
Inductive Outcome (A : Type) : Type :=
| Ok (a : A)
| Raise (e : Exn)
| OutOfFuel.
Arguments Ok {A} a.
Arguments Raise {A} e.
Arguments OutOfFuel {A}.

(** ** The file object *)

Record RawSimradFile : Type := mkFile {
  raw : list byte;                    (* the bytes of the file on disk *)
  cursor : Z;                         (* BufferedReader.tell() *)
  _current_dgram_offset : Z;
  _total_dgram_count : option Z;
  _return_raw : bool
}.

Definition set_cursor (f : RawSimradFile) (p : Z) : RawSimradFile :=
  mkFile (raw f) p (_current_dgram_offset f) (_total_dgram_count f) (_return_raw f).

Definition set_dgram_offset (f : RawSimradFile) (i : Z) : RawSimradFile :=
  mkFile (raw f) (cursor f) i (_total_dgram_count f) (_return_raw f).

(** [RawSimradFile(name)] as [__init__] leaves it. *)
Definition open_file (bytes : list byte) (return_raw : bool) : RawSimradFile :=
  mkFile bytes 0 0 None return_raw.

Definition M (A : Type) : Type := RawSimradFile -> Outcome A * RawSimradFile.

Definition ret {A} (a : A) : M A := fun f => (Ok a, f).

Definition bind {A B} (c : M A) (k : A -> M B) : M B :=
  fun f => match c f with
           | (Ok a, f') => k a f'
           | (Raise e, f') => (Raise e, f')
           | (OutOfFuel, f') => (OutOfFuel, f')
           end.

Definition raise {A} (e : Exn) : M A := fun f => (Raise e, f).

Definition out_of_fuel {A} : M A := fun f => (OutOfFuel, f).

(** [try: c  except Exception as e: h e] *)
Definition try_except {A} (c : M A) (h : Exn -> M A) : M A :=
  fun f => match c f with
           | (Raise e, f') => h e f'
           | r => r
           end.

Declare Scope py_scope.
Delimit Scope py_scope with py.
Notation "x <- c ;; k" := (bind c (fun x => k))
  (at level 61, c at next level, right associativity) : py_scope.
Notation "c ;; k" := (bind c (fun _ => k))
  (at level 61, right associativity) : py_scope.
Local Open Scope py_scope.

(** ** Byte-level access: the BufferedReader underneath *)

Inductive Whence : Type := SEEK_SET | SEEK_CUR | SEEK_END.

(** [BufferedReader.seek]: a target before the start of the file is refused
    with an [OSError] and the position stays; a target past the end is
    accepted. *)
Definition _seek_bytes (bytes_ : Z) (whence : Whence) : M unit :=
  fun f =>
    let target := match whence with
                  | SEEK_SET => bytes_
                  | SEEK_CUR => cursor f + bytes_
                  | SEEK_END => len (raw f) + bytes_
                  end in
    if target <? 0 then (Raise IOError, f) else (Ok tt, set_cursor f target).

Definition _tell_bytes : M Z := fun f => (Ok (cursor f), f).

(** [BufferedReader.read(k)]: up to [k] bytes, fewer only at the end of the
    file; [-1] reads to the end and any other negative count is refused. *)
Definition _read_bytes (k : Z) : M (list byte) :=
  fun f =>
    if k <? -1 then (Raise ValueError, f)
    else
      let rest := drop (cursor f) (raw f) in
      let buf := if k =? -1 then rest else take k rest in
      (Ok buf, set_cursor f (cursor f + len buf)).

Definition tell : M Z := fun f => (Ok (_current_dgram_offset f), f).

Definition _read_dgram_size : M Z :=
  buf <- _read_bytes 4 ;;
  if negb (len buf =? 4) then
    _seek_bytes (- len buf) SEEK_CUR ;;
    pos_bytes <- _tell_bytes ;;
    pos_dgrams <- tell ;;
    raise (DatagramReadError "Short read while getting dgram size"
             4 (len buf) pos_bytes pos_dgrams)
  else ret (unpack_l buf).

Definition at_eof : M bool :=
  old_pos <- _tell_bytes ;;
  _seek_bytes 0 SEEK_END ;;
  eof_pos <- _tell_bytes ;;
  if old_pos =? eof_pos then ret true
  else
    let offset := old_pos - eof_pos in
    _seek_bytes offset SEEK_END ;;
    ret false.

Definition _bytes_remaining : M Z :=
  old_pos <- _tell_bytes ;;
  _seek_bytes 0 SEEK_END ;;
  end_pos <- _tell_bytes ;;
  let offset := end_pos - old_pos in
  _seek_bytes old_pos SEEK_SET ;;
  ret offset.

Definition _read_timestamp : M (Z * Z * list byte) :=
  buf <- _read_bytes 8 ;;
  if negb (len buf =? 8) then
    eof <- at_eof ;;
    if eof : bool then raise SimradEOF
    else
      _seek_bytes (- len buf) SEEK_CUR ;;
      pos_bytes <- _tell_bytes ;;
      pos_dgrams <- tell ;;
      raise (DatagramReadError "Short read while getting timestamp"
               8 (len buf) pos_bytes pos_dgrams)
  else ret (unpack_L (take 4 buf), unpack_L (drop 4 buf), buf).

(** ** Datagram headers *)

(** The part of Python's [datetime] the reader uses: a naive date and time,
    a [timedelta] built from a count of microseconds, and their sum, after
    the proleptic Gregorian ordinal arithmetic of the standard library. *)
Module datetime.

Record datetime : Type := mk_datetime {
  year : Z; month : Z; day : Z;
  hour : Z; minute : Z; second : Z; microsecond : Z
}.

Record timedelta : Type := mk_timedelta {
  days : Z; seconds : Z; microseconds : Z
}.

Definition _MAXORDINAL : Z := 3652059.
Definition _DI400Y : Z := 146097.
Definition _DI100Y : Z := 36524.
Definition _DI4Y : Z := 1461.
Definition _DAYS_IN_MONTH : list Z :=
  [-1; 31; 28; 31; 30; 31; 30; 31; 31; 30; 31; 30; 31].
Definition _DAYS_BEFORE_MONTH : list Z :=
  [-1; 0; 31; 59; 90; 120; 151; 181; 212; 243; 273; 304; 334].

Definition _is_leap (y : Z) : bool :=
  (y mod 4 =? 0) && (negb (y mod 100 =? 0) || (y mod 400 =? 0)).

Definition _days_before_year (y : Z) : Z :=
  let y := y - 1 in y * 365 + y / 4 - y / 100 + y / 400.

Definition _days_before_month (y m : Z) : Z :=
  nth (Z.to_nat m) _DAYS_BEFORE_MONTH 0
  + (if (2 <? m) && _is_leap y then 1 else 0).

Definition _ymd2ord (y m d : Z) : Z :=
  _days_before_year y + _days_before_month y m + d.

Definition _ord2ymd (n : Z) : Z * Z * Z :=
  let n := n - 1 in
  let n400 := n / _DI400Y in
  let n := n mod _DI400Y in
  let year := n400 * 400 + 1 in
  let n100 := n / _DI100Y in
  let n := n mod _DI100Y in
  let n4 := n / _DI4Y in
  let n := n mod _DI4Y in
  let n1 := n / 365 in
  let n := n mod 365 in
  let year := year + n100 * 100 + n4 * 4 + n1 in
  if (n1 =? 4) || (n100 =? 4) then (year - 1, 12, 31)
  else
    let leapyear := (n1 =? 3) && (negb (n4 =? 24) || (n100 =? 3)) in
    let month := Z.shiftr (n + 50) 5 in
    let preceding := nth (Z.to_nat month) _DAYS_BEFORE_MONTH 0
                     + (if (2 <? month) && leapyear then 1 else 0) in
    if n <? preceding then
      let month := month - 1 in
      let preceding := preceding
                       - (nth (Z.to_nat month) _DAYS_IN_MONTH 0
                          + (if (month =? 2) && leapyear then 1 else 0)) in
      (year, month, n - preceding + 1)
    else (year, month, n - preceding + 1).

Definition us_per_day : Z := 86400 * 1000000.

(** [timedelta(microseconds=us)] *)
Definition timedelta_of_microseconds (us : Z) : Exn + timedelta :=
  let d := us / us_per_day in
  let rem := us mod us_per_day in
  if 999999999 <? Z.abs d then inl OverflowError
  else inr (mk_timedelta d (rem / 1000000) (rem mod 1000000)).

(** [dt + td] *)
Definition add (dt : datetime) (td : timedelta) : Exn + datetime :=
  let total_us :=
    ((((_ymd2ord (year dt) (month dt) (day dt) + days td) * 86400
       + hour dt * 3600 + minute dt * 60 + second dt + seconds td) * 1000000)
     + microsecond dt + microseconds td) in
  let d := total_us / us_per_day in
  let rem := total_us mod us_per_day in
  let s := rem / 1000000 in
  if (0 <? d) && (d <=? _MAXORDINAL) then
    let '(y, m, dd) := _ord2ymd d in
    inr (mk_datetime y m dd (s / 3600) ((s mod 3600) / 60) ((s mod 3600) mod 60)
           (rem mod 1000000))
  else inl OverflowError.

End datetime.

Definition UTC_NT_EPOCH : datetime.datetime :=
  datetime.mk_datetime 1601 1 1 0 0 0 0.

(** The dict returned by [_read_dgram_header], with the keys that [peek] and
    [get_header] may add to it. *)
Record Header : Type := mkHeader {
  size : Z;
  type : list byte;          (* four Latin-1 characters *)
  low_date : Z;
  high_date : Z;
  raw_bytes : list byte;
  bytes_read : Z;
  channel : option Z;
  channel_id : option (list byte);
  timestamp : option datetime.datetime
}.

Definition set_channel (h : Header) (c : Z) : Header :=
  mkHeader (size h) (type h) (low_date h) (high_date h) (raw_bytes h)
           (bytes_read h) (Some c) (channel_id h) (timestamp h).

Definition set_channel_id (h : Header) (c : list byte) : Header :=
  mkHeader (size h) (type h) (low_date h) (high_date h) (raw_bytes h)
           (bytes_read h) (channel h) (Some c) (timestamp h).

Definition set_timestamp (h : Header) (t : datetime.datetime) (n : Z) : Header :=
  mkHeader (size h) (type h) (low_date h) (high_date h) (raw_bytes h)
           n (channel h) (channel_id h) (Some t).

Definition lift {A} (r : Exn + A) : M A :=
  match r with
  | inl e => raise e
  | inr a => ret a
  end.

Definition _read_dgram_header : M Header :=
  dgram_size <- try_except _read_dgram_size
                  (fun e => eof <- at_eof ;;
                            if eof : bool then raise SimradEOF else raise e) ;;
  buf <- _read_bytes 4 ;;
  (if negb (len buf =? 4) then
     eof <- at_eof ;;
     if eof : bool then raise SimradEOF
     else
       _seek_bytes (- len buf) SEEK_CUR ;;
       pos_bytes <- _tell_bytes ;;
       pos_dgrams <- tell ;;
       raise (DatagramReadError "Short read while getting dgram type"
                4 (len buf) pos_bytes pos_dgrams)
   else ret tt) ;;
  let dgram_type := buf in
  let raw_bytes := buf in
  stamp <- _read_timestamp ;;
  let '(lowDateField, highDateField, buf) := stamp in
  let raw_bytes := raw_bytes ++ buf in
  let bytes_read := dgram_size + 20 in
  ret (mkHeader dgram_size dgram_type lowDateField highDateField raw_bytes
         bytes_read None None None).

(** ** Resynchronisation *)

(** [re_pattern = b'RAW|NME|TAG|BOT|DEP|XML|MRU'] *)
Definition re_pattern : list (list byte) :=
  [ ["R"; "A"; "W"]; ["N"; "M"; "E"]; ["T"; "A"; "G"]; ["B"; "O"; "T"];
    ["D"; "E"; "P"]; ["X"; "M"; "L"]; ["M"; "R"; "U"] ]%byte.

Definition search_buf_bytes : Z := 1024 * 1024 * 10.

Definition match_here (buf : list byte) : bool :=
  existsb (startswith buf) re_pattern.

(** [match.start()] of the first match of [re.finditer(re_pattern, buf)]. *)
Fixpoint first_match (buf : list byte) : option Z :=
  match buf with
  | [] => None
  | _ :: t => if match_here buf then Some 0
              else option_map Z.succ (first_match t)
  end.

(** The [while not found_match] loop; [fuel] bounds its iterations. *)
Fixpoint find_loop (fuel : nat) (initial_file_pos current_file_pos : Z) : M unit :=
  match fuel with
  | O => out_of_fuel
  | S fuel' =>
      buf <- _read_bytes search_buf_bytes ;;
      if len buf =? 0 then raise SimradEOF
      else
        match first_match buf with
        | Some start =>
            let next_dgram := current_file_pos + start - 4 in
            _seek_bytes next_dgram SEEK_SET
        | None =>
            find_loop fuel' initial_file_pos (current_file_pos + search_buf_bytes)
        end
  end.

Definition _find_next_datagram : M unit :=
  initial_file_pos <- _tell_bytes ;;
  fun f => find_loop (S (length (raw f))) initial_file_pos initial_file_pos f.

(** ** Peeking, skipping *)

Definition RAW0 : list byte := ["R"; "A"; "W"; "0"]%byte.
Definition RAW3 : list byte := ["R"; "A"; "W"; "3"]%byte.
Definition RAW4 : list byte := ["R"; "A"; "W"; "4"]%byte.

Definition peek (rewind : bool) : M Header :=
  dgram_header <- _read_dgram_header ;;
  if startswith (type dgram_header) RAW0 then
    buf <- _read_bytes 2 ;;
    c <- (if len buf =? 2 then ret (unpack_h buf) else raise StructError) ;;
    let dgram_header := set_channel dgram_header c in
    (if rewind then _seek_bytes (-18) SEEK_CUR
     else _seek_bytes (-2) SEEK_CUR) ;;
    ret dgram_header
  else if startswith (type dgram_header) RAW3
          || startswith (type dgram_header) RAW4 then
    buf <- _read_bytes 128 ;;
    chan_id <- (if len buf =? 128 then ret buf else raise StructError) ;;
    let dgram_header := set_channel_id dgram_header (strip_nul chan_id) in
    (if rewind then _seek_bytes (-144) SEEK_CUR
     else _seek_bytes (-128) SEEK_CUR) ;;
    ret dgram_header
  else
    (if rewind then _seek_bytes (-16) SEEK_CUR else ret tt) ;;
    ret dgram_header.

Definition us_past_nt_epoch (low_date high_date : Z) : Z :=
  (Z.shiftl high_date 32 + low_date) / 10.

(** [UTC_NT_EPOCH + datetime.timedelta(microseconds=us_past_nt_epoch)] *)
Definition nt_timestamp (low_date high_date : Z) : Exn + datetime.datetime :=
  match datetime.timedelta_of_microseconds (us_past_nt_epoch low_date high_date) with
  | inl e => inl e
  | inr td => datetime.add UTC_NT_EPOCH td
  end.

Definition get_header : M Header :=
  dgram_header <- peek false ;;
  t <- lift (nt_timestamp (low_date dgram_header) (high_date dgram_header)) ;;
  ret (set_timestamp dgram_header t (size dgram_header + 20)).

Definition incr_dgram_offset : M unit :=
  fun f => (Ok tt, set_dgram_offset f (_current_dgram_offset f + 1)).

Definition decr_dgram_offset : M unit :=
  fun f => (Ok tt, set_dgram_offset f (_current_dgram_offset f - 1)).

Definition skip (header : option Header) : M unit :=
  header <- match header with
            | None => _read_dgram_header
            | Some h => ret h
            end ;;
  (if size header <? 16 then _find_next_datagram
   else
     _seek_bytes (size header - 12) SEEK_CUR ;;
     dgram_size_check <- _read_dgram_size ;;
     if negb (size header =? dgram_size_check) then _find_next_datagram
     else ret tt) ;;
  incr_dgram_offset.

(** [raise DatagramSizeError] names the class: building the instance without
    the two arguments its [__init__] requires fails, and what reaches the
    caller is a [TypeError].  [_read_dgram_size] raises
    [DatagramReadError] only, so the [except DatagramSizeError] clause around
    the second read never runs. *)
Definition skip_back : M unit :=
  old_file_pos <- _tell_bytes ;;
  _seek_bytes (-4) SEEK_CUR ;;
  dgram_size_check <- _read_dgram_size ;;
  try_except (_seek_bytes (- (8 + dgram_size_check)) SEEK_CUR)
    (fun e => match e with
              | IOError => raise TypeError
              | _ => raise e
              end) ;;
  dgram_size <- _read_dgram_size ;;
  (if negb (dgram_size_check =? dgram_size) then
     _seek_bytes old_file_pos SEEK_SET ;;
     raise TypeError
   else _seek_bytes (-4) SEEK_CUR) ;;
  decr_dgram_offset.

(** ** Seeking by datagram *)

Definition set_total_dgram_count (f : RawSimradFile) (n : option Z)
  : RawSimradFile :=
  mkFile (raw f) (cursor f) (_current_dgram_offset f) n (_return_raw f).

Definition put_dgram_offset (i : Z) : M unit :=
  fun f => (Ok tt, set_dgram_offset f i).

Definition put_total_dgram_count (n : option Z) : M unit :=
  fun f => (Ok tt, set_total_dgram_count f n).

Definition reset : M unit :=
  put_dgram_offset 0 ;;
  put_total_dgram_count None ;;
  _seek_bytes 0 SEEK_SET.

(** The [while True] loop of [_set_total_dgram_count]: skip until a
    [DatagramReadError] or a [SimradEOF], which stores the count and breaks;
    any other exception leaves the loop and the method.  [fuel] bounds the
    iterations. *)
Fixpoint count_dgrams (fuel : nat) : M unit :=
  match fuel with
  | O => out_of_fuel
  | S fuel' =>
      again <- try_except (skip None ;; ret true)
                 (fun e => match e with
                           | DatagramReadError _ _ _ _ _ | SimradEOF =>
                               n <- tell ;;
                               put_total_dgram_count (Some n) ;;
                               ret false
                           | _ => raise e
                           end) ;;
      if again : bool then count_dgrams fuel' else ret tt
  end.

Definition _set_total_dgram_count : M unit :=
  fun f =>
    match _total_dgram_count f with
    | Some _ => raise ValueError f
    | None =>
        (old_file_pos <- _tell_bytes ;;
         old_dgram_offset <- tell ;;
         put_dgram_offset 0 ;;
         _seek_bytes 0 SEEK_SET ;;
         (fun g => count_dgrams (S (length (raw g))) g) ;;
         _seek_bytes old_file_pos SEEK_SET ;;
         put_dgram_offset old_dgram_offset) f
    end.

(** [for k in range(n): c] *)
Fixpoint repeat_call (n : nat) (c : M unit) : M unit :=
  match n with
  | O => ret tt
  | S n' => c ;; repeat_call n' c
  end.

(** [seek(offset, whence)], with [whence] one of [io.SEEK_SET = 0],
    [io.SEEK_CUR = 1], [io.SEEK_END = 2].  Once [_set_total_dgram_count]
    has returned or raised [ValueError] the count is set (see
    [seek_end_count_is_set]), so the index always receives a number. *)
Definition seek (offset : Z) (whence : Z) : M unit :=
  (if whence =? 0 then
     if offset <? 0 then raise ValueError
     else _seek_bytes 0 SEEK_SET ;; put_dgram_offset 0
   else if whence =? 2 then
     if 0 <? offset then raise ValueError
     else
       try_except _set_total_dgram_count
         (fun e => match e with
                   | ValueError => ret tt
                   | _ => raise e
                   end) ;;
       _seek_bytes 0 SEEK_END ;;
       fun f => match _total_dgram_count f with
                | Some n => put_dgram_offset n f
                | None => ret tt f
                end
   else if whence =? 1 then ret tt
   else raise ValueError) ;;
  if 0 <? offset then repeat_call (Z.to_nat offset) (skip None)
  else if offset <? 0 then repeat_call (Z.to_nat (- offset)) skip_back
  else ret tt.

(** ** Dispatch to the parsers *)

(** The parser classes of [simrad_parsers] that [DGRAM_TYPE_KEY] instantiates,
    and [SimradUnknownParser(dgram_type)] for every other type. *)
Inductive Parser : Type :=
| SimradRawParser
| SimradConfigParser
| SimradAnnotationParser
| SimradNMEAParser
| SimradBottomParser
| SimradDepthParser
| SimradXMLParser
| SimradFILParser
| SimradMRUParser
| SimradIDXParser
| SimradUnknownParser (dgram_type : list byte).

Definition DGRAM_TYPE_KEY : list (list byte * Parser) :=
  [ (["R"; "A"; "W"], SimradRawParser);
    (["C"; "O"; "N"], SimradConfigParser);
    (["T"; "A"; "G"], SimradAnnotationParser);
    (["N"; "M"; "E"], SimradNMEAParser);
    (["B"; "O"; "T"], SimradBottomParser);
    (["D"; "E"; "P"], SimradDepthParser);
    (["X"; "M"; "L"], SimradXMLParser);
    (["F"; "I"; "L"], SimradFILParser);
    (["M"; "R"; "U"], SimradMRUParser);
    (["I"; "D"; "X"], SimradIDXParser) ]%byte.

Fixpoint dict_get (key : list byte) (d : list (list byte * Parser)) : option Parser :=
  match d with
  | [] => None
  | (k, v) :: d' => if bytes_eqb k key then Some v else dict_get key d'
  end.

(** A stand-in for the parsers that keeps the call it was given: which
    parser, over which bytes, with which [bytes_read]. *)
Record ParserCall : Type := mkCall {
  call_parser : Parser;
  call_raw : list byte;
  call_bytes_read : Z
}.

Definition recording_parser (p : Parser) (raw_string : list byte) (n : Z)
  : Exn + ParserCall := inr (mkCall p raw_string n).

Section Reader.

(** The module [simrad_parsers] is imported, not defined, by the file: its
    [from_string] methods are parameters here.  A parser either returns a
    datagram or raises.  [readall], which runs the generator
    [iter_dgrams], is left abstract as well; nothing below depends on it. *)
Variable Datagram : Type.
Variable from_string : Parser -> list byte -> Z -> Exn + Datagram.

(** What [_read_next_dgram] returns: the raw bytes when the file was opened
    with [return_raw], the parsed datagram otherwise. *)
Inductive Dgram : Type :=
| RawDgram (raw_dgram : list byte)
| NiceDgram (nice_dgram : Datagram).

Variable readall : M (list Dgram).

Definition _convert_raw_datagram (raw_datagram_string : list byte)
           (bytes_read : Z) : M Datagram :=
  let dgram_type := take 3 raw_datagram_string in
  try_except
    (match dict_get dgram_type DGRAM_TYPE_KEY with
     | Some parser => lift (from_string parser raw_datagram_string bytes_read)
     | None => raise KeyError
     end)
    (fun e => match e with
              | KeyError =>
                  lift (from_string (SimradUnknownParser dgram_type)
                          raw_datagram_string bytes_read)
              | _ => raise e
              end).

Definition retitle (message : string) (e : Exn) : Exn :=
  match e with
  | DatagramReadError _ a b c d => DatagramReadError message a b c d
  | _ => e
  end.

Definition is_DatagramReadError (e : Exn) : bool :=
  match e with
  | DatagramReadError _ _ _ _ _ => true
  | _ => false
  end.

(** The body of the method.  It calls itself after every
    resynchronisation; [self_call] stands for [self._read_next_dgram()]. *)
Definition _read_next_dgram_body (self_call : M Dgram)
           (header : option Header) : M Dgram :=
  entry <- match header with
           | None =>
               old_file_pos <- _tell_bytes ;;
               header <- try_except _read_dgram_header
                           (fun e => raise (retitle
                              "Short read while getting raw file datagram header" e)) ;;
               ret (header, old_file_pos)
           | Some header =>
               pos <- _tell_bytes ;;
               ret (header, pos - 16)
           end ;;
  let '(header, old_file_pos) := entry in
  if size header <? 16 then
    _find_next_datagram ;;
    self_call
  else
    let raw_dgram := raw_bytes header in
    rest <- _read_bytes (size header - 12) ;;
    let raw_dgram := raw_dgram ++ rest in
    let bytes_read := len raw_dgram in
    if bytes_read <? size header then
      _find_next_datagram ;;
      self_call
    else
      dgram_size_check <-
        try_except _read_dgram_size
          (fun e => if is_DatagramReadError e then
                      _seek_bytes old_file_pos SEEK_SET ;;
                      raise (retitle
                        "Short read while getting trailing raw file datagram size for check" e)
                    else raise e) ;;
      if negb (size header =? dgram_size_check) then
        _find_next_datagram ;;
        self_call
      else
        let bytes_read := bytes_read + 20 in
        fun f =>
          if _return_raw f then
            (incr_dgram_offset ;; ret (RawDgram raw_dgram)) f
          else
            (nice_dgram <- _convert_raw_datagram raw_dgram bytes_read ;;
             incr_dgram_offset ;;
             ret (NiceDgram nice_dgram)) f.

(** [fuel] bounds the depth of the recursion. *)
Fixpoint _read_next_dgram_rec (fuel : nat) (header : option Header) : M Dgram :=
  match fuel with
  | O => out_of_fuel
  | S fuel' => _read_next_dgram_body (_read_next_dgram_rec fuel' None) header
  end.

Definition _read_next_dgram (header : option Header) : M Dgram :=
  fun f => _read_next_dgram_rec (S (S (length (raw f)))) header f.

(** What [read] returns: one datagram for [k = 1], a list for [k > 1] and
    for [k < 0], and [None] for [k = 0], where no branch is taken. *)
Inductive ReadResult : Type :=
| One (dgram : Dgram)
| Many (dgram_list : list Dgram)
| PyNone.

(** [for m in range(k)], with [break] on any exception. *)
Fixpoint read_loop (k : nat) (dgram_list : list Dgram) : M (list Dgram) :=
  match k with
  | O => ret dgram_list
  | S k' =>
      fun f => match _read_next_dgram None f with
               | (Ok dgram, f') => read_loop k' (dgram_list ++ [dgram]) f'
               | (Raise _, f') => (Ok dgram_list, f')
               | (OutOfFuel, f') => (OutOfFuel, f')
               end
  end.

Definition read (k : Z) (header : option Header) : M ReadResult :=
  if k =? 1 then
    try_except (dgram <- _read_next_dgram header ;; ret (One dgram))
      (fun e => eof <- at_eof ;;
                if eof : bool then raise SimradEOF else raise e)
  else if 0 <? k then
    dgram_list <- read_loop (Z.to_nat k) [] ;;
    ret (Many dgram_list)
  else if k <? 0 then
    dgram_list <- readall ;;
    ret (Many dgram_list)
  else ret PyNone.

(** [__next__] *)
Definition next : M ReadResult := read 1 None.

Definition prev : M ReadResult :=
  skip_back ;;
  raw_dgram <- read 1 None ;;
  skip_back ;;
  ret raw_dgram.

(** How one pass through [_read_next_dgram] ends when it does not raise:
    with a complete frame to deliver, or with the decision to resynchronise
    and call itself. *)
Inductive Attempt : Type :=
| Resync
| Frame (raw_dgram : list byte) (bytes_read : Z).

Definition attempt (header : option Header) : M Attempt :=
  entry <- match header with
           | None =>
               old_file_pos <- _tell_bytes ;;
               header <- try_except _read_dgram_header
                           (fun e => raise (retitle
                              "Short read while getting raw file datagram header" e)) ;;
               ret (header, old_file_pos)
           | Some header =>
               pos <- _tell_bytes ;;
               ret (header, pos - 16)
           end ;;
  let '(header, old_file_pos) := entry in
  if size header <? 16 then ret Resync
  else
    rest <- _read_bytes (size header - 12) ;;
    let raw_dgram := raw_bytes header ++ rest in
    if len raw_dgram <? size header then ret Resync
    else
      dgram_size_check <-
        try_except _read_dgram_size
          (fun e => if is_DatagramReadError e then
                      _seek_bytes old_file_pos SEEK_SET ;;
                      raise (retitle
                        "Short read while getting trailing raw file datagram size for check" e)
                    else raise e) ;;
      if negb (size header =? dgram_size_check) then ret Resync
      else ret (Frame raw_dgram (len raw_dgram + 20)).

(** The part of an attempt that follows the header. *)
Definition attempt_payload (header : Header) (old_file_pos : Z) : M Attempt :=
  if size header <? 16 then ret Resync
  else
    rest <- _read_bytes (size header - 12) ;;
    let raw_dgram := raw_bytes header ++ rest in
    if len raw_dgram <? size header then ret Resync
    else
      dgram_size_check <-
        try_except _read_dgram_size
          (fun e => if is_DatagramReadError e then
                      _seek_bytes old_file_pos SEEK_SET ;;
                      raise (retitle
                        "Short read while getting trailing raw file datagram size for check" e)
                    else raise e) ;;
      if negb (size header =? dgram_size_check) then ret Resync
      else ret (Frame raw_dgram (len raw_dgram + 20)).

(** The last lines of [_read_next_dgram]: hand the frame to the caller,
    raw or parsed, and count it. *)
Definition deliver (raw_dgram : list byte) (bytes_read : Z)
  : M Dgram :=
  fun f =>
    if _return_raw f then
      (incr_dgram_offset ;; ret (RawDgram raw_dgram)) f
    else
      (nice_dgram <- _convert_raw_datagram raw_dgram bytes_read ;;
       incr_dgram_offset ;;
       ret (NiceDgram nice_dgram)) f.

Definition after_attempt (self_call : M Dgram) (a : Attempt)
  : M Dgram :=
  match a with
  | Resync => _find_next_datagram ;; self_call
  | Frame raw_dgram bytes_read => deliver raw_dgram bytes_read
  end.

(** What [_convert_raw_datagram] computes, as a function of its arguments:
    the parser registered for the first three bytes, or the unknown-type
    parser when there is none or when the registered one raises
    [KeyError]. *)
Definition parse (raw_dgram : list byte) (bytes_read : Z) : Exn + Datagram :=
  let dgram_type := take 3 raw_dgram in
  match dict_get dgram_type DGRAM_TYPE_KEY with
  | Some parser =>
      match from_string parser raw_dgram bytes_read with
      | inl KeyError =>
          from_string (SimradUnknownParser dgram_type) raw_dgram bytes_read
      | r => r
      end
  | None => from_string (SimradUnknownParser dgram_type) raw_dgram bytes_read
  end.

(** What a caller of [_read_next_dgram] receives for a complete frame. *)
Definition delivered (return_raw : bool) (raw_dgram : list byte)
           (bytes_read : Z) : Exn + Dgram :=
  if return_raw then inr (RawDgram raw_dgram)
  else match parse raw_dgram bytes_read with
       | inl e => inl e
       | inr d => inr (NiceDgram d)
       end.

(** [n] calls of [read(1)] or [skip()], each of which returned. *)
Inductive forward_steps : nat -> RawSimradFile -> RawSimradFile -> Prop :=
| forward_done (f : RawSimradFile) : forward_steps 0 f f
| forward_read (n : nat) (f f1 f2 : RawSimradFile) (header : option Header)
               (x : ReadResult) :
    read 1 header f = (Ok x, f1) ->
    forward_steps n f1 f2 -> forward_steps (S n) f f2
| forward_skip (n : nat) (f f1 f2 : RawSimradFile) (header : option Header) :
    skip header f = (Ok tt, f1) ->
    forward_steps n f1 f2 -> forward_steps (S n) f f2.

(** The datagrams returned by successive successful calls of
    [_read_next_dgram()], and the file object after the last of them. *)
Inductive reads : RawSimradFile -> list Dgram -> RawSimradFile -> Prop :=
| reads_nil (f : RawSimradFile) : reads f [] f
| reads_cons (f f1 f2 : RawSimradFile) (d : Dgram)
             (l : list Dgram) :
    _read_next_dgram None f = (Ok d, f1) ->
    reads f1 l f2 -> reads f (d :: l) f2.

End Reader.

Arguments RawDgram {Datagram} raw_dgram.
Arguments NiceDgram {Datagram} nice_dgram.
Arguments One {Datagram} dgram.
Arguments Many {Datagram} dgram_list.
Arguments PyNone {Datagram}.
Arguments _convert_raw_datagram {Datagram} from_string raw_datagram_string bytes_read.
Arguments _read_next_dgram_body {Datagram} from_string self_call header.
Arguments _read_next_dgram_rec {Datagram} from_string fuel header.
Arguments _read_next_dgram {Datagram} from_string header.
Arguments read_loop {Datagram} from_string k dgram_list.
Arguments read {Datagram} from_string readall k header.
Arguments next {Datagram} from_string readall.
Arguments prev {Datagram} from_string readall.
Arguments deliver {Datagram} from_string raw_dgram bytes_read.
Arguments after_attempt {Datagram} from_string self_call a.
Arguments parse {Datagram} from_string raw_dgram bytes_read.
Arguments delivered {Datagram} from_string return_raw raw_dgram bytes_read.
Arguments forward_steps {Datagram} from_string readall _ _ _.
Arguments reads {Datagram} from_string _ _ _.

(** ** Example streams *)

Definition zero4 : list byte := [x00; x00; x00; x00].
Definition size16 : list byte := [x10; x00; x00; x00].
Definition size17 : list byte := [x11; x00; x00; x00].
Definition NME0 : list byte := ["N"; "M"; "E"; "0"]%byte.
Definition CON0 : list byte := ["C"; "O"; "N"; "0"]%byte.

(** One second past the epoch: ten million ticks, low word first. *)
Definition one_second : list byte := [x80; x96; x98; x00; x00; x00; x00; x00].
Definition zero_time : list byte := zero4 ++ zero4.

(** A well-formed NME0 datagram with four bytes of data: 24 bytes. *)
Definition nme0_frame : list byte :=
  size16 ++ NME0 ++ one_second ++ ["$"; "G"; "P"; x0a]%byte ++ size16.

(** A CON0 datagram whose trailing size says 17 where the leading one says
    16. *)
Definition corrupt_frame : list byte :=
  size16 ++ CON0 ++ zero_time ++ zero4 ++ size17.

(** A RAW0 datagram for channel 7. *)
Definition raw0_frame : list byte :=
  size16 ++ RAW0 ++ one_second ++ [x07; x00; x00; x00] ++ size16.

(** A well-formed datagram cut short two bytes into its trailing size. *)
Definition truncated_frame : list byte :=
  size16 ++ NME0 ++ one_second ++ zero4 ++ [x10; x00].

(** The four bytes [N M E \0] read as a size: 4541774. *)
Definition alias_size : list byte := ["N"; "M"; "E"; x00]%byte.

(** A CON0 datagram whose trailing size is 0 where the leading one says
    16. *)
Definition corrupt_frame0 : list byte :=
  size16 ++ CON0 ++ zero_time ++ zero4 ++ zero4.

(** A well-formed NME0 datagram of [m + 4] zero bytes of data, whose size
    field is [alias_size] when [m + 16 = 4541774]. *)
Definition alias_data (m : nat) : list byte := repeat x00 m ++ zero4.

Definition alias_frame (m : nat) : list byte :=
  alias_size ++ NME0 ++ zero_time ++ alias_data m ++ alias_size.

Definition alias_stream : list byte :=
  corrupt_frame0 ++ alias_frame (Z.to_nat 4541758).

(** [skip] as the specification words it: resynchronise, then retry the
    skip.  [fuel] bounds the retries. *)
Fixpoint skip_with_retry (fuel : nat) (header : option Header) : M unit :=
  match fuel with
  | O => out_of_fuel
  | S fuel' =>
      header <- match header with
                | None => _read_dgram_header
                | Some h => ret h
                end ;;
      if size header <? 16 then
        _find_next_datagram ;; skip_with_retry fuel' None
      else
        _seek_bytes (size header - 12) SEEK_CUR ;;
        dgram_size_check <- _read_dgram_size ;;
        if negb (size header =? dgram_size_check) then
          _find_next_datagram ;; skip_with_retry fuel' None
        else incr_dgram_offset
  end.

(** The number of payload bytes [peek] looks at for a datagram type. *)
Definition lookahead_len (dgram_type : list byte) : Z :=
  if startswith dgram_type RAW0 then 2
  else if startswith dgram_type RAW3 || startswith dgram_type RAW4 then 128
  else 0.

(** A stand-in for [readall] in the examples. *)
Definition no_readall : M (list (Dgram ParserCall)) := raise ValueError.

(** Three well-formed datagrams in a row: 72 bytes. *)
Definition three_frames : list (list byte) :=
  [nme0_frame; raw0_frame; nme0_frame].

(** A file cut off nine bytes into the header of its second datagram. *)
Definition cut_in_header : list byte :=
  nme0_frame ++ size16 ++ NME0 ++ [x80].

(** A RAW0 datagram cut off one byte into its payload. *)
Definition raw0_cut_in_channel : list byte :=
  size16 ++ RAW0 ++ one_second ++ [x07].

(** A well-formed NME0 datagram whose time has all 64 bits set. *)
Definition far_future_frame : list byte :=
  size16 ++ NME0 ++ [xff; xff; xff; xff; xff; xff; xff; xff]
  ++ zero4 ++ size16.

(** The tag [NME] lying across the end of the first search buffer: its
    first two bytes are the last two of the buffer. *)
Definition split_tag_stream : list byte :=
  repeat x00 (Z.to_nat (search_buf_bytes - 2)) ++ NME0.

(** A parser that rejects every datagram, and one whose registered parsers
    raise [KeyError]. *)
Definition failing_parser (p : Parser) (raw_string : list byte) (n : Z)
  : Exn + ParserCall := inl (ParserError "bad datagram").

Definition keyerror_parser (p : Parser) (raw_string : list byte) (n : Z)
  : Exn + ParserCall :=
  match p with
  | SimradUnknownParser _ => inr (mkCall p raw_string n)
  | _ => inl KeyError
  end.

(** ** Notions used in the statements *)

(** The bytes from the cursor to the end of the file. *)
Definition rest (f : RawSimradFile) : list byte := drop (cursor f) (raw f).

Definition header_of (sz ty ts : list byte) : Header :=
  mkHeader (unpack_l sz) ty (unpack_L (take 4 ts)) (unpack_L (drop 4 ts))
           (ty ++ ts) (unpack_l sz + 20) None None None.

(** Everything below [_read_next_dgram], [skip] and [skip_back] leaves the
    attributes of the object alone, and never moves the cursor before the
    start of the file. *)
Definition byte_level {A} (c : M A) : Prop :=
  forall f o f', c f = (o, f') ->
    f' = set_cursor f (cursor f') /\ (0 <= cursor f -> 0 <= cursor f').

Definition fueled {A} (c : M A) : Prop := forall f, fst (c f) <> OutOfFuel.

(** [n] calls of [peek(rewind=True)] in a row, with the headers they return. *)
Fixpoint peek_many (n : nat) : M (list Header) :=
  match n with
  | O => ret []
  | S n' => h <- peek true ;; hs <- peek_many n' ;; ret (h :: hs)
  end.

Definition gps_data : list byte := ["$"; "G"; "P"; x0a]%byte.

Definition nme0_record : Dgram ParserCall :=
  NiceDgram (mkCall SimradNMEAParser (NME0 ++ one_second ++ gps_data) 36).

Definition raw0_header : Header :=
  set_channel (header_of size16 RAW0 one_second) 7.

Definition raw0_record : Dgram ParserCall :=
  NiceDgram (mkCall SimradRawParser
               (RAW0 ++ one_second ++ [x07; x00; x00; x00]) 36).

(** A well-formed frame, complete from its leading size to its trailing
    size: the leading size [s] is at least 16, the frame is [s + 8] bytes
    long, and the last four bytes read [s] again. *)
Definition is_frame (fr : list byte) : bool :=
  let s := unpack_l (take 4 fr) in
  (16 <=? s) && (len fr =? s + 8) && (unpack_l (drop (s + 4) fr) =? s).

(** The bytes of a frame between its two sizes: type, time and data. *)
Definition frame_body (fr : list byte) : list byte :=
  take (len fr - 8) (drop 4 fr).

(** The file object [f] with its cursor at byte [p] and its datagram index
    at [i]. *)
Definition positioned (f : RawSimradFile) (p i : Z) : RawSimradFile :=
  set_dgram_offset (set_cursor f p) i.

(** ** Lists of bytes *)

Lemma len_nil : len [] = 0.
Proof. reflexivity. Qed.

Lemma len_cons (b : byte) (l : list byte) : len (b :: l) = len l + 1.
Proof. unfold len. cbn [length]. lia. Qed.

Lemma len_app (a b : list byte) : len (a ++ b) = len a + len b.
Proof. unfold len. rewrite length_app. lia. Qed.

Lemma len_nonneg (l : list byte) : 0 <= len l.
Proof. unfold len. lia. Qed.

Lemma len_repeat (b : byte) (n : nat) : len (repeat b n) = Z.of_nat n.
Proof. unfold len. now rewrite repeat_length. Qed.

Lemma len_zero_nil (l : list byte) : len l = 0 -> l = [].
Proof. destruct l; [reflexivity | rewrite len_cons; pose proof (len_nonneg l); lia]. Qed.

Lemma take_nonpos (k : Z) (l : list byte) : k <= 0 -> take k l = [].
Proof.
  intros Hk. destruct l as [|b t]; [reflexivity|].
  cbn [take]. destruct (Z.leb_spec k 0); [reflexivity | lia].
Qed.

Lemma drop_nonpos (k : Z) (l : list byte) : k <= 0 -> drop k l = l.
Proof.
  intros Hk. destruct l as [|b t]; [reflexivity|].
  cbn [drop]. destruct (Z.leb_spec k 0); [reflexivity | lia].
Qed.

Lemma take_cons (k : Z) (b : byte) (l : list byte) :
  0 < k -> take k (b :: l) = b :: take (k - 1) l.
Proof. intros Hk. cbn [take]. destruct (Z.leb_spec k 0); [lia | reflexivity]. Qed.

Lemma drop_cons (k : Z) (b : byte) (l : list byte) :
  0 < k -> drop k (b :: l) = drop (k - 1) l.
Proof. intros Hk. cbn [drop]. destruct (Z.leb_spec k 0); [lia | reflexivity]. Qed.

Lemma take_all (l : list byte) : forall k, len l <= k -> take k l = l.
Proof.
  induction l as [|b t IH]; intros k Hk; [reflexivity|].
  rewrite len_cons in Hk. pose proof (len_nonneg t).
  rewrite take_cons by lia. f_equal. apply IH. lia.
Qed.

Lemma drop_all (l : list byte) : forall k, len l <= k -> drop k l = [].
Proof.
  induction l as [|b t IH]; intros k Hk; [reflexivity|].
  rewrite len_cons in Hk. pose proof (len_nonneg t).
  rewrite drop_cons by lia. apply IH. lia.
Qed.

Lemma take_app_ge (a : list byte) : forall k b,
  len a <= k -> take k (a ++ b) = a ++ take (k - len a) b.
Proof.
  induction a as [|x a IH]; intros k b Hk.
  - cbn [app]. rewrite len_nil. f_equal. lia.
  - rewrite len_cons in *. pose proof (len_nonneg a).
    cbn [app]. rewrite take_cons by lia. f_equal.
    rewrite IH by lia. do 2 f_equal. lia.
Qed.

Lemma drop_app_ge (a : list byte) : forall k b,
  len a <= k -> drop k (a ++ b) = drop (k - len a) b.
Proof.
  induction a as [|x a IH]; intros k b Hk.
  - cbn [app]. rewrite len_nil. f_equal. lia.
  - rewrite len_cons in *. pose proof (len_nonneg a).
    cbn [app]. rewrite drop_cons by lia.
    rewrite IH by lia. f_equal. lia.
Qed.

Lemma take_app_exact (a b : list byte) : take (len a) (a ++ b) = a.
Proof.
  rewrite take_app_ge by lia. rewrite take_nonpos by lia. apply app_nil_r.
Qed.

Lemma drop_app_exact (a b : list byte) : drop (len a) (a ++ b) = b.
Proof. rewrite drop_app_ge by lia. apply drop_nonpos. lia. Qed.

Lemma take_drop (l : list byte) : forall k, take k l ++ drop k l = l.
Proof.
  induction l as [|b t IH]; intros k; [reflexivity|].
  destruct (Z.leb_spec k 0).
  - now rewrite take_nonpos, drop_nonpos by lia.
  - rewrite take_cons, drop_cons by lia. cbn [app]. f_equal. apply IH.
Qed.

Lemma len_take (l : list byte) : forall k,
  len (take k l) = Z.max 0 (Z.min k (len l)).
Proof.
  induction l as [|b t IH]; intros k.
  - cbn [take]. rewrite len_nil. lia.
  - destruct (Z.leb_spec k 0).
    + rewrite take_nonpos by lia. rewrite len_nil. lia.
    + rewrite take_cons by lia. rewrite !len_cons, IH.
      pose proof (len_nonneg t). lia.
Qed.

Lemma len_drop (l : list byte) : forall k,
  len (drop k l) = Z.max 0 (len l - Z.max 0 k).
Proof.
  induction l as [|b t IH]; intros k.
  - cbn [drop]. rewrite len_nil. lia.
  - destruct (Z.leb_spec k 0).
    + rewrite drop_nonpos by lia. pose proof (len_nonneg (b :: t)). lia.
    + rewrite drop_cons by lia. rewrite len_cons, IH.
      pose proof (len_nonneg t). lia.
Qed.

Lemma drop_drop (l : list byte) : forall a b,
  0 <= a -> 0 <= b -> drop (a + b) l = drop b (drop a l).
Proof.
  induction l as [|x t IH]; intros a b Ha Hb.
  - reflexivity.
  - destruct (Z.eq_dec a 0) as [->|Hne].
    + rewrite (drop_nonpos 0) by lia. f_equal.
    + rewrite (drop_cons a) by lia.
      destruct (Z.eq_dec b 0) as [->|Hb0].
      * rewrite (drop_nonpos 0) by lia. rewrite drop_cons by lia. f_equal. lia.
      * rewrite drop_cons by lia. rewrite <- IH by lia. f_equal. lia.
Qed.

(** ** The cursor and the bytes ahead of it *)


Lemma set_cursor_id (f : RawSimradFile) : set_cursor f (cursor f) = f.
Proof. now destruct f. Qed.

Lemma set_cursor_twice (f : RawSimradFile) (p q : Z) :
  set_cursor (set_cursor f p) q = set_cursor f q.
Proof. reflexivity. Qed.

Lemma rest_at (f : RawSimradFile) (pre post : list byte) :
  raw f = pre ++ post -> cursor f = len pre -> rest f = post.
Proof. unfold rest. intros -> ->. apply drop_app_exact. Qed.

Lemma rest_advance (f : RawSimradFile) (k : Z) :
  0 <= cursor f -> 0 <= k ->
  rest (set_cursor f (cursor f + k)) = drop k (rest f).
Proof. intros. unfold rest. cbn [raw cursor set_cursor]. now apply drop_drop. Qed.

Lemma len_rest (f : RawSimradFile) :
  0 <= cursor f -> len (rest f) = Z.max 0 (len (raw f) - cursor f).
Proof. intros. unfold rest. rewrite len_drop. lia. Qed.

Lemma _read_bytes_eq (k : Z) (f : RawSimradFile) :
  0 <= k ->
  _read_bytes k f
  = (Ok (take k (rest f)), set_cursor f (cursor f + len (take k (rest f)))).
Proof.
  intros Hk. unfold _read_bytes, rest.
  destruct (Z.ltb_spec k (-1)); [lia|].
  destruct (Z.eqb_spec k (-1)); [lia|]. reflexivity.
Qed.

Lemma _read_dgram_size_ok (f : RawSimradFile) (sz more : list byte) :
  rest f = sz ++ more -> len sz = 4 ->
  _read_dgram_size f = (Ok (unpack_l sz), set_cursor f (cursor f + 4)).
Proof.
  intros Hr Hs. unfold _read_dgram_size, bind.
  rewrite _read_bytes_eq by lia. rewrite Hr, <- Hs, take_app_exact, Hs.
  reflexivity.
Qed.

Lemma _read_dgram_size_short (f : RawSimradFile) :
  0 <= cursor f -> len (rest f) < 4 ->
  _read_dgram_size f
  = (Raise (DatagramReadError "Short read while getting dgram size" 4
              (len (rest f)) (cursor f) (_current_dgram_offset f)), f).
Proof.
  intros Hc Hs. unfold _read_dgram_size, bind.
  rewrite _read_bytes_eq by lia. rewrite take_all by lia.
  destruct (Z.eqb_spec (len (rest f)) 4); [lia|]. cbn [negb].
  unfold _seek_bytes. cbn [cursor set_cursor].
  pose proof (len_nonneg (rest f)).
  destruct (Z.ltb_spec (cursor f + len (rest f) + - len (rest f)) 0); [lia|].
  rewrite set_cursor_twice.
  replace (cursor f + len (rest f) + - len (rest f)) with (cursor f) by lia.
  rewrite set_cursor_id. reflexivity.
Qed.

Lemma at_eof_eq (f : RawSimradFile) :
  0 <= cursor f -> at_eof f = (Ok (cursor f =? len (raw f)), f).
Proof.
  destruct f as [r c i t rr]. cbn [cursor raw]. intros Hc.
  unfold at_eof, bind, _tell_bytes, _seek_bytes, ret, set_cursor.
  cbn [cursor raw _current_dgram_offset _total_dgram_count _return_raw].
  pose proof (len_nonneg r).
  destruct (Z.ltb_spec (len r + 0) 0); [lia|].
  cbn [cursor raw _current_dgram_offset _total_dgram_count _return_raw].
  replace (len r + 0) with (len r) by lia.
  destruct (Z.eqb_spec c (len r)) as [E|E].
  - now rewrite <- E.
  - cbn [cursor raw _current_dgram_offset _total_dgram_count _return_raw].
    destruct (Z.ltb_spec (len r + (c - len r)) 0); [lia|].
    replace (len r + (c - len r)) with c by lia. reflexivity.
Qed.

Lemma _read_timestamp_ok (f : RawSimradFile) (ts more : list byte) :
  rest f = ts ++ more -> len ts = 8 ->
  _read_timestamp f
  = (Ok (unpack_L (take 4 ts), unpack_L (drop 4 ts), ts),
     set_cursor f (cursor f + 8)).
Proof.
  intros Hr Hs. unfold _read_timestamp, bind.
  rewrite _read_bytes_eq by lia. rewrite Hr, <- Hs, take_app_exact, Hs.
  reflexivity.
Qed.

(** A short read that stops at the end of the file is reported as
    [SimradEOF]. *)
Lemma _read_timestamp_eof (f : RawSimradFile) :
  0 <= cursor f <= len (raw f) -> len (rest f) < 8 ->
  _read_timestamp f = (Raise SimradEOF, set_cursor f (len (raw f))).
Proof.
  intros Hc Hs. unfold _read_timestamp, bind.
  rewrite _read_bytes_eq by lia. rewrite take_all by lia.
  destruct (Z.eqb_spec (len (rest f)) 8); [lia|]. cbn [negb].
  rewrite len_rest in * by lia.
  replace (cursor f + Z.max 0 (len (raw f) - cursor f)) with (len (raw f)) by lia.
  rewrite at_eof_eq by (cbn; lia). cbn [cursor raw set_cursor].
  rewrite Z.eqb_refl. reflexivity.
Qed.

Lemma take_app_len (a b : list byte) (k : Z) : len a = k -> take k (a ++ b) = a.
Proof. intros <-. apply take_app_exact. Qed.

Lemma drop_app_len (a b : list byte) (k : Z) : len a = k -> drop k (a ++ b) = b.
Proof. intros <-. apply drop_app_exact. Qed.

Lemma rest_step (f : RawSimradFile) (a b : list byte) (k : Z) :
  0 <= cursor f -> rest f = a ++ b -> len a = k ->
  rest (set_cursor f (cursor f + k)) = b.
Proof.
  intros Hc Hr Hk. pose proof (len_nonneg a).
  rewrite rest_advance by lia. rewrite Hr, <- Hk. apply drop_app_exact.
Qed.

Lemma cursor_set_cursor (f : RawSimradFile) (p : Z) : cursor (set_cursor f p) = p.
Proof. reflexivity. Qed.

Lemma raw_set_cursor (f : RawSimradFile) (p : Z) : raw (set_cursor f p) = raw f.
Proof. reflexivity. Qed.

Lemma offset_set_cursor (f : RawSimradFile) (p : Z) :
  _current_dgram_offset (set_cursor f p) = _current_dgram_offset f.
Proof. reflexivity. Qed.


Lemma _read_dgram_header_ok (f : RawSimradFile) (sz ty ts more : list byte) :
  0 <= cursor f ->
  rest f = sz ++ ty ++ ts ++ more -> len sz = 4 -> len ty = 4 -> len ts = 8 ->
  _read_dgram_header f = (Ok (header_of sz ty ts), set_cursor f (cursor f + 16)).
Proof.
  intros Hc Hr Hsz Hty Hts.
  unfold _read_dgram_header, bind, try_except.
  rewrite (_read_dgram_size_ok f sz (ty ++ ts ++ more)) by assumption.
  pose proof (rest_step f sz _ 4 Hc Hr Hsz) as Hr1.
  rewrite _read_bytes_eq by lia. rewrite Hr1.
  rewrite (take_app_len ty _ 4 Hty). rewrite Hty.
  cbn [negb Z.eqb Pos.eqb ret]. rewrite set_cursor_twice, cursor_set_cursor.
  assert (Hc1 : 0 <= cursor (set_cursor f (cursor f + 4))) by (cbn; lia).
  pose proof (rest_step _ ty _ 4 Hc1 Hr1 Hty) as Hr2.
  rewrite set_cursor_twice, cursor_set_cursor in Hr2.
  rewrite (_read_timestamp_ok _ ts more) by assumption.
  rewrite set_cursor_twice, cursor_set_cursor. unfold header_of.
  unfold ret. replace (cursor f + 4 + 4 + 8) with (cursor f + 16) by lia.
  reflexivity.
Qed.

(** At the end of the file the header read reports [SimradEOF] and leaves
    the cursor where it was. *)
Lemma _read_dgram_header_eof (f : RawSimradFile) :
  cursor f = len (raw f) -> _read_dgram_header f = (Raise SimradEOF, f).
Proof.
  intros Hc. pose proof (len_nonneg (raw f)).
  assert (Hr : len (rest f) = 0) by (rewrite len_rest by lia; lia).
  unfold _read_dgram_header, bind, try_except.
  rewrite _read_dgram_size_short by lia.
  rewrite at_eof_eq by lia. rewrite Hc, Z.eqb_refl. reflexivity.
Qed.

(** ** Computations that only move the cursor *)


Lemma byte_level_ret {A} (a : A) : byte_level (ret a).
Proof. intros f o f' [= <- <-]. now rewrite set_cursor_id. Qed.

Lemma byte_level_raise {A} (e : Exn) : byte_level (@raise A e).
Proof. intros f o f' [= <- <-]. now rewrite set_cursor_id. Qed.

Lemma byte_level_out_of_fuel {A} : byte_level (@out_of_fuel A).
Proof. intros f o f' [= <- <-]. now rewrite set_cursor_id. Qed.

Lemma byte_level_lift {A} (r : Exn + A) : byte_level (lift r).
Proof. destruct r; [apply byte_level_raise | apply byte_level_ret]. Qed.

Lemma byte_level_bind {A B} (c : M A) (k : A -> M B) :
  byte_level c -> (forall a, byte_level (k a)) -> byte_level (bind c k).
Proof.
  intros Hc Hk f o f'. unfold bind.
  destruct (c f) as [[a|e|] f1] eqn:E; intros H.
  - destruct (Hc _ _ _ E) as [E1 P1]. destruct (Hk a _ _ _ H) as [E2 P2].
    split; [|tauto]. rewrite E2, E1. reflexivity.
  - injection H as <- <-. exact (Hc _ _ _ E).
  - injection H as <- <-. exact (Hc _ _ _ E).
Qed.

Lemma byte_level_try_except {A} (c : M A) (h : Exn -> M A) :
  byte_level c -> (forall e, byte_level (h e)) -> byte_level (try_except c h).
Proof.
  intros Hc Hh f o f'. unfold try_except.
  destruct (c f) as [[a|e|] f1] eqn:E; intros H.
  - injection H as <- <-. exact (Hc _ _ _ E).
  - destruct (Hc _ _ _ E) as [E1 P1]. destruct (Hh e _ _ _ H) as [E2 P2].
    split; [|tauto]. rewrite E2, E1. reflexivity.
  - injection H as <- <-. exact (Hc _ _ _ E).
Qed.

Lemma byte_level_seek (k : Z) (w : Whence) : byte_level (_seek_bytes k w).
Proof.
  intros f o f'. unfold _seek_bytes.
  match goal with |- context [if ?t <? 0 then _ else _] =>
    destruct (Z.ltb_spec t 0) end; intros [= <- <-].
  - now rewrite set_cursor_id.
  - cbn [cursor set_cursor]. split; [reflexivity | lia].
Qed.

Lemma byte_level_tell_bytes : byte_level _tell_bytes.
Proof. intros f o f' [= <- <-]. now rewrite set_cursor_id. Qed.

Lemma byte_level_tell : byte_level tell.
Proof. intros f o f' [= <- <-]. now rewrite set_cursor_id. Qed.

Lemma byte_level_read_bytes (k : Z) : byte_level (_read_bytes k).
Proof.
  intros f o f'. unfold _read_bytes.
  destruct (k <? -1); intros [= <- <-].
  - now rewrite set_cursor_id.
  - cbn [cursor set_cursor]. split; [reflexivity|].
    match goal with |- context [len ?l] => pose proof (len_nonneg l) end. lia.
Qed.

Ltac byte_level_step :=
  first
    [ apply byte_level_ret
    | apply byte_level_raise
    | apply byte_level_out_of_fuel
    | apply byte_level_lift
    | apply byte_level_seek
    | apply byte_level_tell_bytes
    | apply byte_level_tell
    | apply byte_level_read_bytes
    | assumption
    | apply byte_level_bind; [| intros ?]
    | apply byte_level_try_except; [| intros ?]
    | match goal with
      | |- byte_level (if ?b then _ else _) => destruct b
      | |- byte_level (match ?x with _ => _ end) => destruct x
      | |- byte_level (let '(_, _) := ?x in _) => destruct x
      end ].

Ltac byte_level_tac := repeat byte_level_step.

Lemma byte_level_read_dgram_size : byte_level _read_dgram_size.
Proof. unfold _read_dgram_size. byte_level_tac. Qed.

Lemma byte_level_at_eof : byte_level at_eof.
Proof. unfold at_eof. byte_level_tac. Qed.

Lemma byte_level_read_timestamp : byte_level _read_timestamp.
Proof.
  pose proof byte_level_at_eof. unfold _read_timestamp. byte_level_tac.
Qed.

Lemma byte_level_read_dgram_header : byte_level _read_dgram_header.
Proof.
  pose proof byte_level_at_eof. pose proof byte_level_read_dgram_size.
  pose proof byte_level_read_timestamp.
  unfold _read_dgram_header. byte_level_tac.
Qed.

Lemma byte_level_find_loop (fuel : nat) :
  forall initial current, byte_level (find_loop fuel initial current).
Proof.
  induction fuel as [|n IH]; intros initial current; cbn [find_loop].
  - apply byte_level_out_of_fuel.
  - byte_level_tac. apply IH.
Qed.

Lemma byte_level_find_next_datagram : byte_level _find_next_datagram.
Proof.
  unfold _find_next_datagram. apply byte_level_bind.
  - apply byte_level_tell_bytes.
  - intros a f o f'. apply byte_level_find_loop.
Qed.

Lemma byte_level_peek (rewind : bool) : byte_level (peek rewind).
Proof.
  pose proof byte_level_read_dgram_header. unfold peek. byte_level_tac.
Qed.

Lemma byte_level_get_header : byte_level get_header.
Proof.
  pose proof (byte_level_peek false). unfold get_header. byte_level_tac.
Qed.

Lemma byte_level_offset {A} (c : M A) (f f' : RawSimradFile) (o : Outcome A) :
  byte_level c -> c f = (o, f') ->
  _current_dgram_offset f' = _current_dgram_offset f /\ raw f' = raw f
  /\ _return_raw f' = _return_raw f.
Proof.
  intros Hc E. destruct (Hc _ _ _ E) as [-> _]. now cbn.
Qed.

(** ** What a successful read consumed *)

Ltac split_ifs :=
  repeat match goal with
         | |- context [if ?b then _ else _] => destruct b eqn:?
         end.

Lemma _read_dgram_size_inv (f f1 : RawSimradFile) (z : Z) :
  _read_dgram_size f = (Ok z, f1) ->
  f1 = set_cursor f (cursor f + 4)
  /\ len (take 4 (rest f)) = 4 /\ z = unpack_l (take 4 (rest f)).
Proof.
  unfold _read_dgram_size, bind. rewrite _read_bytes_eq by lia.
  destruct (Z.eqb_spec (len (take 4 (rest f))) 4) as [E|E]; cbn [negb].
  - unfold ret. intros [= <- <-]. rewrite E. auto.
  - unfold _seek_bytes, _tell_bytes, tell, raise. split_ifs; discriminate.
Qed.

Lemma _read_timestamp_inv (f f1 : RawSimradFile) (r : Z * Z * list byte) :
  _read_timestamp f = (Ok r, f1) ->
  f1 = set_cursor f (cursor f + 8)
  /\ len (take 8 (rest f)) = 8
  /\ r = (unpack_L (take 4 (take 8 (rest f))),
          unpack_L (drop 4 (take 8 (rest f))), take 8 (rest f)).
Proof.
  unfold _read_timestamp, bind. rewrite _read_bytes_eq by lia.
  destruct (Z.eqb_spec (len (take 8 (rest f))) 8) as [E|E]; cbn [negb].
  - unfold ret. intros [= <- <-]. rewrite E. auto.
  - destruct (at_eof _) as [[[|]|e|] f2]; try discriminate.
    unfold _seek_bytes, _tell_bytes, tell, raise. split_ifs; discriminate.
Qed.

Lemma _read_dgram_header_inv (f f1 : RawSimradFile) (h : Header) :
  _read_dgram_header f = (Ok h, f1) ->
  f1 = set_cursor f (cursor f + 16) /\ bytes_read h = size h + 20
  /\ channel h = None /\ channel_id h = None /\ timestamp h = None.
Proof.
  unfold _read_dgram_header, bind, try_except.
  destruct (_read_dgram_size f) as [[z|e|] f2] eqn:E1.
  - apply _read_dgram_size_inv in E1. destruct E1 as (-> & _ & _).
    rewrite _read_bytes_eq by lia.
    match goal with |- context [negb (?a =? 4)] => destruct (Z.eqb_spec a 4) as [E|E] end;
      cbn [negb].
    + cbn [ret]. rewrite E.
      destruct (_read_timestamp _) as [[[[lo hi] buf]|e|] f3] eqn:E3; try discriminate.
      apply _read_timestamp_inv in E3. destruct E3 as (-> & _ & _).
      unfold ret. intros [= <- <-]. rewrite !set_cursor_twice.
      replace (cursor f + 4 + 4 + 8) with (cursor f + 16) by lia.
      cbn [bytes_read size channel channel_id timestamp]. auto.
    + destruct (at_eof _) as [[[|]|e|] f3]; try discriminate.
      unfold _seek_bytes, _tell_bytes, tell, raise. split_ifs; discriminate.
  - destruct (at_eof f2) as [[[|]|e'|] f3]; discriminate.
  - discriminate.
Qed.

(** ** Peeking *)


Lemma seek_cur_back (f : RawSimradFile) (p k : Z) (o : Outcome unit)
      (f' : RawSimradFile) :
  _seek_bytes (- k) SEEK_CUR (set_cursor f (p + k)) = (o, f') ->
  o = Ok tt -> f' = set_cursor f p.
Proof.
  unfold _seek_bytes. cbn [cursor set_cursor].
  replace (p + k + - k) with p by lia.
  destruct (p <? 0); intros [= <- <-]; [discriminate | reflexivity].
Qed.

Lemma peek_rewind_restores (f f' : RawSimradFile) (h : Header) :
  peek true f = (Ok h, f') -> f' = f.
Proof.
  unfold peek, bind.
  destruct (_read_dgram_header f) as [[h0|e|] f1] eqn:E1; try discriminate.
  apply _read_dgram_header_inv in E1. destruct E1 as (-> & _).
  destruct (startswith (type h0) RAW0).
  - rewrite _read_bytes_eq by lia. cbn [cursor set_cursor].
    match goal with |- context [len ?l =? 2] =>
      destruct (Z.eqb_spec (len l) 2) as [E|E]; [rewrite E|] end;
      [|discriminate].
    cbn [ret raise]. rewrite set_cursor_twice.
    replace (cursor f + 16 + 2) with (cursor f + 18) by lia.
    destruct (_seek_bytes (-18) SEEK_CUR _) as [[[]|e|] f2] eqn:E2; try discriminate.
    apply (seek_cur_back f (cursor f) 18) in E2; [|reflexivity].
    intros [= _ <-]. rewrite E2. apply set_cursor_id.
  - destruct (startswith (type h0) RAW3 || startswith (type h0) RAW4).
    + rewrite _read_bytes_eq by lia. cbn [cursor set_cursor].
      match goal with |- context [len ?l =? 128] =>
        destruct (Z.eqb_spec (len l) 128) as [E|E]; [rewrite E|] end;
        [|discriminate].
      cbn [ret raise]. rewrite set_cursor_twice.
      replace (cursor f + 16 + 128) with (cursor f + 144) by lia.
      destruct (_seek_bytes (-144) SEEK_CUR _) as [[[]|e|] f2] eqn:E2; try discriminate.
      apply (seek_cur_back f (cursor f) 144) in E2; [|reflexivity].
      intros [= _ <-]. rewrite E2. apply set_cursor_id.
    + destruct (_seek_bytes (-16) SEEK_CUR _) as [[[]|e|] f2] eqn:E2; try discriminate.
      apply (seek_cur_back f (cursor f) 16) in E2; [|reflexivity].
      intros [= _ <-]. rewrite E2. apply set_cursor_id.
Qed.

(** C7. Where [peek(rewind=True)] can read a header (with the channel
    fields of a RAW0, RAW3 or RAW4 datagram), it returns the file object
    exactly as it found it, byte offset included; so any number of such
    calls in a row return the same header and leave the file unchanged.  And
    [peek], with or without rewinding and whatever its outcome, does not
    change the datagram index. *)
Theorem peek_rewind_idempotent :
  (forall (f f1 : RawSimradFile) (h : Header),
      peek true f = (Ok h, f1) ->
      f1 = f /\ forall n, peek_many n f = (Ok (repeat h n), f))
  /\ (forall (rewind : bool) (f f' : RawSimradFile) (o : Outcome Header),
         peek rewind f = (o, f') ->
         _current_dgram_offset f' = _current_dgram_offset f).
Proof.
  split.
  - intros f f1 h E. pose proof (peek_rewind_restores _ _ _ E) as ->.
    split; [reflexivity|].
    induction n as [|n IH]; [reflexivity|].
    cbn [peek_many repeat]. unfold bind at 1. rewrite E.
    unfold bind at 1. rewrite IH. reflexivity.
  - intros rewind f f' o E.
    exact (proj1 (byte_level_offset _ _ _ _ (byte_level_peek rewind) E)).
Qed.

(** ** Stepping back *)

Lemma _seek_bytes_cur (f : RawSimradFile) (k : Z) :
  0 <= cursor f + k ->
  _seek_bytes k SEEK_CUR f = (Ok tt, set_cursor f (cursor f + k)).
Proof.
  intros H. unfold _seek_bytes.
  destruct (Z.ltb_spec (cursor f + k) 0); [lia | reflexivity].
Qed.

Lemma _seek_bytes_set (f : RawSimradFile) (p : Z) :
  0 <= p -> _seek_bytes p SEEK_SET f = (Ok tt, set_cursor f p).
Proof.
  intros H. unfold _seek_bytes.
  destruct (Z.ltb_spec p 0); [lia | reflexivity].
Qed.

(** C6. From byte position [p] and datagram index [i], [skip_back] reads the
    four bytes before [p] as a size [t] and the four bytes at [p - 8 - t] as a
    size [d].  When [d = t] it stops at [p - 8 - t] with index [i - 1]; when
    they differ it raises, with the cursor back at [p] and the index still
    [i]. *)
Theorem skip_back_step :
  forall (f : RawSimradFile) (trailing more1 leading more2 : list byte),
    let p := cursor f in
    let t := unpack_l trailing in
    let start := p - 8 - t in
    4 <= p ->
    drop (p - 4) (raw f) = trailing ++ more1 -> len trailing = 4 ->
    0 <= start ->
    drop start (raw f) = leading ++ more2 -> len leading = 4 ->
    (unpack_l leading = t ->
     skip_back f
     = (Ok tt, set_dgram_offset (set_cursor f start) (_current_dgram_offset f - 1)))
    /\ (unpack_l leading <> t -> skip_back f = (Raise TypeError, f)).
Proof.
  intros f trailing more1 leading more2 p t start Hp Htr Hlt Hs Hld Hll.
  assert (E : skip_back f
              = (if negb (t =? unpack_l leading)
                 then (Raise TypeError, f)
                 else (Ok tt, set_dgram_offset (set_cursor f start)
                                (_current_dgram_offset f - 1)))).
  { unfold skip_back, bind, try_except. cbn [_tell_bytes].
    rewrite _seek_bytes_cur by (fold p; lia).
    rewrite (_read_dgram_size_ok _ trailing more1)
      by (try assumption; unfold rest; cbn [cursor raw set_cursor];
          fold p; replace (p + -4) with (p - 4) by lia; assumption).
    rewrite set_cursor_twice, cursor_set_cursor. fold t.
    rewrite _seek_bytes_cur by (cbn [cursor set_cursor]; fold p; lia).
    rewrite set_cursor_twice, cursor_set_cursor. fold p.
    replace (p + -4 + 4 + - (8 + t)) with start by (unfold start; lia).
    rewrite (_read_dgram_size_ok _ leading more2)
      by (try assumption; unfold rest; cbn [cursor raw set_cursor]; assumption).
    rewrite set_cursor_twice, cursor_set_cursor.
    destruct (negb (t =? unpack_l leading)).
    - rewrite _seek_bytes_set by (unfold p in Hp; lia).
      rewrite set_cursor_twice. unfold p. rewrite set_cursor_id. reflexivity.
    - rewrite _seek_bytes_cur by (cbn [cursor set_cursor]; lia).
      rewrite set_cursor_twice, cursor_set_cursor.
      replace (start + 4 + -4) with start by lia. reflexivity. }
  rewrite E. split; intros H.
  - rewrite H, Z.eqb_refl. reflexivity.
  - destruct (Z.eqb_spec t (unpack_l leading)); [congruence | reflexivity].
Qed.

(** ** Timestamps *)

Lemma lor_shiftl_32 (low high : Z) :
  0 <= low < 2 ^ 32 -> Z.lor (Z.shiftl high 32) low = Z.shiftl high 32 + low.
Proof.
  intros Hl. rewrite <- Z.add_lor_land.
  assert (E : Z.land (Z.shiftl high 32) low = 0).
  { apply Z.bits_inj'. intros n Hn. rewrite Z.land_spec, Z.bits_0.
    destruct (Z.lt_ge_cases n 32).
    - rewrite Z.shiftl_spec_low by lia. reflexivity.
    - rewrite <- (Z.mod_small low (2 ^ 32)) by lia.
      rewrite Z.mod_pow2_bits_high by lia. apply andb_false_r. }
  rewrite E. lia.
Qed.

Lemma get_header_timestamp (f f' : RawSimradFile) (h : Header) :
  get_header f = (Ok h, f') ->
  exists t, timestamp h = Some t
            /\ nt_timestamp (low_date h) (high_date h) = inr t
            /\ bytes_read h = size h + 20.
Proof.
  unfold get_header, bind.
  destruct (peek false f) as [[h0|e|] f1]; try discriminate.
  destruct (nt_timestamp (low_date h0) (high_date h0)) as [e|t] eqn:E;
    cbn [lift raise ret]; try discriminate.
  intros [= <- <-]. exists t. cbn. auto.
Qed.

(** C9. The microseconds past the epoch are the 64-bit tick count
    [high_date << 32 | low_date] divided by ten, in integers; the timestamp
    of [get_header] is [UTC_NT_EPOCH] plus that many microseconds.  Zero
    ticks give 1601-01-01 00:00:00 and ten million ticks give
    1601-01-01 00:00:01. *)
Theorem nt_timestamp_exact :
  (forall low high : Z,
      0 <= low < 2 ^ 32 ->
      us_past_nt_epoch low high = Z.lor (Z.shiftl high 32) low / 10)
  /\ (forall (f f' : RawSimradFile) (h : Header),
         get_header f = (Ok h, f') ->
         exists t, timestamp h = Some t
                   /\ nt_timestamp (low_date h) (high_date h) = inr t)
  /\ nt_timestamp 0 0 = inr (datetime.mk_datetime 1601 1 1 0 0 0 0)
  /\ us_past_nt_epoch 10000000 0 = 1000000
  /\ nt_timestamp 10000000 0 = inr (datetime.mk_datetime 1601 1 1 0 0 1 0).
Proof.
  split; [|split; [|split; [|split]]].
  - intros low high Hl. unfold us_past_nt_epoch. now rewrite lor_shiftl_32.
  - intros f f' h E. destruct (get_header_timestamp _ _ _ E) as (t & ? & ? & _).
    eauto.
  - reflexivity.
  - reflexivity.
  - reflexivity.
Qed.

(** ** Computations that need no fuel *)


Lemma fueled_ret {A} (a : A) : fueled (ret a).
Proof. intros f. cbn. discriminate. Qed.

Lemma fueled_raise {A} (e : Exn) : fueled (@raise A e).
Proof. intros f. cbn. discriminate. Qed.

Lemma fueled_lift {A} (r : Exn + A) : fueled (lift r).
Proof. destruct r; [apply fueled_raise | apply fueled_ret]. Qed.

Lemma fueled_bind {A B} (c : M A) (k : A -> M B) :
  fueled c -> (forall a, fueled (k a)) -> fueled (bind c k).
Proof.
  intros Hc Hk f. unfold bind. specialize (Hc f).
  destruct (c f) as [[a|e|] f1]; cbn in *; [apply Hk | discriminate | congruence].
Qed.

Lemma fueled_try_except {A} (c : M A) (h : Exn -> M A) :
  fueled c -> (forall e, fueled (h e)) -> fueled (try_except c h).
Proof.
  intros Hc Hh f. unfold try_except. specialize (Hc f).
  destruct (c f) as [[a|e|] f1]; cbn in *; [discriminate | apply Hh | congruence].
Qed.

Lemma fueled_seek (k : Z) (w : Whence) : fueled (_seek_bytes k w).
Proof. intros f. unfold _seek_bytes. destruct (_ <? 0); cbn; discriminate. Qed.

Lemma fueled_tell_bytes : fueled _tell_bytes.
Proof. intros f. cbn. discriminate. Qed.

Lemma fueled_tell : fueled tell.
Proof. intros f. cbn. discriminate. Qed.

Lemma fueled_read_bytes (k : Z) : fueled (_read_bytes k).
Proof. intros f. unfold _read_bytes. destruct (k <? -1); cbn; discriminate. Qed.

Ltac fueled_step :=
  first
    [ apply fueled_ret
    | apply fueled_raise
    | apply fueled_lift
    | apply fueled_seek
    | apply fueled_tell_bytes
    | apply fueled_tell
    | apply fueled_read_bytes
    | assumption
    | apply fueled_bind; [| intros ?]
    | apply fueled_try_except; [| intros ?]
    | match goal with
      | |- fueled (if ?b then _ else _) => destruct b
      | |- fueled (match ?x with _ => _ end) => destruct x
      | |- fueled (let '(_, _) := ?x in _) => destruct x
      end ].

Ltac fueled_tac := repeat fueled_step.

Lemma fueled_read_dgram_size : fueled _read_dgram_size.
Proof. unfold _read_dgram_size. fueled_tac. Qed.

Lemma fueled_at_eof : fueled at_eof.
Proof. unfold at_eof. fueled_tac. Qed.

Lemma fueled_read_timestamp : fueled _read_timestamp.
Proof. pose proof fueled_at_eof. unfold _read_timestamp. fueled_tac. Qed.

Lemma fueled_read_dgram_header : fueled _read_dgram_header.
Proof.
  pose proof fueled_at_eof. pose proof fueled_read_dgram_size.
  pose proof fueled_read_timestamp.
  unfold _read_dgram_header. fueled_tac.
Qed.

Lemma fueled_peek (rewind : bool) : fueled (peek rewind).
Proof. pose proof fueled_read_dgram_header. unfold peek. fueled_tac. Qed.

(** ** Monad laws, pointwise *)

Lemma bind_cong_on {A B} (c : M A) (k k' : A -> M B) (f : RawSimradFile) :
  (forall a f1, c f = (Ok a, f1) -> k a f1 = k' a f1) ->
  bind c k f = bind c k' f.
Proof. intros H. unfold bind. destruct (c f) as [[a|e|] f1]; auto. Qed.

Lemma bind_mono {A B} (c : M A) (k k' : A -> M B) (f f' : RawSimradFile)
      (o : Outcome B) :
  (forall a f1, k a f1 = (o, f') -> o <> OutOfFuel -> k' a f1 = (o, f')) ->
  bind c k f = (o, f') -> o <> OutOfFuel -> bind c k' f = (o, f').
Proof.
  intros H. unfold bind. destruct (c f) as [[a|e|] f1]; auto.
Qed.

Lemma bind_assoc {A B C} (c : M A) (k : A -> M B) (k' : B -> M C)
      (f : RawSimradFile) :
  bind (bind c k) k' f = bind c (fun a => bind (k a) k') f.
Proof. unfold bind. destruct (c f) as [[a|e|] f1]; reflexivity. Qed.

Lemma bind_cong {A B} (c : M A) (k k' : A -> M B) (f : RawSimradFile) :
  (forall a f', k a f' = k' a f') -> bind c k f = bind c k' f.
Proof. intros H. unfold bind. destruct (c f) as [[a|e|] f1]; auto. Qed.

(** ** Reading a datagram: one attempt, then delivery or resynchronisation *)


Section ReaderProperties.

Variable Datagram : Type.
Variable from_string : Parser -> list byte -> Z -> Exn + Datagram.
Variable readall : M (list (Dgram Datagram)).


Lemma _read_next_dgram_body_factor (self_call : M (Dgram Datagram))
      (header : option Header) (f : RawSimradFile) :
  _read_next_dgram_body from_string self_call header f
  = (a <- attempt header ;; after_attempt from_string self_call a) f.
Proof.
  unfold _read_next_dgram_body, attempt.
  rewrite bind_assoc. apply bind_cong. intros [h old] f1.
  destruct (size h <? 16); [reflexivity|].
  rewrite bind_assoc. apply bind_cong. intros buf f2.
  destruct (len (raw_bytes h ++ buf) <? size h); [reflexivity|].
  rewrite bind_assoc. apply bind_cong. intros z f3.
  destruct (negb (size h =? z)); reflexivity.
Qed.


(** *** The resynchroniser *)

Lemma first_match_bounds (l : list byte) :
  forall i, first_match l = Some i -> 0 <= i /\ i < len l.
Proof.
  induction l as [|b t IH]; intros i; cbn [first_match]; [discriminate|].
  rewrite len_cons. pose proof (len_nonneg t).
  destruct (match_here (b :: t)).
  - intros [= <-]. lia.
  - destruct (first_match t) as [j|]; [|discriminate].
    intros [= <-]. specialize (IH j eq_refl). lia.
Qed.

Lemma find_loop_ok (fuel : nat) :
  forall initial current f f',
    cursor f <= current ->
    find_loop fuel initial current f = (Ok tt, f') ->
    0 <= cursor f' /\ cursor f - 4 <= cursor f'.
Proof.
  induction fuel as [|n IH]; intros initial current f f' Hc;
    cbn [find_loop]; [discriminate|].
  unfold bind. rewrite _read_bytes_eq by (unfold search_buf_bytes; lia).
  set (buf := take search_buf_bytes (rest f)).
  destruct (len buf =? 0); [discriminate|].
  destruct (first_match buf) as [start|] eqn:Em.
  - apply first_match_bounds in Em. unfold _seek_bytes.
    destruct (Z.ltb_spec (current + start - 4) 0); [discriminate|].
    intros [= <-]. cbn [cursor set_cursor]. lia.
  - intros E. apply IH in E.
    + cbn [cursor set_cursor] in E. pose proof (len_nonneg buf).
      clearbody buf. lia.
    + cbn [cursor set_cursor]. unfold buf. rewrite len_take.
      pose proof (len_nonneg (rest f)). unfold search_buf_bytes. lia.
Qed.

Lemma _find_next_datagram_ok (f f' : RawSimradFile) :
  _find_next_datagram f = (Ok tt, f') ->
  f' = set_cursor f (cursor f') /\ 0 <= cursor f' /\ cursor f - 4 <= cursor f'.
Proof.
  intros E. split.
  - exact (proj1 (byte_level_find_next_datagram _ _ _ E)).
  - unfold _find_next_datagram, bind in E. cbn [_tell_bytes] in E.
    apply find_loop_ok in E; [assumption | lia].
Qed.

Lemma find_loop_fuel (fuel : nat) :
  forall initial current f,
    0 <= cursor f -> len (rest f) < Z.of_nat fuel ->
    fst (find_loop fuel initial current f) <> OutOfFuel.
Proof.
  induction fuel as [|n IH]; intros initial current f Hc Hm.
  - pose proof (len_nonneg (rest f)). lia.
  - cbn [find_loop]. unfold bind.
    rewrite _read_bytes_eq by (unfold search_buf_bytes; lia).
    set (buf := take search_buf_bytes (rest f)).
    destruct (Z.eqb_spec (len buf) 0) as [E0|E0]; [cbn; discriminate|].
    destruct (first_match buf) as [start|].
    + unfold _seek_bytes. destruct (_ <? 0); cbn; discriminate.
    + pose proof (len_nonneg buf). apply IH.
      * cbn [cursor set_cursor]. lia.
      * rewrite rest_advance by lia. rewrite len_drop.
        assert (len buf <= len (rest f))
          by (unfold buf; rewrite len_take;
              pose proof (len_nonneg (rest f)); lia).
        clearbody buf. lia.
Qed.

Lemma _find_next_datagram_fuel (f : RawSimradFile) :
  0 <= cursor f -> fst (_find_next_datagram f) <> OutOfFuel.
Proof.
  intros Hc. unfold _find_next_datagram, bind. cbn [_tell_bytes].
  apply find_loop_fuel; [assumption|].
  rewrite len_rest by assumption. unfold len. lia.
Qed.

(** *** One attempt *)

Lemma _read_dgram_header_room (f f1 : RawSimradFile) (h : Header) :
  _read_dgram_header f = (Ok h, f1) ->
  0 <= cursor f -> cursor f + 16 <= len (raw f).
Proof.
  unfold _read_dgram_header, bind, try_except. intros E Hc.
  destruct (_read_dgram_size f) as [[z|e|] f2] eqn:E1.
  - apply _read_dgram_size_inv in E1. destruct E1 as (-> & _ & _).
    rewrite _read_bytes_eq in E by lia.
    match type of E with context [negb (?a =? 4)] =>
      destruct (Z.eqb_spec a 4) as [E4|E4] end; cbn [negb] in E.
    + cbn [ret] in E. rewrite E4 in E.
      destruct (_read_timestamp _) as [[r|e|] f3] eqn:E3; try discriminate.
      apply _read_timestamp_inv in E3. destruct E3 as (_ & E8 & _).
      rewrite len_take, len_rest in E8 by (cbn [cursor set_cursor]; lia).
      cbn [cursor raw set_cursor] in E8. lia.
    + destruct (at_eof _) as [[[|]|e|] f3]; try discriminate.
      revert E. unfold _seek_bytes, _tell_bytes, tell, raise.
      split_ifs; discriminate.
  - destruct (at_eof f2) as [[[|]|e'|] f3]; discriminate.
  - discriminate.
Qed.

Lemma byte_level_attempt (header : option Header) : byte_level (attempt header).
Proof.
  pose proof byte_level_read_dgram_header.
  pose proof byte_level_read_dgram_size.
  unfold attempt. byte_level_tac.
Qed.

(** An attempt that started by reading a header, and ended with the
    decision to resynchronise, consumed at least the 16 bytes of that
    header. *)
Lemma attempt_resync_progress (f f1 : RawSimradFile) :
  attempt None f = (Ok Resync, f1) -> 0 <= cursor f ->
  cursor f + 16 <= cursor f1 /\ cursor f + 16 <= len (raw f).
Proof.
  unfold attempt. unfold bind at 1. unfold bind at 1. cbn [_tell_bytes].
  unfold bind at 1. unfold try_except.
  destruct (_read_dgram_header f) as [[h|e|] f2] eqn:E1; try discriminate.
  pose proof (_read_dgram_header_room _ _ _ E1) as Hroom.
  apply _read_dgram_header_inv in E1. destruct E1 as (-> & _).
  cbn [ret]. intros E Hc. split; [|auto].
  revert E. destruct (size h <? 16).
  - intros [= <-]. cbn [cursor set_cursor]. lia.
  - unfold bind at 1. destruct (Z.ltb_spec (size h - 12) (-1)).
    + unfold _read_bytes.
      destruct (Z.ltb_spec (size h - 12) (-1)); [discriminate | lia].
    + destruct (_read_bytes (size h - 12) _) as [[buf|e|] f3] eqn:E2;
        try discriminate.
      destruct (byte_level_read_bytes _ _ _ _ E2) as [_ P2].
      assert (Hf3 : cursor f + 16 <= cursor f3).
      { revert E2. unfold _read_bytes.
        destruct (size h - 12 <? -1); [discriminate|].
        intros [= _ <-]. cbn [cursor set_cursor].
        match goal with |- context [len ?l] => pose proof (len_nonneg l) end.
        lia. }
      destruct (len (raw_bytes h ++ buf) <? size h).
      * intros [= <-]. assumption.
      * unfold bind at 1.
        destruct (_read_dgram_size f3) as [[z|e|] f4] eqn:E3.
        -- apply _read_dgram_size_inv in E3. destruct E3 as (-> & _).
           destruct (negb (size h =? z)); intros [= <-].
           cbn [cursor set_cursor]. lia.
        -- destruct (is_DatagramReadError e); [|discriminate].
           unfold bind, raise. destruct (_seek_bytes _ _ f4) as [[[]|e'|] f5];
             discriminate.
        -- discriminate.
Qed.

(** *** Delivery *)


Lemma _convert_raw_datagram_eq (raw_dgram : list byte) (bytes_read : Z)
      (f : RawSimradFile) :
  _convert_raw_datagram from_string raw_dgram bytes_read f
  = lift (parse from_string raw_dgram bytes_read) f.
Proof.
  unfold _convert_raw_datagram, parse, try_except.
  destruct (dict_get (take 3 raw_dgram) DGRAM_TYPE_KEY) as [p|];
    [|reflexivity].
  destruct (from_string p raw_dgram bytes_read) as [[]|d]; reflexivity.
Qed.

Lemma deliver_eq (raw_dgram : list byte) (bytes_read : Z) (f : RawSimradFile) :
  deliver from_string raw_dgram bytes_read f
  = match delivered from_string (_return_raw f) raw_dgram bytes_read with
    | inl e => (Raise e, f)
    | inr d => (Ok d, set_dgram_offset f (_current_dgram_offset f + 1))
    end.
Proof.
  unfold deliver, delivered. destruct (_return_raw f); [reflexivity|].
  unfold bind at 1. rewrite _convert_raw_datagram_eq.
  destruct (parse from_string raw_dgram bytes_read); reflexivity.
Qed.

Lemma deliver_fuel (raw_dgram : list byte) (bytes_read : Z) (f : RawSimradFile) :
  fst (deliver from_string raw_dgram bytes_read f) <> OutOfFuel.
Proof.
  rewrite deliver_eq. destruct (delivered from_string _ _ _); cbn; discriminate.
Qed.

Lemma deliver_ok (raw_dgram : list byte) (bytes_read : Z)
      (f f' : RawSimradFile) (d : Dgram Datagram) :
  deliver from_string raw_dgram bytes_read f = (Ok d, f') ->
  f' = set_dgram_offset f (_current_dgram_offset f + 1)
  /\ delivered from_string (_return_raw f) raw_dgram bytes_read = inr d.
Proof.
  rewrite deliver_eq. destruct (delivered from_string _ _ _); intros [= <- <-]; auto.
Qed.

(** *** The recursion *)

Local Abbreviation rec := (_read_next_dgram_rec from_string).

Lemma rec_S (n : nat) (header : option Header) (f : RawSimradFile) :
  rec (S n) header f
  = (a <- attempt header ;; after_attempt from_string (rec n None) a) f.
Proof. cbn [_read_next_dgram_rec]. apply _read_next_dgram_body_factor. Qed.

(** C2, for [_read_next_dgram]: whatever the number of
    resynchronisations, a successful return has counted one datagram. *)
Lemma rec_ok_offset (n : nat) :
  forall header f f' d,
    rec n header f = (Ok d, f') ->
    _current_dgram_offset f' = _current_dgram_offset f + 1.
Proof.
  induction n as [|n IH]; intros header f f' d; [discriminate|].
  rewrite rec_S. unfold bind at 1.
  destruct (attempt header f) as [[a|e|] f1] eqn:E1; try discriminate.
  destruct (byte_level_offset _ _ _ _ (byte_level_attempt header) E1)
    as (O1 & _).
  destruct a as [|r b]; cbn [after_attempt].
  - unfold bind.
    destruct (_find_next_datagram f1) as [[[]|e|] f2] eqn:E2; try discriminate.
    destruct (byte_level_offset _ _ _ _ byte_level_find_next_datagram E2)
      as (O2 & _).
    intros E. apply IH in E. lia.
  - intros E. apply deliver_ok in E. destruct E as (-> & _).
    cbn [_current_dgram_offset set_dgram_offset]. lia.
Qed.

Lemma fueled_attempt (header : option Header) : fueled (attempt header).
Proof.
  pose proof fueled_read_dgram_header. pose proof fueled_read_dgram_size.
  unfold attempt. fueled_tac.
Qed.

Lemma rec_fuel_mono (n : nat) :
  forall header f o f',
    rec n header f = (o, f') -> o <> OutOfFuel ->
    rec (S n) header f = (o, f').
Proof.
  induction n as [|n IH]; intros header f o f'.
  - intros [= <- <-]. congruence.
  - rewrite (rec_S (S n)), rec_S. apply bind_mono.
    intros [|r b] f1; cbn [after_attempt]; [|auto].
    apply bind_mono. intros [] f2. apply IH.
Qed.

Lemma rec_fuel_enough (n : nat) :
  forall f,
    0 <= cursor f -> (1 <= n)%nat -> len (raw f) - cursor f < Z.of_nat n ->
    fst (rec n None f) <> OutOfFuel.
Proof.
  induction n as [|n IH]; intros f Hc Hn Hm; [lia|].
  rewrite rec_S. unfold bind at 1.
  pose proof (fueled_attempt None f) as Fa.
  destruct (attempt None f) as [[a|e|] f1] eqn:E1.
  - destruct a as [|r b]; cbn [after_attempt]; [|apply deliver_fuel].
    destruct (attempt_resync_progress _ _ E1 Hc) as [P1 P2].
    destruct (byte_level_attempt None _ _ _ E1) as [R1 _].
    unfold bind.
    destruct (_find_next_datagram f1) as [[[]|e|] f2] eqn:E2.
    + apply _find_next_datagram_ok in E2. destruct E2 as (R2 & P3 & P4).
      apply IH; [assumption | lia |].
      rewrite R2, R1. cbn [raw cursor set_cursor]. lia.
    + cbn. discriminate.
    + exfalso. apply (_find_next_datagram_fuel f1); [lia|].
      now rewrite E2.
  - cbn. discriminate.
  - exfalso. now apply Fa.
Qed.

Lemma _read_next_dgram_fuel (header : option Header) (f : RawSimradFile) :
  0 <= cursor f -> fst (_read_next_dgram from_string header f) <> OutOfFuel.
Proof.
  intros Hc. unfold _read_next_dgram. rewrite rec_S. unfold bind at 1.
  pose proof (fueled_attempt header f) as Fa.
  destruct (attempt header f) as [[a|e|] f1] eqn:E1;
    [| cbn; discriminate | exfalso; now apply Fa].
  destruct a as [|r b]; cbn [after_attempt]; [|apply deliver_fuel].
  destruct (byte_level_attempt header _ _ _ E1) as [R1 P1].
  unfold bind.
  destruct (_find_next_datagram f1) as [[[]|e|] f2] eqn:E2.
  - apply _find_next_datagram_ok in E2. destruct E2 as (R2 & P3 & P4).
    apply rec_fuel_enough; [assumption | lia |].
    rewrite R2, R1. cbn [raw cursor set_cursor]. unfold len. lia.
  - cbn. discriminate.
  - exfalso. apply (_find_next_datagram_fuel f1); [auto|]. now rewrite E2.
Qed.

(** The equation of the method, free of fuel: one attempt, then either
    the delivery of the frame or a resynchronisation followed by the
    method itself. *)
Lemma _read_next_dgram_eq (header : option Header) (f : RawSimradFile) :
  0 <= cursor f ->
  _read_next_dgram from_string header f
  = (a <- attempt header ;;
     after_attempt from_string (_read_next_dgram from_string None) a) f.
Proof.
  intros Hc. unfold _read_next_dgram at 1. rewrite rec_S.
  apply bind_cong_on. intros a f1 E1.
  destruct a as [|r b]; cbn [after_attempt]; [|reflexivity].
  destruct (byte_level_attempt header _ _ _ E1) as [R1 P1].
  apply bind_cong_on. intros [] f2 E2.
  apply _find_next_datagram_ok in E2. destruct E2 as (R2 & P3 & P4).
  assert (Hraw : raw f2 = raw f) by (rewrite R2, R1; reflexivity).
  unfold _read_next_dgram. rewrite Hraw.
  destruct (rec (S (length (raw f))) None f2) as [o f'] eqn:E.
  symmetry. apply rec_fuel_mono; [assumption|].
  intros ->. apply (rec_fuel_enough (S (length (raw f))) f2);
    [assumption | lia | | now rewrite E].
  rewrite Hraw. unfold len. lia.
Qed.

Lemma _read_next_dgram_ok_offset (header : option Header)
      (f f' : RawSimradFile) (d : Dgram Datagram) :
  _read_next_dgram from_string header f = (Ok d, f') ->
  _current_dgram_offset f' = _current_dgram_offset f + 1.
Proof. apply rec_ok_offset. Qed.

(** *** An attempt over a frame *)

Lemma bind_ok {A B} (c : M A) (k : A -> M B) (f f1 : RawSimradFile) (a : A) :
  c f = (Ok a, f1) -> bind c k f = k a f1.
Proof. intros E. unfold bind. now rewrite E. Qed.

Lemma bind_raise {A B} (c : M A) (k : A -> M B) (f f1 : RawSimradFile)
      (e : Exn) :
  c f = (Raise e, f1) -> bind c k f = (Raise e, f1).
Proof. intros E. unfold bind. now rewrite E. Qed.

Lemma try_except_ok {A} (c : M A) (h : Exn -> M A) (f f1 : RawSimradFile)
      (a : A) :
  c f = (Ok a, f1) -> try_except c h f = (Ok a, f1).
Proof. intros E. unfold try_except. now rewrite E. Qed.

Lemma try_except_raise {A} (c : M A) (h : Exn -> M A) (f f1 : RawSimradFile)
      (e : Exn) :
  c f = (Raise e, f1) -> try_except c h f = h e f1.
Proof. intros E. unfold try_except. now rewrite E. Qed.

Ltac drop_norm :=
  repeat (rewrite drop_app_ge by lia); rewrite drop_nonpos by lia.


Lemma attempt_none (f f1 : RawSimradFile) (h : Header) :
  _read_dgram_header f = (Ok h, f1) ->
  attempt None f = attempt_payload h (cursor f) f1.
Proof.
  intros E. unfold attempt.
  rewrite (bind_ok _ _ f f1 (h, cursor f)); [reflexivity|].
  unfold bind, try_except. cbn [_tell_bytes]. rewrite E. reflexivity.
Qed.

Lemma attempt_some (f : RawSimradFile) (h : Header) :
  attempt (Some h) f = attempt_payload h (cursor f - 16) f.
Proof. reflexivity. Qed.

Lemma attempt_payload_ext (h h' : Header) (old : Z) (f : RawSimradFile) :
  size h = size h' -> raw_bytes h = raw_bytes h' ->
  attempt_payload h old f = attempt_payload h' old f.
Proof. unfold attempt_payload. intros -> ->. reflexivity. Qed.

(** An attempt over a complete frame: it ends after the trailing size,
    with the frame when the two sizes agree and with the decision to
    resynchronise when they do not. *)
Lemma attempt_frame (f : RawSimradFile) (sz ty ts data tr more : list byte) :
  0 <= cursor f ->
  rest f = sz ++ ty ++ ts ++ data ++ tr ++ more ->
  len sz = 4 -> len ty = 4 -> len ts = 8 -> len tr = 4 ->
  16 <= unpack_l sz -> len data = unpack_l sz - 12 ->
  attempt None f
  = (Ok (if unpack_l sz =? unpack_l tr
         then Frame (ty ++ ts ++ data) (unpack_l sz + 20)
         else Resync),
     set_cursor f (cursor f + unpack_l sz + 8)).
Proof.
  intros Hc Hr Hsz Hty Hts Htr Hs Hd.
  rewrite (attempt_none f _ _ (_read_dgram_header_ok f sz ty ts _ Hc Hr Hsz Hty Hts)).
  unfold attempt_payload. cbn [size raw_bytes header_of].
  destruct (Z.ltb_spec (unpack_l sz) 16); [lia|].
  assert (Hr1 : rest (set_cursor f (cursor f + 16)) = data ++ tr ++ more).
  { rewrite rest_advance by lia. rewrite Hr. now drop_norm. }
  erewrite bind_ok;
    [| rewrite _read_bytes_eq by lia; rewrite Hr1;
       rewrite (take_app_len data _ _ Hd); reflexivity].
  rewrite set_cursor_twice, cursor_set_cursor.
  assert (Hl : len ((ty ++ ts) ++ data) = unpack_l sz)
    by (rewrite !len_app; lia).
  rewrite Hl. destruct (Z.ltb_spec (unpack_l sz) (unpack_l sz)); [lia|].
  erewrite bind_ok;
    [| apply try_except_ok; apply (_read_dgram_size_ok _ tr more); [|assumption];
       unfold rest; cbn [cursor raw set_cursor];
       fold (rest f); rewrite Hd;
       replace (cursor f + 16 + (unpack_l sz - 12)) with (cursor f + (unpack_l sz + 4)) by lia;
       rewrite drop_drop by lia; fold (rest f); rewrite Hr; now drop_norm].
  rewrite set_cursor_twice, cursor_set_cursor. rewrite Hd.
  replace (cursor f + 16 + (unpack_l sz - 12) + 4)
    with (cursor f + unpack_l sz + 8) by lia.
  rewrite <- app_assoc.
  destruct (unpack_l sz =? unpack_l tr); reflexivity.
Qed.

(** *** Where the resynchroniser lands *)

Lemma startswith_nil (l : list byte) : startswith l [] = true.
Proof. now destruct l. Qed.

Lemma startswith_take (p : list byte) :
  forall l k, len p <= k -> startswith (take k l) p = startswith l p.
Proof.
  induction p as [|c p IH]; intros l k Hk; [now rewrite !startswith_nil|].
  rewrite len_cons in Hk. pose proof (len_nonneg p).
  destruct l as [|b t]; [reflexivity|].
  rewrite take_cons by lia. cbn [startswith]. f_equal. apply IH. lia.
Qed.

Lemma match_here_take (l : list byte) (k : Z) :
  3 <= k -> match_here (take k l) = match_here l.
Proof.
  intros Hk. unfold match_here, re_pattern. cbn [existsb].
  now rewrite !startswith_take by (cbn; lia).
Qed.

Lemma match_here_len (l : list byte) : match_here l = true -> 3 <= len l.
Proof.
  destruct l as [|a [|b [|c t]]]; unfold match_here, re_pattern;
    cbn [existsb startswith]; rewrite ?andb_false_r; cbn [orb];
    try discriminate.
  intros _. rewrite !len_cons. pose proof (len_nonneg t). lia.
Qed.

Lemma match_here_app (a b : list byte) :
  3 <= len a -> match_here (a ++ b) = match_here a.
Proof.
  intros H. rewrite <- (match_here_take (a ++ b) (len a)) by assumption.
  now rewrite take_app_exact.
Qed.

Lemma first_match_room (l : list byte) :
  forall i, first_match l = Some i -> 0 <= i /\ i + 3 <= len l.
Proof.
  induction l as [|b t IH]; intros i; cbn [first_match]; [discriminate|].
  destruct (match_here (b :: t)) eqn:E.
  - intros [= <-]. apply match_here_len in E. lia.
  - destruct (first_match t) as [j|]; [|discriminate].
    intros [= <-]. specialize (IH j eq_refl). rewrite len_cons. lia.
Qed.

Lemma first_match_take (l : list byte) :
  forall i k, first_match l = Some i -> i + 3 <= k ->
              first_match (take k l) = Some i.
Proof.
  induction l as [|b t IH]; intros i k; cbn [first_match]; [discriminate|].
  destruct (match_here (b :: t)) eqn:E.
  - intros [= <-] Hk. rewrite take_cons by lia. cbn [first_match].
    rewrite <- (take_cons k) by lia. rewrite match_here_take by lia.
    now rewrite E.
  - destruct (first_match t) as [j|] eqn:Ej; [|discriminate].
    intros [= <-] Hk. destruct (first_match_room _ _ Ej) as [Hj _].
    rewrite take_cons by lia. cbn [first_match].
    rewrite <- (take_cons k) by lia. rewrite match_here_take by lia.
    rewrite E. now rewrite (IH j (k - 1)) by (auto; lia).
Qed.

Lemma first_match_app (a : list byte) :
  forall i b, first_match a = Some i -> first_match (a ++ b) = Some i.
Proof.
  induction a as [|x t IH]; intros i b; [discriminate|].
  cbn [app first_match]. change (x :: t ++ b) with ((x :: t) ++ b).
  destruct (match_here (x :: t)) eqn:E.
  - intros [= <-]. rewrite match_here_app by (now apply match_here_len).
    now rewrite E.
  - destruct (first_match t) as [j|] eqn:Ej; [|discriminate].
    intros [= <-]. destruct (first_match_room _ _ Ej) as [Hj Hl].
    rewrite match_here_app by (rewrite len_cons; lia).
    rewrite E. now rewrite (IH j b eq_refl).
Qed.

(** A tag found within the first chunk that is searched. *)
Lemma _find_next_datagram_at (f : RawSimradFile) (i : Z) :
  0 <= cursor f -> first_match (rest f) = Some i ->
  i + 3 <= search_buf_bytes -> 4 <= cursor f + i ->
  _find_next_datagram f = (Ok tt, set_cursor f (cursor f + i - 4)).
Proof.
  intros Hc Hm Hk Hi. destruct (first_match_room _ _ Hm) as [H0 H3].
  unfold _find_next_datagram, bind. cbn [_tell_bytes find_loop].
  unfold bind. rewrite _read_bytes_eq by (unfold search_buf_bytes; lia).
  rewrite (first_match_take _ i) by auto.
  match goal with |- context [len ?l =? 0] =>
    destruct (Z.eqb_spec (len l) 0) as [E|E] end.
  - exfalso. rewrite len_take in E. unfold search_buf_bytes in E. lia.
  - rewrite _seek_bytes_set by lia. now rewrite set_cursor_twice.
Qed.

(** *** Reading frames *)

Lemma read_1_ok (header : option Header) (f f' : RawSimradFile)
      (d : Dgram Datagram) :
  _read_next_dgram from_string header f = (Ok d, f') ->
  read from_string readall 1 header f = (Ok (One d), f').
Proof.
  intros E. unfold read. cbn [Z.eqb Pos.eqb]. unfold try_except, bind.
  now rewrite E.
Qed.

Lemma read_1_raise (header : option Header) (f f' : RawSimradFile) (e : Exn) :
  _read_next_dgram from_string header f = (Raise e, f') -> 0 <= cursor f' ->
  read from_string readall 1 header f
  = (Raise (if cursor f' =? len (raw f') then SimradEOF else e), f').
Proof.
  intros E Hc. unfold read. cbn [Z.eqb Pos.eqb]. unfold try_except.
  unfold bind at 1. rewrite E. unfold bind. rewrite at_eof_eq by assumption.
  destruct (cursor f' =? len (raw f')); reflexivity.
Qed.

Lemma _read_next_dgram_frame (f : RawSimradFile)
      (sz ty ts data tr more : list byte) :
  0 <= cursor f ->
  rest f = sz ++ ty ++ ts ++ data ++ tr ++ more ->
  len sz = 4 -> len ty = 4 -> len ts = 8 -> len tr = 4 ->
  16 <= unpack_l sz -> len data = unpack_l sz - 12 ->
  unpack_l tr = unpack_l sz ->
  _read_next_dgram from_string None f
  = deliver from_string (ty ++ ts ++ data) (unpack_l sz + 20)
      (set_cursor f (cursor f + unpack_l sz + 8)).
Proof.
  intros Hc Hr Hsz Hty Hts Htr Hs Hd He.
  rewrite _read_next_dgram_eq by assumption.
  rewrite (bind_ok _ _ _ _ _
             (attempt_frame f sz ty ts data tr more Hc Hr Hsz Hty Hts Htr Hs Hd)).
  rewrite He, Z.eqb_refl. reflexivity.
Qed.

Lemma attempt_eof (f : RawSimradFile) :
  cursor f = len (raw f) -> attempt None f = (Raise SimradEOF, f).
Proof.
  intros Hc. unfold attempt. apply bind_raise.
  unfold bind, try_except. cbn [_tell_bytes].
  now rewrite _read_dgram_header_eof.
Qed.

(** Reading at the end of the file raises [SimradEOF] and changes
    nothing. *)
Lemma read_at_eof (f : RawSimradFile) :
  cursor f = len (raw f) ->
  read from_string readall 1 None f = (Raise SimradEOF, f).
Proof.
  intros Hc. pose proof (len_nonneg (raw f)).
  assert (E : _read_next_dgram from_string None f = (Raise SimradEOF, f)).
  { rewrite _read_next_dgram_eq by lia. apply bind_raise.
    now apply attempt_eof. }
  rewrite (read_1_raise _ _ _ _ E) by lia.
  now rewrite Hc, Z.eqb_refl.
Qed.

(** C1, amended.  A stream made of one frame whose trailing size disagrees
    with its declared size, then one well-formed frame whose type tag is
    the first tag pattern found in it (no pattern starts in the four bytes
    of its size).  The first [read(1)] returns the record of the
    well-formed frame and counts one datagram; the second raises
    [SimradEOF]. *)
Theorem read_resyncs_past_corrupt_trailer :
  forall (szC tyC tsC dataC trC szG tagG tsG dataG trG : list byte)
         (return_raw : bool) (r : Dgram Datagram),
    len szC = 4 -> len tyC = 4 -> len tsC = 8 -> len trC = 4 ->
    16 <= unpack_l szC -> len dataC = unpack_l szC - 12 ->
    unpack_l trC <> unpack_l szC ->
    len szG = 4 -> len tagG = 4 -> len tsG = 8 -> len trG = 4 ->
    16 <= unpack_l szG -> len dataG = unpack_l szG - 12 ->
    unpack_l trG = unpack_l szG ->
    first_match (szG ++ tagG) = Some 4 ->
    delivered from_string return_raw (tagG ++ tsG ++ dataG) (unpack_l szG + 20) = inr r ->
    let stream := (szC ++ tyC ++ tsC ++ dataC ++ trC)
                  ++ (szG ++ tagG ++ tsG ++ dataG ++ trG) in
    let f0 := open_file stream return_raw in
    let f1 := set_dgram_offset (set_cursor f0 (len stream)) 1 in
    read from_string readall 1 None f0 = (Ok (One r), f1)
    /\ read from_string readall 1 None f1 = (Raise SimradEOF, f1).
Proof.
  intros szC tyC tsC dataC trC szG tagG tsG dataG trG return_raw r
         HszC HtyC HtsC HtrC HsC HdC HneC HszG HtagG HtsG HtrG HsG HdG HeG
         Hfirst Hdel stream f0 f1.
  set (G := szG ++ tagG ++ tsG ++ dataG ++ trG) in *.
  assert (Hc0 : cursor f0 = 0) by reflexivity.
  assert (Hr0 : rest f0 = szC ++ tyC ++ tsC ++ dataC ++ trC ++ G).
  { unfold rest. rewrite Hc0, drop_nonpos by lia. unfold f0, stream.
    cbn [raw open_file]. now rewrite <- !app_assoc. }
  split.
  - apply read_1_ok.
    rewrite _read_next_dgram_eq by lia.
    rewrite (bind_ok _ _ _ _ _
               (attempt_frame f0 szC tyC tsC dataC trC G
                  ltac:(lia) Hr0 HszC HtyC HtsC HtrC HsC HdC)).
    destruct (Z.eqb_spec (unpack_l szC) (unpack_l trC)) as [E|_];
      [congruence|].
    cbn [after_attempt].
    set (fa := set_cursor f0 (cursor f0 + unpack_l szC + 8)).
    assert (Hca : cursor fa = unpack_l szC + 8) by (cbn; lia).
    assert (Hra : rest fa = G).
    { unfold fa.
      replace (cursor f0 + unpack_l szC + 8)
        with (cursor f0 + (unpack_l szC + 8)) by lia.
      rewrite rest_advance by lia. rewrite Hr0. now drop_norm. }
    assert (Hfind : _find_next_datagram fa = (Ok tt, fa)).
    { rewrite (_find_next_datagram_at fa 4).
      - replace (cursor fa + 4 - 4) with (cursor fa) by lia.
        now rewrite set_cursor_id.
      - lia.
      - rewrite Hra. unfold G.
        rewrite (app_assoc szG tagG). now apply first_match_app.
      - unfold search_buf_bytes. lia.
      - lia. }
    rewrite (bind_ok _ _ _ _ _ Hfind).
    rewrite (_read_next_dgram_frame fa szG tagG tsG dataG trG [])
      by (try assumption; try lia; rewrite app_nil_r; exact Hra).
    rewrite deliver_eq. cbn [_return_raw set_cursor open_file fa f0].
    rewrite Hdel. f_equal. unfold f1, set_dgram_offset, set_cursor.
    cbn [raw cursor _current_dgram_offset _total_dgram_count _return_raw
         open_file fa f0 set_cursor].
    f_equal. unfold stream, G. rewrite !len_app. lia.
  - apply read_at_eof. reflexivity.
Qed.

(** C5. When the header and the data of a frame are read in full and
    fewer than four bytes are left for the trailing size, [read(1)] raises
    a [DatagramReadError] and leaves the file object as it found it: the
    cursor is back where the read began and the datagram index is not
    incremented. *)
Theorem read_short_trailer_rolls_back :
  forall (f : RawSimradFile) (sz ty ts data tail : list byte),
    0 <= cursor f ->
    rest f = sz ++ ty ++ ts ++ data ++ tail ->
    len sz = 4 -> len ty = 4 -> len ts = 8 ->
    16 <= unpack_l sz -> len data = unpack_l sz - 12 ->
    len tail < 4 ->
    read from_string readall 1 None f
    = (Raise (DatagramReadError
                "Short read while getting trailing raw file datagram size for check"
                4 (len tail) (cursor f + unpack_l sz + 4)
                (_current_dgram_offset f)), f).
Proof.
  intros f sz ty ts data tail Hc Hr Hsz Hty Hts Hs Hd Ht.
  set (e := DatagramReadError
              "Short read while getting trailing raw file datagram size for check"
              4 (len tail) (cursor f + unpack_l sz + 4)
              (_current_dgram_offset f)).
  assert (Ea : attempt None f = (Raise e, f)).
  { rewrite (attempt_none f _ _
               (_read_dgram_header_ok f sz ty ts _ Hc Hr Hsz Hty Hts)).
    unfold attempt_payload. cbn [size raw_bytes header_of].
    destruct (Z.ltb_spec (unpack_l sz) 16); [lia|].
    assert (Hr1 : rest (set_cursor f (cursor f + 16)) = data ++ tail).
    { rewrite rest_advance by lia. rewrite Hr. now drop_norm. }
    erewrite bind_ok;
      [| rewrite _read_bytes_eq by lia; rewrite Hr1;
         rewrite (take_app_len data _ _ Hd); reflexivity].
    rewrite set_cursor_twice, cursor_set_cursor.
    assert (Hl : len ((ty ++ ts) ++ data) = unpack_l sz)
      by (rewrite !len_app; lia).
    rewrite Hl. destruct (Z.ltb_spec (unpack_l sz) (unpack_l sz)); [lia|].
    set (fb := set_cursor f (cursor f + 16 + len data)).
    assert (Hrb : rest fb = tail).
    { unfold fb. replace (cursor f + 16 + len data)
        with (cursor f + (16 + len data)) by lia.
      rewrite rest_advance by lia. rewrite Hr. now drop_norm. }
    apply bind_raise.
    rewrite (try_except_raise _ _ _ _ _
               (_read_dgram_size_short fb ltac:(cbn; lia) ltac:(rewrite Hrb; lia))).
    cbn [is_DatagramReadError retitle].
    rewrite (bind_ok _ _ _ _ _ (_seek_bytes_set fb (cursor f) Hc)).
    unfold fb. rewrite set_cursor_twice, set_cursor_id.
    fold fb. rewrite Hrb. unfold raise, e.
    cbn [cursor _current_dgram_offset set_cursor fb].
    do 3 f_equal. lia. }
  assert (Er : _read_next_dgram from_string None f = (Raise e, f)).
  { rewrite _read_next_dgram_eq by assumption. now apply bind_raise. }
  rewrite (read_1_raise _ _ _ _ Er Hc).
  destruct (Z.eqb_spec (cursor f) (len (raw f))) as [E|_]; [|reflexivity].
  exfalso. pose proof (len_rest f Hc) as Hlr. rewrite Hr in Hlr.
  rewrite !len_app in Hlr. pose proof (len_nonneg data).
  pose proof (len_nonneg tail). lia.
Qed.

(** C3, as the code has it.  For a well-formed frame the parser is handed
    the twelve bytes of type and time followed by the data, and a
    [bytes_read] of the declared size plus 20: that is the length of the
    data plus 32, while the frame occupies the length of the data plus 20
    bytes on disk. *)
Lemma read_frame_bytes_read :
  forall (f : RawSimradFile) (sz ty ts data tr more : list byte)
         (d : Dgram Datagram),
    0 <= cursor f ->
    rest f = sz ++ ty ++ ts ++ data ++ tr ++ more ->
    len sz = 4 -> len ty = 4 -> len ts = 8 -> len tr = 4 ->
    16 <= unpack_l sz -> len data = unpack_l sz - 12 ->
    unpack_l tr = unpack_l sz ->
    delivered from_string (_return_raw f) (ty ++ ts ++ data) (len data + 32) = inr d ->
    let frame := sz ++ ty ++ ts ++ data ++ tr in
    len frame = len data + 20
    /\ read from_string readall 1 None f
       = (Ok (One d),
          set_dgram_offset (set_cursor f (cursor f + len frame))
            (_current_dgram_offset f + 1)).
Proof.
  intros f sz ty ts data tr more d Hc Hr Hsz Hty Hts Htr Hs Hd He Hdel frame.
  assert (Hf : len frame = len data + 20)
    by (unfold frame; rewrite !len_app; lia).
  split; [exact Hf|]. apply read_1_ok.
  rewrite (_read_next_dgram_frame f sz ty ts data tr more) by assumption.
  rewrite deliver_eq. cbn [_return_raw set_cursor].
  replace (unpack_l sz + 20) with (len data + 32) by lia. rewrite Hdel.
  do 3 f_equal. lia.
Qed.

(** *** Counting datagrams *)

Lemma skip_ok_offset (header : option Header) (f f' : RawSimradFile) :
  skip header f = (Ok tt, f') ->
  _current_dgram_offset f' = _current_dgram_offset f + 1.
Proof.
  pose proof byte_level_read_dgram_header as B1.
  pose proof byte_level_find_next_datagram as B2.
  pose proof byte_level_read_dgram_size as B3.
  unfold skip. unfold bind at 1.
  match goal with |- context [match ?c f with _ => _ end] =>
    assert (Bh : byte_level c) by (destruct header; byte_level_tac);
    destruct (c f) as [[h|e|] f1] eqn:E1 end; try discriminate.
  destruct (byte_level_offset _ _ _ _ Bh E1) as (O1 & _).
  unfold bind at 1.
  match goal with |- context [match ?c f1 with _ => _ end] =>
    assert (Bm : byte_level c) by byte_level_tac;
    destruct (c f1) as [[[]|e|] f2] eqn:E2 end; try discriminate.
  destruct (byte_level_offset _ _ _ _ Bm E2) as (O2 & _).
  intros [= <-]. cbn [_current_dgram_offset set_dgram_offset]. lia.
Qed.

Lemma read_1_ok_inv (header : option Header) (f f' : RawSimradFile)
      (x : ReadResult Datagram) :
  read from_string readall 1 header f = (Ok x, f') ->
  exists d, x = One d /\ _read_next_dgram from_string header f = (Ok d, f').
Proof.
  unfold read. cbn [Z.eqb Pos.eqb]. unfold try_except. unfold bind at 1.
  destruct (_read_next_dgram from_string header f) as [[d|e|] f1];
    cbn [ret].
  - intros [= <- <-]. eauto.
  - unfold bind. destruct (at_eof f1) as [[[|]|e'|] f2]; discriminate.
  - discriminate.
Qed.


(** C2. A call of [read(1)] or of [skip] that returns has incremented the
    datagram index by exactly one, however many resynchronisations it went
    through; after [n] such calls the index has grown by [n], so from
    index 0 it is [n]. *)
Theorem forward_index :
  (forall header f f' x,
      read from_string readall 1 header f = (Ok x, f') ->
      _current_dgram_offset f' = _current_dgram_offset f + 1)
  /\ (forall header f f',
         skip header f = (Ok tt, f') ->
         _current_dgram_offset f' = _current_dgram_offset f + 1)
  /\ (forall n f f',
         forward_steps from_string readall n f f' ->
         _current_dgram_offset f' = _current_dgram_offset f + Z.of_nat n)
  /\ (forall n f f',
         _current_dgram_offset f = 0 -> forward_steps from_string readall n f f' ->
         _current_dgram_offset f' = Z.of_nat n).
Proof.
  assert (R : forall header f f' x,
             read from_string readall 1 header f = (Ok x, f') ->
             _current_dgram_offset f' = _current_dgram_offset f + 1).
  { intros header f f' x E. apply read_1_ok_inv in E.
    destruct E as (d & _ & E). exact (_read_next_dgram_ok_offset _ _ _ _ E). }
  assert (S : forall n f f',
             forward_steps from_string readall n f f' ->
             _current_dgram_offset f' = _current_dgram_offset f + Z.of_nat n).
  { intros n f f' H. induction H as [f | n f f1 f2 h x E _ IH | n f f1 f2 h E _ IH].
    - cbn. lia.
    - apply R in E. lia.
    - apply skip_ok_offset in E. lia. }
  split; [exact R|]. split; [exact skip_ok_offset|]. split; [exact S|].
  intros n f f' H0 H. rewrite (S _ _ _ H). lia.
Qed.

(** *** Reading several datagrams *)

Lemma rec_cursor_nonneg (n : nat) :
  forall header f o f',
    rec n header f = (o, f') -> 0 <= cursor f -> 0 <= cursor f'.
Proof.
  induction n as [|n IH]; intros header f o f'.
  - intros [= <- <-]. auto.
  - rewrite rec_S. unfold bind at 1.
    destruct (attempt header f) as [[a|e|] f1] eqn:E1.
    + destruct (byte_level_attempt header _ _ _ E1) as [_ P1].
      destruct a as [|r b]; cbn [after_attempt].
      * unfold bind.
        destruct (_find_next_datagram f1) as [[[]|e|] f2] eqn:E2.
        -- destruct (byte_level_find_next_datagram _ _ _ E2) as [_ P2].
           intros E Hc. apply IH in E; auto.
        -- destruct (byte_level_find_next_datagram _ _ _ E2) as [_ P2].
           intros [= <- <-]. auto.
        -- destruct (byte_level_find_next_datagram _ _ _ E2) as [_ P2].
           intros [= <- <-]. auto.
      * rewrite deliver_eq. destruct (delivered from_string _ _ _); intros [= <- <-]; auto.
    + destruct (byte_level_attempt header _ _ _ E1) as [_ P1].
      intros [= <- <-]. auto.
    + destruct (byte_level_attempt header _ _ _ E1) as [_ P1].
      intros [= <- <-]. auto.
Qed.


Lemma read_loop_spec (n : nat) :
  forall acc f,
    0 <= cursor f ->
    exists l fm f',
      read_loop from_string n acc f = (Ok (acc ++ l), f')
      /\ (length l <= n)%nat
      /\ reads from_string f l fm
      /\ ((length l < n)%nat ->
          exists e, _read_next_dgram from_string None fm = (Raise e, f'))
      /\ (length l = n -> f' = fm).
Proof.
  induction n as [|n IH]; intros acc f Hc.
  - exists [], f, f. cbn [read_loop ret length]. rewrite app_nil_r.
    repeat split; [lia | constructor | lia].
  - cbn [read_loop].
    pose proof (_read_next_dgram_fuel None f Hc) as Hfuel.
    destruct (_read_next_dgram from_string None f) as [[d|e|] f1] eqn:E.
    + assert (Hc1 : 0 <= cursor f1)
        by (exact (rec_cursor_nonneg _ _ _ _ _ E Hc)).
      destruct (IH (acc ++ [d]) f1 Hc1) as (l & fm & f' & E' & Hl & Hr & Hs & He).
      exists (d :: l), fm, f'. rewrite <- app_assoc in E'. cbn [app] in E'.
      cbn [length]. repeat split.
      * exact E'.
      * lia.
      * econstructor; eassumption.
      * intros H. apply Hs. lia.
      * intros H. apply He. lia.
    + exists [], f, f1. rewrite app_nil_r. cbn [length].
      repeat split; [lia | constructor | eauto | lia].
    + exfalso. now apply Hfuel.
Qed.

(** C10. For [k > 1], [read(k)] always returns a list and never raises:
    the list holds at most [k] datagrams, the ones returned by the
    successive calls of [_read_next_dgram()] up to the first that raised,
    whose exception is dropped. *)
Theorem read_many_never_raises :
  forall (k : Z) (header : option Header) (f : RawSimradFile),
    1 < k -> 0 <= cursor f ->
    exists l fm f',
      read from_string readall k header f = (Ok (Many l), f')
      /\ Z.of_nat (length l) <= k
      /\ reads from_string f l fm
      /\ (Z.of_nat (length l) < k ->
          exists e, _read_next_dgram from_string None fm = (Raise e, f'))
      /\ (Z.of_nat (length l) = k -> f' = fm).
Proof.
  intros k header f Hk Hc.
  destruct (read_loop_spec (Z.to_nat k) [] f Hc)
    as (l & fm & f' & E & Hl & Hr & Hs & He).
  exists l, fm, f'. unfold read.
  destruct (Z.eqb_spec k 1); [lia|]. destruct (Z.ltb_spec 0 k); [|lia].
  unfold bind. rewrite E. cbn [app ret].
  repeat split; [lia | assumption | intros; apply Hs; lia
                 | intros; apply He; lia].
Qed.

(** *** Peeking without rewinding, then reading *)

Lemma peek_consume_inv (f f1 : RawSimradFile) (h : Header) :
  peek false f = (Ok h, f1) ->
  exists h0,
    _read_dgram_header f = (Ok h0, f1)
    /\ f1 = set_cursor f (cursor f + 16)
    /\ size h = size h0 /\ raw_bytes h = raw_bytes h0 /\ type h = type h0
    /\ (startswith (type h0) RAW0 = true ->
        channel h = Some (unpack_h (take 2 (rest f1)))).
Proof.
  unfold peek, bind.
  destruct (_read_dgram_header f) as [[h0|e|] f2] eqn:E1; try discriminate.
  destruct (_read_dgram_header_inv _ _ _ E1) as (-> & _).
  destruct (startswith (type h0) RAW0) eqn:ER0.
  - rewrite _read_bytes_eq by lia. cbn [cursor set_cursor].
    match goal with |- context [len ?l =? 2] =>
      destruct (Z.eqb_spec (len l) 2) as [E|E]; [rewrite E|] end;
      [|discriminate].
    cbn [ret raise]. rewrite set_cursor_twice.
    destruct (_seek_bytes (-2) SEEK_CUR _) as [[[]|e|] f3] eqn:E2;
      try discriminate.
    apply (seek_cur_back f (cursor f + 16) 2) in E2; [|reflexivity].
    intros [= <- <-]. rewrite E2. exists h0.
    split; [reflexivity|]. split; [reflexivity|].
    cbn [size raw_bytes type channel set_channel]. repeat split.
  - destruct (startswith (type h0) RAW3 || startswith (type h0) RAW4).
    + rewrite _read_bytes_eq by lia. cbn [cursor set_cursor].
      match goal with |- context [len ?l =? 128] =>
        destruct (Z.eqb_spec (len l) 128) as [E|E]; [rewrite E|] end;
        [|discriminate].
      cbn [ret raise]. rewrite set_cursor_twice.
      destruct (_seek_bytes (-128) SEEK_CUR _) as [[[]|e|] f3] eqn:E2;
        try discriminate.
      apply (seek_cur_back f (cursor f + 16) 128) in E2; [|reflexivity].
      intros [= <- <-]. rewrite E2. exists h0.
      split; [reflexivity|]. split; [reflexivity|].
      cbn [size raw_bytes type set_channel_id]. repeat split.
      intros H; congruence.
    + cbn [ret]. intros [= <- <-]. exists h0.
      split; [reflexivity|]. split; [reflexivity|]. repeat split.
      intros H; congruence.
Qed.

(** C8, amended.  [peek(rewind=False)] leaves the cursor 16 bytes after
    the start of the datagram: right after the header and at the first
    byte of the payload, the channel bytes it looked at included, which
    are still to be read.  From there [_read_next_dgram] and [read(1)],
    given the header, do what they would have done from the start of the
    datagram without it. *)
Theorem peek_consume_then_read :
  forall (f f1 : RawSimradFile) (h : Header),
    0 <= cursor f ->
    peek false f = (Ok h, f1) ->
    f1 = set_cursor f (cursor f + 16)
    /\ (startswith (type h) RAW0 = true ->
        channel h = Some (unpack_h (take 2 (rest f1))))
    /\ _read_next_dgram from_string (Some h) f1
       = _read_next_dgram from_string None f
    /\ read from_string readall 1 (Some h) f1
       = read from_string readall 1 None f.
Proof.
  intros f f1 h Hc E.
  destruct (peek_consume_inv _ _ _ E) as (h0 & E0 & Ef & Hs & Hr & Ht & Hch).
  assert (Hread : _read_next_dgram from_string (Some h) f1
                  = _read_next_dgram from_string None f).
  { rewrite (_read_next_dgram_eq None f) by assumption.
    rewrite (_read_next_dgram_eq (Some h) f1)
      by (rewrite Ef; cbn [cursor set_cursor]; lia).
    unfold bind. rewrite attempt_some, (attempt_none f f1 h0 E0).
    rewrite (attempt_payload_ext h h0 _ _ Hs Hr).
    replace (cursor f1 - 16) with (cursor f)
      by (rewrite Ef; cbn [cursor set_cursor]; lia).
    reflexivity. }
  split; [exact Ef|]. split; [rewrite Ht; exact Hch|].
  split; [exact Hread|].
  unfold read. cbn [Z.eqb Pos.eqb]. unfold try_except, bind.
  now rewrite Hread.
Qed.

(** *** Skipping *)

Lemma skip_none (f f1 : RawSimradFile) (h : Header) :
  _read_dgram_header f = (Ok h, f1) ->
  skip None f
  = (((if size h <? 16 then _find_next_datagram
       else
         _seek_bytes (size h - 12) SEEK_CUR ;;
         dgram_size_check <- _read_dgram_size ;;
         if negb (size h =? dgram_size_check) then _find_next_datagram
         else ret tt) ;;
      incr_dgram_offset) f1).
Proof. intros E. unfold skip. now rewrite (bind_ok _ _ _ _ _ E). Qed.

(** C4, amended.  [skip] reads the header of the datagram at the cursor.
    With a declared size below 16 it resynchronises from the end of that
    header; otherwise it seeks past the data and reads the trailing size,
    and resynchronises from there when the two sizes differ.
    Resynchronising puts the cursor four bytes before the first tag found,
    which is the start of the datagram carrying that tag, and [skip] does
    not skip again: in each case it returns with the datagram index
    incremented once. *)
Theorem skip_resyncs_without_retry :
  forall (f : RawSimradFile) (sz ty ts more : list byte),
    0 <= cursor f ->
    rest f = sz ++ ty ++ ts ++ more ->
    len sz = 4 -> len ty = 4 -> len ts = 8 ->
    let s := unpack_l sz in
    let p := cursor f in
    let i := _current_dgram_offset f in
    (s < 16 ->
     forall j, first_match more = Some j -> j + 3 <= search_buf_bytes ->
       skip None f
       = (Ok tt, set_dgram_offset (set_cursor f (p + 16 + j - 4)) (i + 1)))
    /\ (16 <= s ->
        forall data tr more',
          more = data ++ tr ++ more' -> len data = s - 12 -> len tr = 4 ->
          (unpack_l tr = s ->
           skip None f
           = (Ok tt, set_dgram_offset (set_cursor f (p + s + 8)) (i + 1)))
          /\ (unpack_l tr <> s ->
              forall j, first_match more' = Some j ->
                        j + 3 <= search_buf_bytes ->
                skip None f
                = (Ok tt, set_dgram_offset
                            (set_cursor f (p + s + 8 + j - 4)) (i + 1)))).
Proof.
  intros f sz ty ts more Hc Hr Hsz Hty Hts s p i.
  pose proof (_read_dgram_header_ok f sz ty ts more Hc Hr Hsz Hty Hts) as Eh.
  assert (Hr1 : rest (set_cursor f (cursor f + 16)) = more).
  { rewrite rest_advance by lia. rewrite Hr. now drop_norm. }
  split.
  - intros Hs j Hj Hk. destruct (first_match_room _ _ Hj) as [Hj0 _].
    rewrite (skip_none _ _ _ Eh). cbn [size header_of]. fold s.
    destruct (Z.ltb_spec s 16); [|lia].
    erewrite bind_ok;
      [| apply (_find_next_datagram_at _ j);
         [cbn; lia | now rewrite Hr1 | assumption | cbn; lia]].
    rewrite set_cursor_twice, cursor_set_cursor. reflexivity.
  - intros Hs data tr more' Hm Hd Htr.
    rewrite (skip_none _ _ _ Eh). cbn [size header_of]. fold s.
    destruct (Z.ltb_spec s 16); [lia|].
    rewrite bind_assoc.
    rewrite (bind_ok _ _ _ _ _
               (_seek_bytes_cur (set_cursor f (cursor f + 16)) (s - 12)
                  ltac:(cbn [cursor set_cursor]; lia))).
    rewrite set_cursor_twice, cursor_set_cursor.
    set (fb := set_cursor f (cursor f + 16 + (s - 12))).
    assert (Hcb : cursor fb = p + s + 4) by (cbn; unfold p; lia).
    assert (Hrb : rest fb = tr ++ more').
    { unfold fb. replace (cursor f + 16 + (s - 12))
        with (cursor f + (s + 4)) by lia.
      rewrite rest_advance by lia. rewrite Hr, Hm. now drop_norm. }
    rewrite bind_assoc.
    rewrite (bind_ok _ _ _ _ _ (_read_dgram_size_ok fb tr more' Hrb Htr)).
    set (fc := set_cursor fb (cursor fb + 4)).
    assert (Hrc : rest fc = more').
    { unfold fc. rewrite rest_advance by lia. rewrite Hrb. now drop_norm. }
    split.
    + intros He. rewrite He, Z.eqb_refl. cbn [negb]. unfold bind, ret.
      unfold incr_dgram_offset, fc, fb, set_dgram_offset, set_cursor.
      cbn [raw cursor _current_dgram_offset _total_dgram_count _return_raw].
      do 2 f_equal. unfold p. lia.
    + intros Hne j Hj Hk. destruct (first_match_room _ _ Hj) as [Hj0 _].
      destruct (Z.eqb_spec s (unpack_l tr)) as [E|_]; [congruence|].
      cbn [negb].
      erewrite bind_ok;
        [| apply (_find_next_datagram_at _ j);
           [cbn; lia | now rewrite Hrc | assumption | cbn; lia]].
      unfold incr_dgram_offset, fc, fb, set_dgram_offset, set_cursor.
      cbn [raw cursor _current_dgram_offset _total_dgram_count _return_raw].
      do 2 f_equal. unfold p. lia.
Qed.


(** *** A size field that reads as a tag *)

Lemma attempt_small (f : RawSimradFile) (sz ty ts more : list byte) :
  0 <= cursor f ->
  rest f = sz ++ ty ++ ts ++ more -> len sz = 4 -> len ty = 4 -> len ts = 8 ->
  unpack_l sz < 16 ->
  attempt None f = (Ok Resync, set_cursor f (cursor f + 16)).
Proof.
  intros Hc Hr Hsz Hty Hts Hs.
  rewrite (attempt_none f _ _ (_read_dgram_header_ok f sz ty ts _ Hc Hr Hsz Hty Hts)).
  unfold attempt_payload. cbn [size header_of].
  destruct (Z.ltb_spec (unpack_l sz) 16); [reflexivity | lia].
Qed.

(** The file ends inside the timestamp of a header. *)
Lemma _read_dgram_header_eof_in_timestamp (f : RawSimradFile)
      (sz ty tail : list byte) :
  0 <= cursor f ->
  rest f = sz ++ ty ++ tail -> len sz = 4 -> len ty = 4 -> len tail < 8 ->
  _read_dgram_header f = (Raise SimradEOF, set_cursor f (len (raw f))).
Proof.
  intros Hc Hr Hsz Hty Ht.
  unfold _read_dgram_header.
  rewrite (bind_ok _ _ _ _ _
             (try_except_ok _ _ _ _ _ (_read_dgram_size_ok f sz _ Hr Hsz))).
  pose proof (rest_step f sz _ 4 Hc Hr Hsz) as Hr1.
  set (f1 := set_cursor f (cursor f + 4)) in *.
  assert (E1 : _read_bytes 4 f1 = (Ok ty, set_cursor f (cursor f + 8))).
  { rewrite _read_bytes_eq by lia. rewrite Hr1, (take_app_len ty _ 4 Hty), Hty.
    unfold f1. rewrite set_cursor_twice, cursor_set_cursor.
    do 2 f_equal. lia. }
  rewrite (bind_ok _ _ _ _ _ E1). rewrite Hty. cbn [Z.eqb Pos.eqb negb].
  unfold bind at 1. cbn [ret]. apply bind_raise.
  set (f2 := set_cursor f (cursor f + 8)).
  assert (Hr2 : rest f2 = tail).
  { unfold f2. rewrite rest_advance by lia. rewrite Hr. now drop_norm. }
  pose proof (len_rest f Hc) as Hl. rewrite Hr, !len_app in Hl.
  pose proof (len_nonneg tail).
  rewrite (_read_timestamp_eof f2)
    by (cbn [cursor raw set_cursor f2]; rewrite ?Hr2; lia).
  unfold f2. now rewrite set_cursor_twice.
Qed.

Lemma first_match_zeros (n : nat) (l : list byte) :
  first_match (repeat x00 n ++ l)
  = option_map (Z.add (Z.of_nat n)) (first_match l).
Proof.
  induction n as [|n IH].
  - cbn [repeat app]. destruct (first_match l); reflexivity.
  - cbn [repeat app first_match].
    assert (E : match_here (x00 :: repeat x00 n ++ l) = false) by reflexivity.
    rewrite E, IH. destruct (first_match l) as [j|]; cbn [option_map];
      [f_equal; lia | reflexivity].
Qed.

Lemma attempt_header_raise (f f1 : RawSimradFile) (e : Exn) :
  _read_dgram_header f = (Raise e, f1) ->
  attempt None f
  = (Raise (retitle "Short read while getting raw file datagram header" e), f1).
Proof.
  intros E. unfold attempt. apply bind_raise.
  unfold bind, try_except. cbn [_tell_bytes]. now rewrite E.
Qed.

(** A frame whose size field holds the bytes [N M E \0] is found four
    bytes too early by the resynchroniser, which reads the tag pattern in
    the size: after a frame with a bad trailing size, [read(1)] then runs
    to the end of the file and raises [SimradEOF] without returning the
    frame. *)
Lemma size_field_alias (m : nat) (return_raw : bool) :
  Z.of_nat m + 100 <= search_buf_bytes ->
  let f0 := open_file (corrupt_frame0 ++ alias_frame m) return_raw in
  read from_string readall 1 None f0
  = (Raise SimradEOF, set_cursor f0 (len (raw f0))).
Proof.
  intros Hm f0.
  set (fe := set_cursor f0 (len (raw f0))).
  pose proof (len_nonneg (raw f0)) as Hlen.
  (* the bytes ahead of the cursor at the positions the reader visits *)
  assert (R0 : rest f0 = size16 ++ CON0 ++ zero_time ++ zero4 ++ zero4
                         ++ alias_frame m).
  { unfold rest. cbn [cursor raw open_file f0]. rewrite drop_nonpos by lia.
    unfold corrupt_frame0. now rewrite <- !app_assoc. }
  set (fa := set_cursor f0 24).
  assert (Ra : rest fa = alias_frame m).
  { unfold rest. cbn [cursor raw set_cursor open_file fa f0].
    now apply drop_app_len. }
  set (fb := set_cursor f0 20).
  assert (Rb : rest fb = zero4 ++ alias_size ++ (NME0 ++ zero4)
                         ++ zero4 ++ alias_data m ++ alias_size).
  { unfold rest. cbn [cursor raw set_cursor open_file fb f0].
    change corrupt_frame0
      with ((size16 ++ CON0 ++ zero_time ++ zero4) ++ zero4).
    rewrite <- (app_assoc _ zero4). now apply drop_app_len. }
  set (fc := set_cursor f0 36).
  assert (Rc : rest fc = zero4 ++ alias_data m ++ alias_size).
  { change fc with (set_cursor fb (cursor fb + 16)).
    apply (rest_step fb (zero4 ++ alias_size ++ NME0 ++ zero4));
      [cbn; lia | | reflexivity].
    rewrite Rb. now rewrite <- !app_assoc. }
  set (fd := set_cursor f0 (Z.of_nat m + 40)).
  assert (Rd : rest fd = zero4 ++ alias_size ++ []).
  { replace fd with (set_cursor fc (cursor fc + (4 + Z.of_nat m)))
      by (unfold fd, fc; rewrite set_cursor_twice, cursor_set_cursor;
          f_equal; lia).
    apply (rest_step fc (zero4 ++ repeat x00 m)); [cbn; lia | |].
    - rewrite Rc. unfold alias_data. now rewrite <- !app_assoc.
    - rewrite len_app, len_repeat. reflexivity. }
  assert (Hraw : len (raw f0) = Z.of_nat m + 48).
  { cbn [raw open_file f0]. unfold alias_frame, alias_data.
    rewrite !len_app, len_repeat. change (len corrupt_frame0) with 24.
    change (len alias_size) with 4. change (len NME0) with 4.
    change (len zero_time) with 8. change (len zero4) with 4. lia. }
  (* the third pass: the file ends inside the header *)
  assert (E5 : _read_next_dgram from_string None fd = (Raise SimradEOF, fe)).
  { rewrite _read_next_dgram_eq by (cbn; lia). apply bind_raise.
    rewrite (attempt_header_raise fd fe SimradEOF); [reflexivity|].
    rewrite (_read_dgram_header_eof_in_timestamp fd zero4 alias_size [])
      by (try reflexivity; try exact Rd; cbn; lia).
    reflexivity. }
  (* the second pass: a header read four bytes too early, of size 0 *)
  assert (E3 : _read_next_dgram from_string None fb = (Raise SimradEOF, fe)).
  { rewrite _read_next_dgram_eq by (cbn; lia).
    rewrite (bind_ok _ _ _ _ _
               (attempt_small fb zero4 alias_size (NME0 ++ zero4) _
                  ltac:(cbn; lia) Rb eq_refl eq_refl eq_refl
                  ltac:(change (unpack_l zero4) with 0; lia))).
    cbn [after_attempt]. change (set_cursor fb (cursor fb + 16)) with fc.
    assert (Ef : _find_next_datagram fc = (Ok tt, fd)).
    { rewrite (_find_next_datagram_at fc (4 + (Z.of_nat m + (4 + 0)))).
      - unfold fc, fd. rewrite set_cursor_twice, cursor_set_cursor.
        do 2 f_equal. lia.
      - cbn; lia.
      - rewrite Rc. unfold alias_data.
        change zero4 with (repeat x00 4).
        rewrite <- !app_assoc, !first_match_zeros. reflexivity.
      - lia.
      - cbn [cursor set_cursor fc]. lia. }
    rewrite (bind_ok _ _ _ _ _ Ef). exact E5. }
  (* the first pass: the corrupted frame, then the resynchronisation *)
  assert (E1 : _read_next_dgram from_string None f0 = (Raise SimradEOF, fe)).
  { rewrite _read_next_dgram_eq by (cbn; lia).
    rewrite (bind_ok _ _ _ _ _
               (attempt_frame f0 size16 CON0 zero_time zero4 zero4 _
                  ltac:(cbn; lia) R0 eq_refl eq_refl eq_refl eq_refl
                  ltac:(change (unpack_l size16) with 16; lia) eq_refl)).
    change (unpack_l size16 =? unpack_l zero4) with false.
    cbn [after_attempt].
    change (set_cursor f0 (cursor f0 + unpack_l size16 + 8)) with fa.
    assert (Ef : _find_next_datagram fa = (Ok tt, fb)).
    { rewrite (_find_next_datagram_at fa 0).
      - reflexivity.
      - cbn; lia.
      - rewrite Ra. unfold alias_frame. now apply first_match_app.
      - unfold search_buf_bytes. lia.
      - cbn; lia. }
    rewrite (bind_ok _ _ _ _ _ Ef). exact E3. }
  rewrite (read_1_raise _ _ _ _ E1) by (cbn [cursor set_cursor fe]; lia).
  cbn [cursor raw set_cursor fe]. now rewrite Z.eqb_refl.
Qed.

End ReaderProperties.

(** ** The theorems at work on the example streams *)

Local Abbreviation read1 := (read recording_parser no_readall 1 None).

Lemma len_alias_data :
  len (alias_data (Z.to_nat 4541758)) = unpack_l alias_size - 12.
Proof.
  unfold alias_data. rewrite len_app, len_repeat, Z2Nat.id by lia.
  reflexivity.
Qed.

(** C1, as stated, fails.  [alias_stream] is a frame whose trailing size (0)
    disagrees with its declared size (16), followed by a well-formed NME0
    frame of 4541774 bytes: its size field holds the bytes [N M E \0], its
    data is all zeros.  The first [read(1)] on it returns no record: it
    raises [SimradEOF], with the cursor at the end of the file. *)
Lemma read_misses_frame_with_tag_in_size :
  len (alias_data (Z.to_nat 4541758)) = unpack_l alias_size - 12
  /\ match_here NME0 = true
  /\ alias_stream
     = (size16 ++ CON0 ++ zero_time ++ zero4 ++ zero4)
       ++ (alias_size ++ NME0 ++ zero_time
           ++ alias_data (Z.to_nat 4541758) ++ alias_size)
  /\ unpack_l zero4 <> unpack_l size16
  /\ read1 (open_file alias_stream false)
     = (Raise SimradEOF,
        set_cursor (open_file alias_stream false) (len alias_stream)).
Proof.
  split; [exact len_alias_data|]. split; [reflexivity|].
  split; [reflexivity|]. split; [discriminate|].
  apply (size_field_alias ParserCall recording_parser no_readall
           (Z.to_nat 4541758) false).
  rewrite Z2Nat.id by lia. unfold search_buf_bytes. lia.
Qed.


(** C1: the corrupted CON0 frame is dropped, the NME0 frame behind it is
    returned, and the next read is at the end of the file. *)
Lemma read_resyncs_past_corrupt_trailer_witness :
  let f0 := open_file (corrupt_frame ++ nme0_frame) false in
  let f1 := set_dgram_offset (set_cursor f0 48) 1 in
  first_match (size16 ++ NME0) = Some 4
  /\ read1 f0 = (Ok (One nme0_record), f1)
  /\ read1 f1 = (Raise SimradEOF, f1).
Proof.
  split; [reflexivity|].
  apply (read_resyncs_past_corrupt_trailer ParserCall recording_parser no_readall
           size16 CON0 zero_time zero4 size17
           size16 NME0 one_second gps_data size16 false nme0_record);
    try reflexivity; vm_compute; discriminate.
Defined.

(** C2: a read that went through one resynchronisation, then a skip. *)
Lemma forward_index_witness :
  let f0 := open_file (corrupt_frame ++ nme0_frame ++ nme0_frame) false in
  let f1 := set_dgram_offset (set_cursor f0 48) 1 in
  let f2 := set_dgram_offset (set_cursor f0 72) 2 in
  read1 f0 = (Ok (One nme0_record), f1)
  /\ skip None f1 = (Ok tt, f2)
  /\ _current_dgram_offset f1 = _current_dgram_offset f0 + 1
  /\ _current_dgram_offset f2 = _current_dgram_offset f1 + 1.
Proof.
  intros f0 f1 f2.
  assert (E1 : read1 f0 = (Ok (One nme0_record), f1)) by (vm_compute; reflexivity).
  assert (E2 : skip None f1 = (Ok tt, f2)) by (vm_compute; reflexivity).
  split; [exact E1|]. split; [exact E2|]. split.
  - exact (proj1 (forward_index ParserCall recording_parser no_readall)
             None f0 f1 _ E1).
  - exact (proj1 (proj2 (forward_index ParserCall recording_parser no_readall))
             None f1 f2 E2).
Defined.

(** C3, at a frame of 24 bytes with 4 bytes of data: the record is given a
    [bytes_read] of 36. *)
Lemma read_nme0_frame_bytes_read :
  let f0 := open_file nme0_frame false in
  len nme0_frame = 24
  /\ len gps_data = 4
  /\ read1 f0
     = (Ok (One (NiceDgram
                   (mkCall SimradNMEAParser (NME0 ++ one_second ++ gps_data) 36))),
        set_dgram_offset (set_cursor f0 24) 1).
Proof. repeat split. Qed.

(** C4: after the corrupted frame [skip] stops at byte 24, the start of
    the NME0 frame. *)
Lemma skip_resyncs_without_retry_witness :
  let f0 := open_file (corrupt_frame ++ nme0_frame) false in
  skip None f0 = (Ok tt, set_dgram_offset (set_cursor f0 24) 1).
Proof.
  intros f0.
  refine (proj2 (proj2 (skip_resyncs_without_retry f0 size16 CON0 zero_time
                          (zero4 ++ size17 ++ nme0_frame)
                          _ eq_refl eq_refl eq_refl eq_refl) _
                   zero4 size17 nme0_frame eq_refl eq_refl eq_refl)
            _ 4 eq_refl _).
  - vm_compute; discriminate.
  - vm_compute; discriminate.
  - vm_compute; discriminate.
  - vm_compute; discriminate.
Defined.

(** C4, as stated, fails: where the specification has [skip] resynchronise
    and skip again, which would pass the NME0 frame and stop at byte 48, the
    method stops at byte 24. *)
Lemma skip_does_not_retry :
  let f0 := open_file (corrupt_frame ++ nme0_frame) false in
  skip None f0 = (Ok tt, set_dgram_offset (set_cursor f0 24) 1)
  /\ skip_with_retry 3 None f0 = (Ok tt, set_dgram_offset (set_cursor f0 48) 1)
  /\ skip None f0 <> skip_with_retry 3 None f0.
Proof.
  intros f0. split; [reflexivity|]. split; [reflexivity|].
  vm_compute. discriminate.
Qed.

(** C5: the NME0 frame cut two bytes into its trailing size. *)
Lemma read_short_trailer_rolls_back_witness :
  let f0 := open_file truncated_frame false in
  read1 f0
  = (Raise (DatagramReadError
              "Short read while getting trailing raw file datagram size for check"
              4 2 20 0), f0).
Proof.
  intros f0.
  apply (read_short_trailer_rolls_back ParserCall recording_parser no_readall
           f0 size16 NME0 one_second zero4 [x10; x00]);
    try reflexivity; vm_compute; discriminate.
Defined.

(** C6: from the end of two NME0 frames, back to the start of the second;
    and a file whose last four bytes say 8, where the four bytes sixteen
    bytes earlier do not. *)
Lemma skip_back_step_witness :
  let f := mkFile (nme0_frame ++ nme0_frame) 48 2 None false in
  let g := mkFile (size16 ++ NME0 ++ one_second ++ gps_data ++ [x08; x00; x00; x00])
                  24 1 None false in
  skip_back f = (Ok tt, set_dgram_offset (set_cursor f 24) 1)
  /\ skip_back g = (Raise TypeError, g).
Proof.
  intros f g. split.
  - refine (proj1 (skip_back_step f size16 [] size16
                     (NME0 ++ one_second ++ gps_data ++ size16)
                     _ eq_refl eq_refl _ eq_refl eq_refl) eq_refl);
      vm_compute; discriminate.
  - refine (proj2 (skip_back_step g [x08; x00; x00; x00] []
                     [x80; x96; x98; x00]
                     ([x00; x00; x00; x00] ++ gps_data ++ [x08; x00; x00; x00])
                     _ eq_refl eq_refl _ eq_refl eq_refl) _);
      vm_compute; discriminate.
Defined.

(** C7: three peeks at a RAW0 datagram. *)
Lemma peek_rewind_idempotent_witness :
  let f0 := open_file raw0_frame false in
  peek true f0 = (Ok raw0_header, f0)
  /\ peek_many 3 f0 = (Ok [raw0_header; raw0_header; raw0_header], f0).
Proof.
  intros f0.
  assert (E : peek true f0 = (Ok raw0_header, f0)) by reflexivity.
  split; [exact E|].
  exact (proj2 (proj1 peek_rewind_idempotent f0 f0 raw0_header E) 3%nat).
Defined.

(** C8: after [peek(rewind=False)] on a RAW0 datagram the cursor is at byte
    16, the channel bytes are the next two, and the read that is given the
    header returns what a read from byte 0 returns. *)
Lemma peek_consume_then_read_witness :
  let f0 := open_file raw0_frame false in
  let f1 := set_cursor f0 16 in
  peek false f0 = (Ok raw0_header, f1)
  /\ channel raw0_header = Some (unpack_h (take 2 (rest f1)))
  /\ read recording_parser no_readall 1 (Some raw0_header) f1 = read1 f0.
Proof.
  intros f0 f1.
  assert (E : peek false f0 = (Ok raw0_header, f1)) by reflexivity.
  destruct (peek_consume_then_read ParserCall recording_parser no_readall
              f0 f1 raw0_header ltac:(vm_compute; discriminate) E)
    as (_ & Hch & _ & Hread).
  split; [exact E|]. split; [exact (Hch eq_refl) | exact Hread].
Defined.

(** C8, as stated, fails: the cursor is not past the two channel bytes that
    were looked at, it is before them. *)
Lemma peek_consume_stops_before_lookahead :
  let f0 := open_file raw0_frame false in
  exists h f1,
    peek false f0 = (Ok h, f1)
    /\ lookahead_len (type h) = 2
    /\ cursor f1 = cursor f0 + 16
    /\ cursor f1 <> cursor f0 + 16 + lookahead_len (type h).
Proof.
  intros f0. exists raw0_header, (set_cursor f0 16).
  repeat split. vm_compute. discriminate.
Qed.

(** C9: a tick count with both halves in use. *)
Lemma nt_timestamp_exact_witness :
  0 <= 5 < 2 ^ 32
  /\ us_past_nt_epoch 5 1 = Z.lor (Z.shiftl 1 32) 5 / 10.
Proof.
  assert (H : 0 <= 5 < 2 ^ 32) by lia.
  split; [exact H|]. exact (proj1 nt_timestamp_exact 5 1 H).
Defined.

(** C10: [read(3)] over a frame, a corrupted frame and a frame. *)
Lemma read_many_never_raises_witness :
  let f := open_file (nme0_frame ++ corrupt_frame ++ nme0_frame) false in
  exists l fm f',
    read recording_parser no_readall 3 None f = (Ok (Many l), f')
    /\ Z.of_nat (length l) <= 3
    /\ reads recording_parser f l fm
    /\ (Z.of_nat (length l) < 3 ->
        exists e, _read_next_dgram recording_parser None fm = (Raise e, f'))
    /\ (Z.of_nat (length l) = 3 -> f' = fm).
Proof.
  intros f.
  apply (read_many_never_raises ParserCall recording_parser no_readall 3 None f);
    vm_compute; [reflexivity | discriminate].
Defined.

(** ** Well-formed frames *)

Lemma is_frame_split (fr : list byte) :
  is_frame fr = true ->
  exists sz ty ts data tr,
    fr = sz ++ ty ++ ts ++ data ++ tr
    /\ len sz = 4 /\ len ty = 4 /\ len ts = 8 /\ len tr = 4
    /\ 16 <= unpack_l sz /\ len data = unpack_l sz - 12
    /\ unpack_l tr = unpack_l sz
    /\ frame_body fr = ty ++ ts ++ data
    /\ len fr = unpack_l sz + 8.
Proof.
  unfold is_frame, frame_body. cbv zeta.
  set (s := unpack_l (take 4 fr)).
  rewrite !andb_true_iff, Z.leb_le, !Z.eqb_eq. intros [[Hs Hl] Ht].
  set (r1 := drop 4 fr). set (r2 := drop 4 r1). set (r3 := drop 8 r2).
  assert (L1 : len r1 = s + 4) by (unfold r1; rewrite len_drop; lia).
  assert (L2 : len r2 = s) by (unfold r2; rewrite len_drop; lia).
  assert (L3 : len r3 = s - 8) by (unfold r3; rewrite len_drop; lia).
  assert (E : fr = take 4 fr ++ take 4 r1 ++ take 8 r2
                   ++ take (s - 12) r3 ++ drop (s - 12) r3).
  { now rewrite !take_drop. }
  assert (E3 : drop (s + 4) fr = drop (s - 12) r3).
  { unfold r3, r2, r1. rewrite <- !drop_drop by lia. f_equal. lia. }
  exists (take 4 fr), (take 4 r1), (take 8 r2), (take (s - 12) r3),
         (drop (s - 12) r3).
  split; [exact E|].
  rewrite !len_take, len_drop. fold s.
  repeat (split; [lia|]).
  split; [now rewrite <- E3|].
  split; [|exact Hl].
  fold r1.
  assert (E1 : r1 = (take 4 r1 ++ take 8 r2 ++ take (s - 12) r3)
                    ++ drop (s - 12) r3).
  { rewrite <- !app_assoc. now rewrite !take_drop. }
  rewrite E1 at 1. apply take_app_len.
  rewrite !len_app, !len_take. lia.
Qed.

Ltac drop_apps :=
  repeat (rewrite drop_app_ge by (rewrite ?len_app; lia));
  rewrite drop_nonpos by (rewrite ?len_app; lia).

Lemma skip_frame (f : RawSimradFile) (fr more : list byte) :
  0 <= cursor f -> rest f = fr ++ more -> is_frame fr = true ->
  skip None f
  = (Ok tt, positioned f (cursor f + len fr) (_current_dgram_offset f + 1)).
Proof.
  intros Hc Hr Hf.
  destruct (is_frame_split fr Hf)
    as (sz & ty & ts & data & tr & -> & Hsz & Hty & Hts & Htr & Hs & Hd & He
        & _ & Hl).
  rewrite <- !app_assoc in Hr.
  pose proof (_read_dgram_header_ok f sz ty ts _ Hc Hr Hsz Hty Hts) as Eh.
  set (s := unpack_l sz) in *.
  rewrite (skip_none _ _ _ Eh). cbn [size header_of]. fold s.
  destruct (Z.ltb_spec s 16); [lia|].
  rewrite bind_assoc.
  rewrite (bind_ok _ _ _ _ _
             (_seek_bytes_cur (set_cursor f (cursor f + 16)) (s - 12)
                ltac:(cbn [cursor set_cursor]; lia))).
  rewrite set_cursor_twice, cursor_set_cursor.
  set (fb := set_cursor f (cursor f + 16 + (s - 12))).
  assert (Hrb : rest fb = tr ++ more).
  { unfold fb. replace (cursor f + 16 + (s - 12))
      with (cursor f + (s + 4)) by lia.
    rewrite rest_advance by lia. rewrite Hr. now drop_apps. }
  rewrite bind_assoc.
  rewrite (bind_ok _ _ _ _ _ (_read_dgram_size_ok fb tr more Hrb Htr)).
  rewrite He. fold s. rewrite Z.eqb_refl. cbn [negb]. unfold bind, ret.
  unfold incr_dgram_offset, positioned, fb, set_dgram_offset, set_cursor.
  cbn [raw cursor _current_dgram_offset _total_dgram_count _return_raw].
  do 2 f_equal. lia.
Qed.

Lemma skip_back_eq (f : RawSimradFile) (trailing more1 leading more2 : list byte) :
  4 <= cursor f ->
  drop (cursor f - 4) (raw f) = trailing ++ more1 -> len trailing = 4 ->
  0 <= cursor f - 8 - unpack_l trailing ->
  drop (cursor f - 8 - unpack_l trailing) (raw f) = leading ++ more2 ->
  len leading = 4 ->
  skip_back f
  = (if negb (unpack_l trailing =? unpack_l leading)
     then (Raise TypeError, f)
     else (Ok tt, positioned f (cursor f - 8 - unpack_l trailing)
                    (_current_dgram_offset f - 1))).
Proof.
  intros Hp Htr Hlt Hs Hld Hll.
  set (p := cursor f) in *. set (t := unpack_l trailing) in *.
  set (start := p - 8 - t) in *.
  unfold skip_back, bind, try_except. cbn [_tell_bytes].
  rewrite _seek_bytes_cur by (fold p; lia).
  rewrite (_read_dgram_size_ok _ trailing more1)
    by (try assumption; unfold rest; cbn [cursor raw set_cursor];
        fold p; replace (p + -4) with (p - 4) by lia; assumption).
  rewrite set_cursor_twice, cursor_set_cursor. fold t.
  rewrite _seek_bytes_cur by (cbn [cursor set_cursor]; fold p; lia).
  rewrite set_cursor_twice, cursor_set_cursor. fold p.
  replace (p + -4 + 4 + - (8 + t)) with start by (unfold start; lia).
  rewrite (_read_dgram_size_ok _ leading more2)
    by (try assumption; unfold rest; cbn [cursor raw set_cursor]; assumption).
  rewrite set_cursor_twice, cursor_set_cursor.
  destruct (negb (t =? unpack_l leading)).
  - rewrite _seek_bytes_set by (unfold p in Hp; lia).
    rewrite set_cursor_twice. unfold p. rewrite set_cursor_id. reflexivity.
  - rewrite _seek_bytes_cur by (cbn [cursor set_cursor]; lia).
    rewrite set_cursor_twice, cursor_set_cursor.
    replace (start + 4 + -4) with start by lia. reflexivity.
Qed.

Lemma skip_back_frame (f : RawSimradFile) (pre fr more : list byte) :
  raw f = pre ++ fr ++ more -> cursor f = len pre + len fr ->
  is_frame fr = true ->
  skip_back f
  = (Ok tt, positioned f (len pre) (_current_dgram_offset f - 1)).
Proof.
  intros Hr Hc Hf.
  destruct (is_frame_split fr Hf)
    as (sz & ty & ts & data & tr & -> & Hsz & Hty & Hts & Htr & Hs & Hd & He
        & _ & Hl).
  pose proof (len_nonneg pre) as Hpre.
  rewrite !len_app in Hl, Hc.
  assert (E := skip_back_eq f tr more sz (ty ++ ts ++ data ++ tr ++ more)).
  rewrite He in E.
  replace (cursor f - 8 - unpack_l sz) with (len pre) in E by lia.
  rewrite Z.eqb_refl in E. cbn [negb] in E. apply E; try assumption; try lia.
  - rewrite Hr. rewrite <- !app_assoc.
    repeat (rewrite drop_app_ge by (rewrite ?len_app; lia)).
    apply drop_nonpos. rewrite ?len_app; lia.
  - rewrite Hr. rewrite <- !app_assoc.
    rewrite drop_app_ge by lia. apply drop_nonpos. lia.
Qed.

(** ** Headers near the end of the file *)

Lemma rest_split (f : RawSimradFile) (k : Z) :
  rest f = take k (rest f) ++ drop k (rest f).
Proof. now rewrite take_drop. Qed.

Lemma split_header (l : list byte) :
  l = take 4 l ++ take 4 (drop 4 l) ++ take 8 (drop 8 l) ++ drop 16 l.
Proof.
  replace (drop 16 l) with (drop 8 (drop 8 l))
    by (rewrite <- drop_drop by lia; reflexivity).
  rewrite take_drop.
  replace (drop 8 l) with (drop 4 (drop 4 l))
    by (rewrite <- drop_drop by lia; reflexivity).
  now rewrite !take_drop.
Qed.

Lemma split_size_type (l : list byte) :
  l = take 4 l ++ take 4 (drop 4 l) ++ drop 8 l.
Proof.
  replace (drop 8 l) with (drop 4 (drop 4 l))
    by (rewrite <- drop_drop by lia; reflexivity).
  now rewrite !take_drop.
Qed.

Lemma _read_dgram_size_cases (f : RawSimradFile) :
  0 <= cursor f ->
  (4 <= len (rest f)
   /\ _read_dgram_size f
      = (Ok (unpack_l (take 4 (rest f))), set_cursor f (cursor f + 4)))
  \/ (len (rest f) < 4
      /\ _read_dgram_size f
         = (Raise (DatagramReadError "Short read while getting dgram size" 4
                     (len (rest f)) (cursor f) (_current_dgram_offset f)), f)).
Proof.
  intros Hc. destruct (Z.le_gt_cases 4 (len (rest f))) as [H|H].
  - left. split; [exact H|].
    apply (_read_dgram_size_ok f _ (drop 4 (rest f))).
    + apply rest_split.
    + rewrite len_take. lia.
  - right. split; [lia|]. apply _read_dgram_size_short; lia.
Qed.

Lemma _read_dgram_header_short_size (f : RawSimradFile) :
  0 <= cursor f -> len (rest f) < 4 -> cursor f <> len (raw f) ->
  _read_dgram_header f
  = (Raise (DatagramReadError "Short read while getting dgram size" 4
              (len (rest f)) (cursor f) (_current_dgram_offset f)), f).
Proof.
  intros Hc Hr Hne. unfold _read_dgram_header.
  apply bind_raise.
  rewrite (try_except_raise _ _ _ _ _ (_read_dgram_size_short f Hc Hr)).
  unfold bind. rewrite at_eof_eq by assumption.
  destruct (Z.eqb_spec (cursor f) (len (raw f))); [contradiction | reflexivity].
Qed.

Lemma _read_dgram_header_eof_in_type (f : RawSimradFile) (sz tail : list byte) :
  0 <= cursor f ->
  rest f = sz ++ tail -> len sz = 4 -> len tail < 4 ->
  _read_dgram_header f = (Raise SimradEOF, set_cursor f (len (raw f))).
Proof.
  intros Hc Hr Hsz Ht.
  unfold _read_dgram_header.
  rewrite (bind_ok _ _ _ _ _
             (try_except_ok _ _ _ _ _ (_read_dgram_size_ok f sz _ Hr Hsz))).
  pose proof (rest_step f sz _ 4 Hc Hr Hsz) as Hr1.
  set (f1 := set_cursor f (cursor f + 4)) in *.
  pose proof (len_rest f Hc) as Hl. rewrite Hr, !len_app in Hl.
  pose proof (len_nonneg tail) as Ht0.
  assert (E1 : _read_bytes 4 f1 = (Ok tail, set_cursor f (len (raw f)))).
  { rewrite _read_bytes_eq by lia. rewrite Hr1, take_all by lia.
    unfold f1. rewrite set_cursor_twice, cursor_set_cursor.
    do 2 f_equal. lia. }
  rewrite (bind_ok _ _ _ _ _ E1).
  destruct (Z.eqb_spec (len tail) 4); [lia|]. cbn [negb].
  apply bind_raise. unfold bind.
  rewrite at_eof_eq by (cbn [cursor set_cursor]; pose proof (len_nonneg (raw f)); lia).
  cbn [cursor raw set_cursor]. now rewrite Z.eqb_refl.
Qed.

(** What [_read_dgram_header] does, by the number of bytes between the
    cursor and the end of the file. *)
Lemma _read_dgram_header_cases (f : RawSimradFile) :
  0 <= cursor f ->
  let r := len (rest f) in
  (16 <= r ->
   _read_dgram_header f
   = (Ok (header_of (take 4 (rest f)) (take 4 (drop 4 (rest f)))
                    (take 8 (drop 8 (rest f)))),
      set_cursor f (cursor f + 16)))
  /\ (4 <= r < 16 ->
      _read_dgram_header f = (Raise SimradEOF, set_cursor f (len (raw f))))
  /\ (r < 4 -> cursor f <> len (raw f) ->
      _read_dgram_header f
      = (Raise (DatagramReadError "Short read while getting dgram size" 4
                  r (cursor f) (_current_dgram_offset f)), f))
  /\ (cursor f = len (raw f) ->
      _read_dgram_header f = (Raise SimradEOF, f)).
Proof.
  intros Hc r. repeat split.
  - intros Hr.
    apply (_read_dgram_header_ok f _ _ _ (drop 16 (rest f))); trivial.
    + apply split_header.
    + rewrite len_take. fold r. lia.
    + rewrite len_take, len_drop. fold r. lia.
    + rewrite len_take, len_drop. fold r. lia.
  - intros Hr. destruct (Z.le_gt_cases 8 r) as [H8|H8].
    + apply (_read_dgram_header_eof_in_timestamp f (take 4 (rest f))
               (take 4 (drop 4 (rest f))) (drop 8 (rest f))); trivial.
      * apply split_size_type.
      * rewrite len_take. fold r. lia.
      * rewrite len_take, len_drop. fold r. lia.
      * rewrite len_drop. fold r. lia.
    + apply (_read_dgram_header_eof_in_type f (take 4 (rest f))
               (drop 4 (rest f))); trivial.
      * apply rest_split.
      * rewrite len_take. fold r. lia.
      * rewrite len_drop. fold r. lia.
  - intros Hr Hne. now apply _read_dgram_header_short_size.
  - apply _read_dgram_header_eof.
Qed.

Lemma _read_dgram_header_raise (f f' : RawSimradFile) (e : Exn) :
  0 <= cursor f -> _read_dgram_header f = (Raise e, f') ->
  (e = SimradEOF \/ is_DatagramReadError e = true)
  /\ f' = set_cursor f (cursor f') /\ 0 <= cursor f'.
Proof.
  intros Hc E.
  destruct (byte_level_read_dgram_header _ _ _ E) as [Hf Hp].
  split; [|split; [exact Hf | auto]].
  destruct (_read_dgram_header_cases f Hc) as (H1 & H2 & H3 & H4).
  destruct (Z.eq_dec (cursor f) (len (raw f))) as [He|Hne].
  - rewrite (H4 He) in E. injection E as <- _. now left.
  - destruct (Z.le_gt_cases 16 (len (rest f))).
    + rewrite H1 in E by assumption. discriminate.
    + destruct (Z.le_gt_cases 4 (len (rest f))).
      * rewrite H2 in E by lia. injection E as <- _. now left.
      * rewrite H3 in E by (assumption || lia). injection E as <- _. now right.
Qed.

(** ** What [skip] can do *)

Lemma find_loop_raise (fuel : nat) :
  forall initial current f e f',
    4 <= current ->
    find_loop fuel initial current f = (Raise e, f') -> e = SimradEOF.
Proof.
  induction fuel as [|n IH]; intros initial current f e f' Hc;
    cbn [find_loop]; [discriminate|].
  unfold bind. rewrite _read_bytes_eq by (unfold search_buf_bytes; lia).
  destruct (len _ =? 0); [intros [= <- _]; reflexivity|].
  destruct (first_match _) as [start|] eqn:Em.
  - destruct (first_match_bounds _ _ Em) as [H0 _].
    unfold _seek_bytes.
    destruct (Z.ltb_spec (current + start - 4) 0); [lia | discriminate].
  - apply IH. unfold search_buf_bytes. lia.
Qed.

Lemma _find_next_datagram_raise (f f' : RawSimradFile) (e : Exn) :
  4 <= cursor f -> _find_next_datagram f = (Raise e, f') -> e = SimradEOF.
Proof.
  unfold _find_next_datagram, bind. cbn [_tell_bytes]. intros Hc.
  now apply find_loop_raise.
Qed.

Lemma incr_positioned (f g : RawSimradFile) :
  g = set_cursor f (cursor g) ->
  set_dgram_offset g (_current_dgram_offset g + 1)
  = positioned f (cursor g) (_current_dgram_offset f + 1).
Proof.
  intros H. rewrite H. unfold positioned, set_dgram_offset, set_cursor.
  cbn [raw cursor _current_dgram_offset _total_dgram_count _return_raw].
  reflexivity.
Qed.

(** [skip()] from a cursor inside the file: it returns at least twelve
    bytes further on, having read a whole header, or it raises [SimradEOF]
    or a [DatagramReadError]; the index moves with a return only. *)
Lemma skip_outcome (f f' : RawSimradFile) (o : Outcome unit) :
  0 <= cursor f -> skip None f = (o, f') ->
  match o with
  | Ok _ =>
      f' = positioned f (cursor f') (_current_dgram_offset f + 1)
      /\ cursor f + 12 <= cursor f' /\ cursor f + 16 <= len (raw f)
  | Raise e =>
      (e = SimradEOF \/ is_DatagramReadError e = true)
      /\ f' = set_cursor f (cursor f') /\ 0 <= cursor f'
  | OutOfFuel => False
  end.
Proof.
  intros Hc.
  destruct (_read_dgram_header f) as [[h|e|] f1] eqn:Eh.
  - destruct (_read_dgram_header_inv _ _ _ Eh) as (Hf1 & _).
    pose proof (_read_dgram_header_room _ _ _ Eh Hc) as Hroom.
    rewrite (skip_none _ _ _ Eh).
    assert (Hfind : forall g g' o',
               g = set_cursor f (cursor g) -> cursor f + 16 <= cursor g ->
               (_find_next_datagram ;; incr_dgram_offset) g = (o', g') ->
               match o' with
               | Ok _ =>
                   g' = positioned f (cursor g') (_current_dgram_offset f + 1)
                   /\ cursor f + 12 <= cursor g'
                   /\ cursor f + 16 <= len (raw f)
               | Raise e =>
                   (e = SimradEOF \/ is_DatagramReadError e = true)
                   /\ g' = set_cursor f (cursor g') /\ 0 <= cursor g'
               | OutOfFuel => False
               end).
    { intros g g' o' Hg Hcg. unfold bind.
      destruct (_find_next_datagram g) as [[[]|e|] g1] eqn:Ef.
      - destruct (_find_next_datagram_ok _ _ Ef) as (Hg1 & H0 & H4).
        unfold incr_dgram_offset. intros [= <- <-].
        cbn [cursor set_dgram_offset]. split; [|lia].
        apply incr_positioned. rewrite Hg1, Hg. now rewrite set_cursor_twice.
      - intros [= <- <-].
        destruct (byte_level_find_next_datagram _ _ _ Ef) as [Hg1 Hp].
        split; [left; apply (_find_next_datagram_raise g g1); [lia | exact Ef]|].
        split; [|apply Hp; lia].
        rewrite Hg1, Hg. unfold set_cursor. reflexivity.
      - pose proof (_find_next_datagram_fuel g ltac:(lia)) as Hn.
        rewrite Ef in Hn. now contradiction Hn. }
    destruct (size h <? 16) eqn:Es.
    + apply Hfind; rewrite Hf1; cbn [cursor set_cursor];
        [reflexivity | lia].
    + apply Z.ltb_ge in Es.
      rewrite bind_assoc.
      rewrite (bind_ok _ _ _ _ _
                 (_seek_bytes_cur f1 (size h - 12)
                    ltac:(rewrite Hf1; cbn [cursor set_cursor]; lia))).
      set (fb := set_cursor f1 (cursor f1 + (size h - 12))).
      assert (Hfb : fb = set_cursor f (cursor fb)).
      { unfold fb. rewrite Hf1. now rewrite !set_cursor_twice. }
      assert (Hcb : cursor fb = cursor f + size h + 4).
      { unfold fb. rewrite Hf1. cbn [cursor set_cursor]. lia. }
      rewrite bind_assoc.
      destruct (_read_dgram_size_cases fb ltac:(lia)) as [[Hl E]|[Hl E]].
      * rewrite (bind_ok _ _ _ _ _ E).
        set (fc := set_cursor fb (cursor fb + 4)).
        assert (Hfc : fc = set_cursor f (cursor fc)).
        { unfold fc. rewrite Hfb. now rewrite !set_cursor_twice. }
        destruct (negb (size h =? _)).
        -- apply Hfind; [exact Hfc | unfold fc; cbn [cursor set_cursor]; lia].
        -- unfold bind, ret, incr_dgram_offset. intros [= <- <-].
           split; [exact (incr_positioned f fc Hfc)|].
           cbn [cursor set_dgram_offset]. unfold fc. cbn [cursor set_cursor].
           lia.
      * rewrite (bind_raise _ _ _ _ _ E). intros [= <- <-].
        split; [now right|]. split; [exact Hfb | lia].
  - unfold skip. rewrite (bind_raise _ _ _ _ _ Eh). intros [= <- <-].
    now apply _read_dgram_header_raise.
  - pose proof (fueled_read_dgram_header f) as Hn. rewrite Eh in Hn.
    now contradiction Hn.
Qed.

Lemma skip_at_eof (f : RawSimradFile) :
  cursor f = len (raw f) -> skip None f = (Raise SimradEOF, f).
Proof.
  intros H. unfold skip. apply bind_raise. now apply _read_dgram_header_eof.
Qed.

(** ** Runs of [skip()] *)

Lemma repeat_call_S (n : nat) (c : M unit) (f f1 : RawSimradFile) :
  c f = (Ok tt, f1) -> repeat_call (S n) c f = repeat_call n c f1.
Proof. intros E. cbn [repeat_call]. now rewrite (bind_ok _ _ _ _ _ E). Qed.

Lemma repeat_call_S_inv (n : nat) (c : M unit) (f f' : RawSimradFile) :
  repeat_call (S n) c f = (Ok tt, f') ->
  exists f1, c f = (Ok tt, f1) /\ repeat_call n c f1 = (Ok tt, f').
Proof.
  cbn [repeat_call]. unfold bind.
  destruct (c f) as [[[]|e|] f1]; try discriminate.
  intros E. now exists f1.
Qed.

Lemma positioned_cursor (f : RawSimradFile) (p i : Z) :
  cursor (positioned f p i) = p.
Proof. reflexivity. Qed.

Lemma positioned_twice (f : RawSimradFile) (p i q j : Z) :
  positioned (positioned f p i) q j = positioned f q j.
Proof. reflexivity. Qed.

Lemma positioned_id (f : RawSimradFile) :
  positioned f (cursor f) (_current_dgram_offset f) = f.
Proof. now destruct f. Qed.

(** [k] calls of [skip()] that all return, from a cursor inside the file. *)
Lemma skips_ok_inv (k : nat) :
  forall f f',
    0 <= cursor f -> repeat_call k (skip None) f = (Ok tt, f') ->
    f' = positioned f (cursor f') (_current_dgram_offset f + Z.of_nat k)
    /\ cursor f + 12 * Z.of_nat k <= cursor f'
    /\ ((0 < k)%nat -> cursor f + 12 * Z.of_nat k + 4 <= len (raw f)).
Proof.
  induction k as [|k IH]; intros f f' Hc.
  - cbn [repeat_call ret]. intros [= <-].
    rewrite Z.add_0_r, positioned_id. repeat split; lia.
  - intros E. destruct (repeat_call_S_inv _ _ _ _ E) as (f1 & E1 & E2).
    pose proof (skip_outcome f f1 _ Hc E1) as (Hf1 & Hp & Hroom).
    destruct (IH f1 f' ltac:(lia) E2) as (Hf' & Hp' & Hroom').
    split; [|split].
    + rewrite Hf', Hf1. rewrite positioned_twice. f_equal.
      cbn [_current_dgram_offset positioned set_dgram_offset]. lia.
    + lia.
    + intros _. destruct k as [|k]; [lia|].
      assert (Hraw : raw f1 = raw f) by (rewrite Hf1; reflexivity).
      rewrite Hraw in Hroom'. lia.
Qed.

Lemma count_dgrams_run (k : nat) :
  forall fuel f f1 e fx,
    0 <= cursor f -> (k < fuel)%nat ->
    repeat_call k (skip None) f = (Ok tt, f1) ->
    skip None f1 = (Raise e, fx) ->
    count_dgrams fuel f
    = (Ok tt, set_total_dgram_count fx (Some (_current_dgram_offset fx))).
Proof.
  induction k as [|k IH]; intros fuel f f1 e fx Hc Hfuel Hk He;
    (destruct fuel as [|fuel]; [lia|]).
  - cbn [repeat_call ret] in Hk. injection Hk as <-.
    pose proof (skip_outcome f fx _ Hc He) as (Hcls & _).
    cbn [count_dgrams]. unfold bind at 1, try_except, bind at 1.
    rewrite He.
    destruct Hcls as [->|Hd]; [reflexivity|].
    destruct e; try discriminate Hd. reflexivity.
  - destruct (repeat_call_S_inv _ _ _ _ Hk) as (f0 & E1 & E2).
    pose proof (skip_outcome f f0 _ Hc E1) as (_ & Hp & _).
    cbn [count_dgrams]. unfold bind at 1, try_except, bind at 1.
    rewrite E1. cbn [ret].
    apply (IH fuel f0 f1 e fx); trivial; lia.
Qed.

(** From a cursor inside the file some number of skips return and the next
    one raises. *)
Lemma skips_until_raise (n : nat) :
  forall f,
    0 <= cursor f -> len (raw f) - cursor f < Z.of_nat n ->
    exists k f1 e fx,
      repeat_call k (skip None) f = (Ok tt, f1)
      /\ skip None f1 = (Raise e, fx).
Proof.
  induction n as [|n IH]; intros f Hc Hn.
  - destruct (skip None f) as [[[]|e|] f1] eqn:E.
    + pose proof (skip_outcome f f1 _ Hc E) as (_ & _ & Hroom). lia.
    + now exists 0%nat, f, e, f1.
    + now pose proof (skip_outcome f f1 _ Hc E).
  - destruct (skip None f) as [[[]|e|] f1] eqn:E.
    + pose proof (skip_outcome f f1 _ Hc E) as (Hf1 & Hp & Hroom).
      assert (Hraw : raw f1 = raw f) by (rewrite Hf1; reflexivity).
      destruct (IH f1 ltac:(lia) ltac:(rewrite Hraw; lia))
        as (k & f2 & e & fx & Hk & He).
      exists (S k), f2, e, fx. split; [|exact He].
      now rewrite (repeat_call_S _ _ _ _ E).
    + now exists 0%nat, f, e, f1.
    + now pose proof (skip_outcome f f1 _ Hc E).
Qed.

Lemma count_dgrams_no_raise (fuel : nat) :
  forall f e f',
    0 <= cursor f -> count_dgrams fuel f <> (Raise e, f').
Proof.
  induction fuel as [|fuel IH]; intros f e f' Hc; cbn [count_dgrams];
    [discriminate|].
  unfold bind at 1, try_except, bind at 1.
  destruct (skip None f) as [[[]|e0|] f1] eqn:E.
  - pose proof (skip_outcome f f1 _ Hc E) as (_ & Hp & _).
    cbn [ret]. apply IH. lia.
  - pose proof (skip_outcome f f1 _ Hc E) as (Hcls & _).
    destruct Hcls as [->|Hd]; [discriminate|].
    destruct e0; try discriminate Hd. discriminate.
  - discriminate.
Qed.

Lemma count_dgrams_ok (fuel : nat) :
  forall f f',
    count_dgrams fuel f = (Ok tt, f') ->
    exists n, _total_dgram_count f' = Some n.
Proof.
  induction fuel as [|fuel IH]; intros f f'; cbn [count_dgrams];
    [discriminate|].
  unfold bind at 1, try_except, bind at 1.
  destruct (skip None f) as [[[]|e0|] f1] eqn:E.
  - cbn [ret]. apply IH.
  - destruct e0; try discriminate; intros [= <-]; eexists; reflexivity.
  - discriminate.
Qed.

(** ** Counting the datagrams *)

Lemma _set_total_dgram_count_run (f f1 fx : RawSimradFile) (k : nat) (e : Exn) :
  _total_dgram_count f = None ->
  repeat_call k (skip None) (positioned f 0 0) = (Ok tt, f1) ->
  skip None f1 = (Raise e, fx) ->
  _set_total_dgram_count f
  = (if cursor f <? 0
     then (Raise IOError,
           set_total_dgram_count (positioned f (cursor fx) (Z.of_nat k))
             (Some (Z.of_nat k)))
     else (Ok tt, set_total_dgram_count f (Some (Z.of_nat k)))).
Proof.
  intros Ht Hk He.
  unfold _set_total_dgram_count. rewrite Ht.
  unfold bind at 1. cbn [_tell_bytes]. unfold bind at 1. cbn [tell].
  unfold bind at 1. cbn [put_dgram_offset]. unfold bind at 1.
  rewrite _seek_bytes_set by lia.
  change (set_cursor (set_dgram_offset f 0) 0) with (positioned f 0 0).
  assert (H0 : 0 <= cursor (positioned f 0 0)) by (cbn; lia).
  destruct (skips_ok_inv k _ _ H0 Hk) as (Hf1 & Hp & Hroom).
  assert (Hk' : (k < S (length (raw (positioned f 0 0))))%nat).
  { change (raw (positioned f 0 0)) with (raw f).
    destruct k as [|k]; [lia|].
    specialize (Hroom ltac:(lia)). cbn [raw cursor positioned set_dgram_offset set_cursor] in Hroom.
    unfold len in Hroom. lia. }
  unfold bind at 1.
  rewrite (count_dgrams_run k _ _ f1 e fx H0 Hk' Hk He).
  assert (H1 : 0 <= cursor f1) by (rewrite positioned_cursor in Hp; lia).
  pose proof (skip_outcome f1 fx _ H1 He) as (_ & Hfx & _).
  assert (Hfx' : fx = positioned f (cursor fx) (Z.of_nat k)).
  { rewrite Hfx, Hf1. reflexivity. }
  unfold bind at 1. unfold _seek_bytes.
  destruct (cursor f <? 0).
  - rewrite Hfx' at 1 2. reflexivity.
  - unfold bind. cbn [put_dgram_offset]. rewrite Hfx'.
    unfold set_total_dgram_count, set_dgram_offset, set_cursor, positioned.
    cbn [raw cursor _current_dgram_offset _total_dgram_count _return_raw
         set_dgram_offset set_cursor].
    destruct f; reflexivity.
Qed.

Lemma _set_total_dgram_count_total (f : RawSimradFile) :
  _total_dgram_count f = None ->
  exists (k : nat) f1 e fx,
    repeat_call k (skip None) (positioned f 0 0) = (Ok tt, f1)
    /\ skip None f1 = (Raise e, fx)
    /\ _set_total_dgram_count f
       = (if cursor f <? 0
          then (Raise IOError,
                set_total_dgram_count (positioned f (cursor fx) (Z.of_nat k))
                  (Some (Z.of_nat k)))
          else (Ok tt, set_total_dgram_count f (Some (Z.of_nat k)))).
Proof.
  intros Ht.
  destruct (skips_until_raise (S (length (raw f))) (positioned f 0 0))
    as (k & f1 & e & fx & Hk & He).
  - cbn. lia.
  - change (raw (positioned f 0 0)) with (raw f). rewrite positioned_cursor.
    unfold len. lia.
  - exists k, f1, e, fx. split; [exact Hk|]. split; [exact He|].
    now apply (_set_total_dgram_count_run f f1 fx k e).
Qed.

(** After the [try] around [_set_total_dgram_count] in [seek] the count is
    a number, whatever the file object was. *)
Lemma seek_end_count_is_set (f f' : RawSimradFile) :
  try_except _set_total_dgram_count
    (fun e => match e with
              | ValueError => ret tt
              | _ => raise e
              end) f = (Ok tt, f') ->
  _total_dgram_count f' <> None.
Proof.
  destruct (_total_dgram_count f) as [t|] eqn:Ht.
  - unfold try_except, _set_total_dgram_count. rewrite Ht. cbn [raise ret].
    intros [= <-]. rewrite Ht. discriminate.
  - destruct (_set_total_dgram_count_total f Ht)
      as (k & f1 & e & fx & _ & _ & E).
    unfold try_except. rewrite E.
    destruct (cursor f <? 0); [discriminate|].
    intros [= <-]. discriminate.
Qed.

(** ** Streams of well-formed frames *)

Lemma rest_positioned (f : RawSimradFile) (p i : Z) :
  rest (positioned f p i) = rest (set_cursor f p).
Proof. reflexivity. Qed.

Lemma skips_over_frames (frs : list (list byte)) :
  forall f more,
    0 <= cursor f -> rest f = concat frs ++ more ->
    forallb is_frame frs = true ->
    repeat_call (length frs) (skip None) f
    = (Ok tt, positioned f (cursor f + len (concat frs))
                (_current_dgram_offset f + Z.of_nat (length frs))).
Proof.
  induction frs as [|fr frs IH]; intros f more Hc Hr Hf.
  - cbn [length repeat_call concat ret]. rewrite len_nil, !Z.add_0_r.
    now rewrite positioned_id.
  - cbn [forallb] in Hf. apply andb_true_iff in Hf as [Hfr Hfrs].
    cbn [concat] in Hr. rewrite <- app_assoc in Hr.
    cbn [length].
    rewrite (repeat_call_S _ _ _ _ (skip_frame f fr _ Hc Hr Hfr)).
    pose proof (len_nonneg fr) as Hl.
    rewrite (IH _ more).
    + rewrite positioned_twice. cbn [concat]. rewrite len_app. f_equal.
      f_equal; cbn [cursor _current_dgram_offset positioned set_dgram_offset
                    set_cursor]; lia.
    + rewrite positioned_cursor. lia.
    + rewrite rest_positioned. apply (rest_step f fr _ (len fr) Hc Hr eq_refl).
    + exact Hfrs.
Qed.

Lemma repeat_call_snoc (n : nat) (c : M unit) :
  forall f, repeat_call (S n) c f = (repeat_call n c ;; c) f.
Proof.
  induction n as [|n IH]; intros f.
  - cbn [repeat_call]. unfold bind, ret.
    destruct (c f) as [[[]|e|] f1]; reflexivity.
  - change (repeat_call (S (S n)) c f)
      with ((c ;; repeat_call (S n) c) f).
    change (repeat_call (S n) c) with (c ;; repeat_call n c) at 2.
    rewrite bind_assoc. apply bind_cong. intros [] f1. apply IH.
Qed.

Lemma skip_backs_over_frames (frs : list (list byte)) :
  forall f pre more,
    raw f = pre ++ concat frs ++ more ->
    cursor f = len pre + len (concat frs) ->
    forallb is_frame frs = true ->
    repeat_call (length frs) skip_back f
    = (Ok tt, positioned f (len pre)
                (_current_dgram_offset f - Z.of_nat (length frs))).
Proof.
  induction frs as [|fr frs IH]; intros f pre more Hr Hc Hf.
  - cbn [length repeat_call concat ret] in *. rewrite len_nil in Hc.
    rewrite Z.add_0_r in Hc. rewrite <- Hc, Z.sub_0_r.
    now rewrite positioned_id.
  - cbn [forallb] in Hf. apply andb_true_iff in Hf as [Hfr Hfrs].
    cbn [concat] in Hr, Hc. rewrite len_app in Hc.
    cbn [length]. rewrite repeat_call_snoc.
    assert (E : repeat_call (length frs) skip_back f
                = (Ok tt, positioned f (len (pre ++ fr))
                            (_current_dgram_offset f - Z.of_nat (length frs)))).
    { apply (IH f (pre ++ fr) more); trivial.
      - rewrite Hr. now rewrite <- !app_assoc.
      - rewrite len_app. lia. }
    rewrite (bind_ok _ _ _ _ _ E).
    rewrite (skip_back_frame _ pre fr (concat frs ++ more)); trivial.
    + rewrite positioned_twice. f_equal. f_equal.
      cbn [_current_dgram_offset positioned set_dgram_offset]. lia.
    + cbn [raw positioned set_dgram_offset set_cursor]. rewrite Hr.
      now rewrite <- !app_assoc.
    + rewrite positioned_cursor. apply len_app.
Qed.

Lemma forallb_firstn {A} (p : A -> bool) (l : list A) :
  forall n, forallb p l = true -> forallb p (firstn n l) = true.
Proof.
  induction l as [|a l IH]; intros [|n] H; cbn in *; trivial.
  apply andb_true_iff in H as [Ha Hl]. rewrite Ha. now apply IH.
Qed.

Lemma forallb_skipn {A} (p : A -> bool) (l : list A) :
  forall n, forallb p l = true -> forallb p (skipn n l) = true.
Proof.
  induction l as [|a l IH]; intros [|n] H; cbn in *; trivial.
  apply andb_true_iff in H as [Ha Hl]. now apply IH.
Qed.

Lemma concat_firstn_skipn (frs : list (list byte)) (n : nat) :
  concat frs = concat (firstn n frs) ++ concat (skipn n frs).
Proof. now rewrite <- concat_app, firstn_skipn. Qed.

(** ** The datagram index *)

Lemma byte_level_positioned {A} (c : M A) (f f' : RawSimradFile) (o : Outcome A) :
  byte_level c -> c f = (o, f') ->
  f' = positioned f (cursor f') (_current_dgram_offset f).
Proof.
  intros Hc E. destruct (Hc _ _ _ E) as [H _]. rewrite H at 1.
  now destruct f.
Qed.

Lemma positioned_trans (f g h : RawSimradFile) (i j : Z) :
  g = positioned f (cursor g) i -> h = positioned g (cursor h) j ->
  h = positioned f (cursor h) j.
Proof. intros H1 H2. rewrite H2, H1. reflexivity. Qed.

(** [skip] moves the index by one when it returns and not at all when it
    raises; the bytes of the file and the other attributes stay. *)
Lemma skip_index (header : option Header) (f f' : RawSimradFile)
      (o : Outcome unit) :
  skip header f = (o, f') ->
  f' = positioned f (cursor f')
         (match o with
          | Ok _ => _current_dgram_offset f + 1
          | _ => _current_dgram_offset f
          end).
Proof.
  pose proof byte_level_read_dgram_header as B1.
  pose proof byte_level_find_next_datagram as B2.
  pose proof byte_level_read_dgram_size as B3.
  unfold skip. unfold bind at 1.
  match goal with |- context [match ?c f with _ => _ end] =>
    assert (Bh : byte_level c) by (destruct header; byte_level_tac);
    destruct (c f) as [[h|e|] f1] eqn:E1 end;
    pose proof (byte_level_positioned _ _ _ _ Bh E1) as H1;
    try (intros [= <- <-]; exact H1).
  unfold bind at 1.
  match goal with |- context [match ?c f1 with _ => _ end] =>
    assert (Bm : byte_level c) by byte_level_tac;
    destruct (c f1) as [[[]|e|] f2] eqn:E2 end;
    pose proof (byte_level_positioned _ _ _ _ Bm E2) as H2;
    pose proof (positioned_trans _ _ _ _ _ H1 H2) as H3;
    assert (H4 : _current_dgram_offset f1 = _current_dgram_offset f)
      by (rewrite H1; reflexivity);
    rewrite H4 in H3;
    try (intros [= <- <-]; exact H3).
  unfold incr_dgram_offset. intros [= <- <-].
  rewrite H3 at 1. rewrite H3 at 2. reflexivity.
Qed.

Lemma skip_back_factor (f : RawSimradFile) :
  skip_back f
  = ((old_file_pos <- _tell_bytes ;;
      _seek_bytes (-4) SEEK_CUR ;;
      dgram_size_check <- _read_dgram_size ;;
      try_except (_seek_bytes (- (8 + dgram_size_check)) SEEK_CUR)
        (fun e => match e with
                  | IOError => raise TypeError
                  | _ => raise e
                  end) ;;
      dgram_size <- _read_dgram_size ;;
      if negb (dgram_size_check =? dgram_size) then
        _seek_bytes old_file_pos SEEK_SET ;;
        raise TypeError
      else _seek_bytes (-4) SEEK_CUR) ;;
     decr_dgram_offset) f.
Proof.
  unfold skip_back.
  repeat (rewrite bind_assoc; apply bind_cong; intros ? ?).
  reflexivity.
Qed.

Lemma skip_back_index (f f' : RawSimradFile) (o : Outcome unit) :
  skip_back f = (o, f') ->
  f' = positioned f (cursor f')
         (match o with
          | Ok _ => _current_dgram_offset f - 1
          | _ => _current_dgram_offset f
          end).
Proof.
  pose proof byte_level_read_dgram_size as B3.
  rewrite skip_back_factor. unfold bind at 1.
  match goal with |- context [match ?c f with _ => _ end] =>
    assert (Bh : byte_level c) by byte_level_tac;
    destruct (c f) as [[[]|e|] f1] eqn:E1 end;
    pose proof (byte_level_positioned _ _ _ _ Bh E1) as H1;
    try (intros [= <- <-]; exact H1).
  unfold decr_dgram_offset. intros [= <- <-].
  rewrite H1 at 1. rewrite H1 at 2. reflexivity.
Qed.

Lemma repeat_skip_index (k : nat) :
  forall f f' o,
    repeat_call k (skip None) f = (o, f') ->
    exists j, (j <= k)%nat
      /\ f' = positioned f (cursor f') (_current_dgram_offset f + Z.of_nat j)
      /\ (o = Ok tt -> j = k).
Proof.
  induction k as [|k IH]; intros f f' o.
  - cbn [repeat_call ret]. intros [= <- <-]. exists 0%nat.
    rewrite Z.add_0_r, positioned_id. auto.
  - cbn [repeat_call]. unfold bind.
    destruct (skip None f) as [[[]|e|] f1] eqn:E;
      pose proof (skip_index _ _ _ _ E) as H1.
    + intros E2. destruct (IH _ _ _ E2) as (j & Hj & Hf & Ho).
      exists (S j). split; [lia|]. split; [|intros H; f_equal; auto].
      rewrite Hf, H1. rewrite positioned_twice. f_equal.
      cbn [_current_dgram_offset positioned set_dgram_offset]. lia.
    + intros [= <- <-]. exists 0%nat. split; [lia|].
      split; [now rewrite Z.add_0_r | discriminate].
    + intros [= <- <-]. exists 0%nat. split; [lia|].
      split; [now rewrite Z.add_0_r | discriminate].
Qed.

Lemma repeat_skip_back_index (k : nat) :
  forall f f' o,
    repeat_call k skip_back f = (o, f') ->
    exists j, (j <= k)%nat
      /\ f' = positioned f (cursor f') (_current_dgram_offset f - Z.of_nat j)
      /\ (o = Ok tt -> j = k).
Proof.
  induction k as [|k IH]; intros f f' o.
  - cbn [repeat_call ret]. intros [= <- <-]. exists 0%nat.
    rewrite Z.sub_0_r, positioned_id. auto.
  - cbn [repeat_call]. unfold bind.
    destruct (skip_back f) as [[[]|e|] f1] eqn:E;
      pose proof (skip_back_index _ _ _ E) as H1.
    + intros E2. destruct (IH _ _ _ E2) as (j & Hj & Hf & Ho).
      exists (S j). split; [lia|]. split; [|intros H; f_equal; auto].
      rewrite Hf, H1. rewrite positioned_twice. f_equal.
      cbn [_current_dgram_offset positioned set_dgram_offset]. lia.
    + intros [= <- <-]. exists 0%nat. split; [lia|].
      split; [now rewrite Z.sub_0_r | discriminate].
    + intros [= <- <-]. exists 0%nat. split; [lia|].
      split; [now rewrite Z.sub_0_r | discriminate].
Qed.

(** ** [seek] *)

(** The last lines of [seek]: [offset] skips forward, or [- offset] skips
    back. *)
Local Abbreviation seek_by offset :=
  (if 0 <? offset then repeat_call (Z.to_nat offset) (skip None)
   else if offset <? 0 then repeat_call (Z.to_nat (- offset)) skip_back
   else ret tt).

Lemma seek_set_eq (offset : Z) (f : RawSimradFile) :
  0 <= offset -> seek offset 0 f = seek_by offset (positioned f 0 0).
Proof.
  intros H. unfold seek. cbn [Z.eqb].
  destruct (Z.ltb_spec offset 0); [lia|].
  rewrite bind_assoc. rewrite (bind_ok _ _ _ _ _ (_seek_bytes_set f 0 ltac:(lia))).
  reflexivity.
Qed.

Lemma seek_cur_eq (offset : Z) (f : RawSimradFile) :
  seek offset 1 f = seek_by offset f.
Proof. reflexivity. Qed.

Lemma _seek_bytes_end (f : RawSimradFile) :
  _seek_bytes 0 SEEK_END f = (Ok tt, set_cursor f (len (raw f))).
Proof.
  unfold _seek_bytes. pose proof (len_nonneg (raw f)).
  destruct (Z.ltb_spec (len (raw f) + 0) 0); [lia|].
  now rewrite Z.add_0_r.
Qed.

Lemma seek_end_cached (offset t : Z) (f : RawSimradFile) :
  offset <= 0 -> _total_dgram_count f = Some t ->
  seek offset 2 f = seek_by offset (positioned f (len (raw f)) t).
Proof.
  intros H Ht. unfold seek. cbn [Z.eqb Pos.eqb].
  destruct (Z.ltb_spec 0 offset); [lia|].
  assert (E1 : try_except _set_total_dgram_count
                 (fun e => match e with
                           | ValueError => ret tt
                           | _ => raise e
                           end) f = (Ok tt, f)).
  { unfold try_except, _set_total_dgram_count. now rewrite Ht. }
  rewrite bind_assoc. rewrite (bind_ok _ _ _ _ _ E1).
  rewrite bind_assoc. rewrite (bind_ok _ _ _ _ _ (_seek_bytes_end f)).
  unfold bind at 1. cbn [_total_dgram_count set_cursor]. rewrite Ht.
  reflexivity.
Qed.

Lemma seek_end_counted (offset t : Z) (f : RawSimradFile) :
  offset <= 0 ->
  _set_total_dgram_count f = (Ok tt, set_total_dgram_count f (Some t)) ->
  seek offset 2 f
  = seek_by offset
      (positioned (set_total_dgram_count f (Some t)) (len (raw f)) t).
Proof.
  intros H Ht. unfold seek. cbn [Z.eqb Pos.eqb].
  destruct (Z.ltb_spec 0 offset); [lia|].
  rewrite bind_assoc.
  rewrite (bind_ok _ _ _ _ _ (try_except_ok _ _ _ _ _ Ht)).
  rewrite bind_assoc. rewrite (bind_ok _ _ _ _ _ (_seek_bytes_end _)).
  unfold bind at 1. reflexivity.
Qed.

Lemma seek_end_raise (offset : Z) (f g : RawSimradFile) :
  offset <= 0 ->
  _set_total_dgram_count f = (Raise IOError, g) ->
  seek offset 2 f = (Raise IOError, g).
Proof.
  intros H E. unfold seek. cbn [Z.eqb Pos.eqb].
  destruct (Z.ltb_spec 0 offset); [lia|].
  apply bind_raise. apply bind_raise.
  now rewrite (try_except_raise _ _ _ _ _ E).
Qed.


Lemma seek_by_index (offset : Z) (g f' : RawSimradFile) :
  seek_by offset g = (Ok tt, f') ->
  f' = positioned g (cursor f') (_current_dgram_offset g + offset).
Proof.
  destruct (Z.ltb_spec 0 offset); [|destruct (Z.ltb_spec offset 0)].
  - intros E. destruct (repeat_skip_index _ _ _ _ E) as (j & _ & Hf & Hj).
    rewrite (Hj eq_refl) in Hf. now rewrite Z2Nat.id in Hf by lia.
  - intros E. destruct (repeat_skip_back_index _ _ _ _ E) as (j & _ & Hf & Hj).
    rewrite (Hj eq_refl) in Hf. rewrite Z2Nat.id in Hf by lia.
    now replace (_current_dgram_offset g - - offset)
      with (_current_dgram_offset g + offset) in Hf by lia.
  - cbn [ret]. intros [= <-]. replace offset with 0 by lia.
    now rewrite Z.add_0_r, positioned_id.
Qed.

(** ** What [skip_back] and runs of skips can raise *)

Lemma skip_back_raise (f f' : RawSimradFile) (e : Exn) :
  skip_back f = (Raise e, f') ->
  e = IOError \/ e = TypeError \/ is_DatagramReadError e = true.
Proof.
  unfold skip_back. unfold bind at 1. cbn [_tell_bytes]. unfold bind at 1.
  unfold _seek_bytes at 1.
  destruct (Z.ltb_spec (cursor f + -4) 0); [intros [= <- _]; auto|].
  set (f1 := set_cursor f (cursor f + -4)).
  assert (H1 : 0 <= cursor f1) by (cbn; lia).
  unfold bind at 1.
  destruct (_read_dgram_size_cases f1 H1) as [[_ E]|[_ E]]; rewrite E;
    [|intros [= <- _]; right; right; reflexivity].
  set (t := unpack_l _). set (f2 := set_cursor f1 (cursor f1 + 4)).
  unfold bind at 1, try_except. unfold _seek_bytes at 1.
  destruct (Z.ltb_spec (cursor f2 + - (8 + t)) 0);
    [cbn [raise]; intros [= <- _]; auto|].
  set (f3 := set_cursor f2 _).
  assert (H3 : 0 <= cursor f3) by (cbn; cbn in *; lia).
  unfold bind at 1.
  destruct (_read_dgram_size_cases f3 H3) as [[_ E3]|[_ E3]]; rewrite E3;
    [|intros [= <- _]; right; right; reflexivity].
  unfold bind at 1.
  destruct (negb _).
  - unfold bind at 1. rewrite _seek_bytes_set by lia. cbn [raise].
    intros [= <- _]. auto.
  - rewrite _seek_bytes_cur by (cbn; cbn in *; lia).
    unfold decr_dgram_offset. discriminate.
Qed.

Lemma repeat_skip_back_raise (k : nat) :
  forall f f' e,
    repeat_call k skip_back f = (Raise e, f') ->
    e = IOError \/ e = TypeError \/ is_DatagramReadError e = true.
Proof.
  induction k as [|k IH]; intros f f' e; cbn [repeat_call ret];
    [discriminate|].
  unfold bind. destruct (skip_back f) as [[[]|e0|] f1] eqn:E.
  - apply IH.
  - intros [= <- _]. exact (skip_back_raise _ _ _ E).
  - discriminate.
Qed.

Lemma repeat_skip_raise (k : nat) :
  forall f f' e,
    0 <= cursor f ->
    repeat_call k (skip None) f = (Raise e, f') ->
    e = SimradEOF \/ is_DatagramReadError e = true.
Proof.
  induction k as [|k IH]; intros f f' e Hc; cbn [repeat_call ret];
    [discriminate|].
  unfold bind. destruct (skip None f) as [[[]|e0|] f1] eqn:E;
    pose proof (skip_outcome _ _ _ Hc E) as H.
  - apply IH. destruct H as (_ & H & _). lia.
  - intros [= <- _]. apply H.
  - discriminate.
Qed.

Lemma seek_by_raise (offset : Z) (g g' : RawSimradFile) (e : Exn) :
  0 <= cursor g \/ offset <= 0 ->
  seek_by offset g = (Raise e, g') -> e <> ValueError.
Proof.
  intros Hc.
  destruct (Z.ltb_spec 0 offset); [|destruct (Z.ltb_spec offset 0)].
  - intros E. destruct Hc as [Hc|Hc]; [|lia].
    destruct (repeat_skip_raise _ _ _ _ Hc E) as [->| H1];
      [discriminate | intros ->; discriminate].
  - intros E.
    destruct (repeat_skip_back_raise _ _ _ _ E) as [->|[->|H1]];
      [discriminate | discriminate | intros ->; discriminate].
  - discriminate.
Qed.

Lemma repeat_call_add (n m : nat) (c : M unit) :
  forall f, repeat_call (n + m) c f = (repeat_call n c ;; repeat_call m c) f.
Proof.
  induction n as [|n IH]; intros f.
  - reflexivity.
  - cbn [Nat.add repeat_call]. rewrite bind_assoc. apply bind_cong.
    intros [] f1. apply IH.
Qed.

Lemma seek_by_nonneg (a : Z) (g : RawSimradFile) :
  0 <= a -> seek_by a g = repeat_call (Z.to_nat a) (skip None) g.
Proof.
  intros H. destruct (Z.ltb_spec 0 a); [reflexivity|].
  destruct (Z.ltb_spec a 0); [lia|].
  replace a with 0 by lia. reflexivity.
Qed.

Lemma seek_by_nonpos (a : Z) (g : RawSimradFile) :
  a <= 0 -> seek_by a g = repeat_call (Z.to_nat (- a)) skip_back g.
Proof.
  intros H. destruct (Z.ltb_spec 0 a); [lia|].
  destruct (Z.ltb_spec a 0); [reflexivity|].
  replace a with 0 by lia. reflexivity.
Qed.

(** ** Counting and seeking, stated for the caller *)

(** X1. [_set_total_dgram_count] on a file object whose count is not set
    yet always returns: it skips from the start of the file until a skip
    raises, stores the number [k] of skips that returned, and puts the
    cursor and the datagram index back where they were.  With the count
    already set it raises [ValueError] and changes nothing. *)
Theorem set_total_dgram_count_counts :
  forall f : RawSimradFile,
    0 <= cursor f ->
    (_total_dgram_count f = None ->
     exists (k : nat) f1 e fx,
       repeat_call k (skip None) (positioned f 0 0) = (Ok tt, f1)
       /\ skip None f1 = (Raise e, fx)
       /\ _set_total_dgram_count f
          = (Ok tt, set_total_dgram_count f (Some (Z.of_nat k))))
    /\ (forall n, _total_dgram_count f = Some n ->
                  _set_total_dgram_count f = (Raise ValueError, f)).
Proof.
  intros f Hc. split.
  - intros Ht.
    destruct (_set_total_dgram_count_total f Ht)
      as (k & f1 & e & fx & Hk & He & E).
    exists k, f1, e, fx. split; [exact Hk|]. split; [exact He|].
    destruct (Z.ltb_spec (cursor f) 0); [lia | exact E].
  - intros n Ht. unfold _set_total_dgram_count. now rewrite Ht.
Qed.

(** X2. On a file made of [n] well-formed datagrams, followed by at most
    fifteen more bytes, [_set_total_dgram_count] stores [n]. *)
Theorem set_total_dgram_count_frames :
  forall (f : RawSimradFile) (frs : list (list byte)) (tail : list byte),
    0 <= cursor f -> _total_dgram_count f = None ->
    raw f = concat frs ++ tail -> forallb is_frame frs = true ->
    len tail < 16 ->
    _set_total_dgram_count f
    = (Ok tt, set_total_dgram_count f (Some (Z.of_nat (length frs)))).
Proof.
  intros f frs tail Hc Ht Hr Hf Hl.
  set (g := positioned f 0 0).
  assert (Hg : repeat_call (length frs) (skip None) g
               = (Ok tt, positioned g (cursor g + len (concat frs))
                           (_current_dgram_offset g + Z.of_nat (length frs)))).
  { apply (skips_over_frames frs g tail); [cbn; lia | | exact Hf].
    unfold rest. cbn [cursor raw g positioned set_dgram_offset set_cursor].
    now rewrite drop_nonpos by lia. }
  set (g1 := positioned g _ _) in Hg.
  pose proof (len_nonneg (concat frs)) as Hl0.
  assert (Hc1 : cursor g1 = len (concat frs)) by (cbn; lia).
  destruct (skip None g1) as [[[]|e|] fx] eqn:E.
  - pose proof (skip_outcome g1 fx _ ltac:(lia) E) as (_ & _ & Hroom).
    change (raw g1) with (raw f) in Hroom. rewrite Hr, len_app in Hroom. lia.
  - pose proof (_set_total_dgram_count_run f g1 fx _ e Ht Hg E) as R.
    destruct (Z.ltb_spec (cursor f) 0); [lia | exact R].
  - now pose proof (skip_outcome g1 fx _ ltac:(lia) E).
Qed.

(** X3. On a file that starts with well-formed datagrams,
    [seek(k, SEEK_SET)] puts the cursor on the first byte of datagram [k]
    and the index at [k], wherever the file object was before. *)
Theorem seek_set_lands_on_frame :
  forall (f : RawSimradFile) (frs : list (list byte)) (more : list byte)
         (k : nat),
    raw f = concat frs ++ more -> forallb is_frame frs = true ->
    (k <= length frs)%nat ->
    seek (Z.of_nat k) 0 f
    = (Ok tt, positioned f (len (concat (firstn k frs))) (Z.of_nat k)).
Proof.
  intros f frs more k Hr Hf Hk.
  rewrite seek_set_eq by lia.
  destruct k as [|k].
  - cbn [Z.of_nat Z.ltb Z.compare firstn concat ret]. now rewrite len_nil.
  - destruct (Z.ltb_spec 0 (Z.of_nat (S k))); [|lia].
    rewrite Nat2Z.id.
    set (g := positioned f 0 0).
    pose proof (skips_over_frames (firstn (S k) frs) g
                  (concat (skipn (S k) frs) ++ more)) as H1.
    rewrite length_firstn, Nat.min_l in H1 by exact Hk.
    rewrite H1.
    + unfold g. rewrite positioned_twice. reflexivity.
    + cbn. lia.
    + unfold rest. cbn [cursor raw g positioned set_dgram_offset set_cursor].
      rewrite drop_nonpos by lia. rewrite Hr, app_assoc. f_equal.
      apply concat_firstn_skipn.
    + now apply forallb_firstn.
Qed.

(** X4. On a file made of [n] well-formed datagrams and nothing else,
    [seek(-k, SEEK_END)] counts the datagrams when the count is not set,
    keeps the count, and puts the cursor on the first byte of datagram
    [n - k] with the index at [n - k]. *)
Theorem seek_end_lands_on_frame :
  forall (f : RawSimradFile) (frs : list (list byte)) (k : nat),
    0 <= cursor f -> _total_dgram_count f = None ->
    raw f = concat frs -> forallb is_frame frs = true ->
    (k <= length frs)%nat ->
    seek (- Z.of_nat k) 2 f
    = (Ok tt,
       set_total_dgram_count
         (positioned f (len (concat (firstn (length frs - k) frs)))
            (Z.of_nat (length frs - k)))
         (Some (Z.of_nat (length frs)))).
Proof.
  intros f frs k Hc Ht Hr Hf Hk.
  set (n := length frs) in *.
  assert (E : _set_total_dgram_count f
              = (Ok tt, set_total_dgram_count f (Some (Z.of_nat n)))).
  { destruct (_total_dgram_count f) eqn:Ht'; [discriminate|].
    clear Ht. set (g := positioned f 0 0).
    assert (Hg : repeat_call n (skip None) g
                 = (Ok tt, positioned g (cursor g + len (concat frs))
                             (_current_dgram_offset g + Z.of_nat n))).
    { apply (skips_over_frames frs g []); [cbn; lia | | exact Hf].
      unfold rest. cbn [cursor raw g positioned set_dgram_offset set_cursor].
      rewrite drop_nonpos by lia. now rewrite app_nil_r. }
    set (g1 := positioned g _ _) in Hg.
    assert (E1 : skip None g1 = (Raise SimradEOF, g1)).
    { apply skip_at_eof. change (raw g1) with (raw f). rewrite Hr. cbn. lia. }
    pose proof (_set_total_dgram_count_run f g1 g1 n _ Ht' Hg E1) as R.
    destruct (Z.ltb_spec (cursor f) 0); [lia | exact R]. }
  rewrite (seek_end_counted (- Z.of_nat k) _ f ltac:(lia) E).
  set (g := positioned _ _ _).
  pose proof (skip_backs_over_frames (skipn (n - k) frs) g
                (concat (firstn (n - k) frs)) []) as H1.
  assert (Hlen : length (skipn (n - k) frs) = k)
    by (rewrite length_skipn; fold n; lia).
  rewrite Hlen in H1.
  assert (H2 : repeat_call k skip_back g
               = (Ok tt, positioned g (len (concat (firstn (n - k) frs)))
                           (_current_dgram_offset g - Z.of_nat k))).
  { apply H1.
    - change (raw g) with (raw f). rewrite Hr, app_nil_r.
      apply concat_firstn_skipn.
    - change (cursor g) with (len (raw f)). rewrite Hr, <- len_app.
      f_equal. apply concat_firstn_skipn.
    - now apply forallb_skipn. }
  destruct k as [|k].
  - cbn [Z.of_nat Z.opp Z.ltb Z.compare ret].
    replace (n - 0)%nat with n by lia. unfold n at 1. rewrite firstn_all.
    rewrite <- Hr. reflexivity.
  - destruct (Z.ltb_spec 0 (- Z.of_nat (S k))); [lia|].
    destruct (Z.ltb_spec (- Z.of_nat (S k)) 0); [|lia].
    rewrite Z.opp_involutive, Nat2Z.id. rewrite H2.
    unfold g. rewrite positioned_twice.
    cbn [_current_dgram_offset positioned set_dgram_offset].
    replace (Z.of_nat n - Z.of_nat (S k)) with (Z.of_nat (n - S k)) by lia.
    reflexivity.
Qed.

(** X5. After a [seek] that returns, [tell()] is the offset asked for,
    counted from 0 for [SEEK_SET], from the index before the call for
    [SEEK_CUR] and from the datagram count for [SEEK_END]; the count is
    then set, and it is the cached one when there was one.  The bytes of
    the file and [return_raw] are untouched. *)
Theorem seek_index :
  forall (offset whence : Z) (f f' : RawSimradFile),
    seek offset whence f = (Ok tt, f') ->
    raw f' = raw f /\ _return_raw f' = _return_raw f
    /\ (whence = 0 ->
        _current_dgram_offset f' = offset
        /\ _total_dgram_count f' = _total_dgram_count f)
    /\ (whence = 1 ->
        _current_dgram_offset f' = _current_dgram_offset f + offset
        /\ _total_dgram_count f' = _total_dgram_count f)
    /\ (whence = 2 ->
        exists n, _total_dgram_count f' = Some n
                  /\ _current_dgram_offset f' = n + offset
                  /\ (forall t, _total_dgram_count f = Some t -> n = t)).
Proof.
  intros offset whence f f'.
  destruct (Z.eq_dec whence 0) as [->|H0];
    [|destruct (Z.eq_dec whence 2) as [->|H2];
      [|destruct (Z.eq_dec whence 1) as [->|H1]]].
  - destruct (Z.ltb_spec offset 0) as [Hlt|Hge].
    + unfold seek. cbn [Z.eqb]. apply Z.ltb_lt in Hlt. rewrite Hlt.
      discriminate.
    + rewrite seek_set_eq by assumption. intros E.
      apply seek_by_index in E. rewrite E.
      cbn [raw _return_raw _current_dgram_offset _total_dgram_count
           positioned set_dgram_offset set_cursor].
      repeat split; try discriminate; try lia.
  - destruct (Z.ltb_spec 0 offset) as [Hlt|Hge].
    + unfold seek. cbn [Z.eqb Pos.eqb]. apply Z.ltb_lt in Hlt. rewrite Hlt.
      discriminate.
    + destruct (_total_dgram_count f) as [t|] eqn:Ht.
      * rewrite (seek_end_cached offset t f Hge Ht). intros E.
        apply seek_by_index in E. rewrite E.
        cbn [raw _return_raw _current_dgram_offset _total_dgram_count
             positioned set_dgram_offset set_cursor].
        repeat split; try discriminate.
        intros _. exists t. rewrite Ht. repeat split. congruence.
      * destruct (_set_total_dgram_count_total f Ht)
          as (k & f1 & e & fx & _ & _ & E1).
        destruct (cursor f <? 0).
        -- now rewrite (seek_end_raise offset f _ Hge E1).
        -- rewrite (seek_end_counted offset _ f Hge E1). intros E.
           apply seek_by_index in E. rewrite E.
           cbn [raw _return_raw _current_dgram_offset _total_dgram_count
                positioned set_dgram_offset set_cursor set_total_dgram_count].
           repeat split; try discriminate.
           intros _. exists (Z.of_nat k). repeat split. discriminate.
  - rewrite seek_cur_eq. intros E. apply seek_by_index in E. rewrite E.
    cbn [raw _return_raw _current_dgram_offset _total_dgram_count
         positioned set_dgram_offset set_cursor].
    repeat split; try discriminate; try lia.
  - unfold seek.
    destruct (Z.eqb_spec whence 0); [contradiction|].
    destruct (Z.eqb_spec whence 2); [contradiction|].
    destruct (Z.eqb_spec whence 1); [contradiction|].
    discriminate.
Qed.

(** X6. Seeking from the current position composes: [seek(a, SEEK_CUR)]
    followed by [seek(b, SEEK_CUR)] is [seek(a + b, SEEK_CUR)] when [a] and
    [b] point the same way, exceptions included. *)
Theorem seek_cur_composes :
  forall (a b : Z) (f : RawSimradFile),
    (0 <= a /\ 0 <= b) \/ (a <= 0 /\ b <= 0) ->
    (seek a 1 ;; seek b 1) f = seek (a + b) 1 f.
Proof.
  intros a b f H. rewrite seek_cur_eq.
  transitivity ((seek_by a ;; seek_by b) f); [reflexivity|].
  destruct H as [[Ha Hb]|[Ha Hb]].
  - rewrite (seek_by_nonneg (a + b)) by lia.
    rewrite Z2Nat.inj_add by lia. rewrite repeat_call_add.
    unfold bind. rewrite (seek_by_nonneg a) by lia.
    destruct (repeat_call _ _ f) as [[[]|e|] f1]; trivial.
    now apply seek_by_nonneg.
  - rewrite (seek_by_nonpos (a + b)) by lia.
    replace (- (a + b)) with (- a + - b) by lia.
    rewrite Z2Nat.inj_add by lia. rewrite repeat_call_add.
    unfold bind. rewrite (seek_by_nonpos a) by lia.
    destruct (repeat_call _ _ f) as [[[]|e|] f1]; trivial.
    now apply seek_by_nonpos.
Qed.

(** X7. [seek] raises [ValueError] exactly for the arguments it refuses: a
    negative offset from the start, a positive offset from the end, or a
    [whence] other than 0, 1, 2.  It then has not touched the file object;
    in particular a refused [seek(k, SEEK_END)] has not counted the
    datagrams. *)
Theorem seek_value_error :
  forall (offset whence : Z) (f : RawSimradFile),
    0 <= cursor f ->
    let refused := (whence = 0 /\ offset < 0) \/ (whence = 2 /\ 0 < offset)
                   \/ (whence <> 0 /\ whence <> 1 /\ whence <> 2) in
    (refused -> seek offset whence f = (Raise ValueError, f))
    /\ (forall f', seek offset whence f = (Raise ValueError, f') -> refused).
Proof.
  intros offset whence f Hc refused. split.
  - intros [[-> H]|[[-> H]|(H0 & H1 & H2)]].
    + unfold seek. cbn [Z.eqb]. apply Z.ltb_lt in H. now rewrite H.
    + unfold seek. cbn [Z.eqb Pos.eqb]. apply Z.ltb_lt in H. now rewrite H.
    + unfold seek.
      destruct (Z.eqb_spec whence 0); [contradiction|].
      destruct (Z.eqb_spec whence 2); [contradiction|].
      destruct (Z.eqb_spec whence 1); [contradiction|]. reflexivity.
  - intros f' E. unfold refused.
    destruct (Z.eq_dec whence 0) as [->|H0];
      [|destruct (Z.eq_dec whence 2) as [->|H2];
        [|destruct (Z.eq_dec whence 1) as [->|H1]]].
    + destruct (Z.ltb_spec offset 0) as [Hlt|Hge]; [now left|].
      rewrite seek_set_eq in E by assumption.
      apply seek_by_raise in E; [congruence | left; cbn; lia].
    + destruct (Z.ltb_spec 0 offset) as [Hlt|Hge]; [right; now left|].
      destruct (_total_dgram_count f) as [t|] eqn:Ht.
      * rewrite (seek_end_cached offset t f Hge Ht) in E.
        apply seek_by_raise in E; [congruence | now right].
      * destruct (_set_total_dgram_count_total f Ht)
          as (k & f1 & e & fx & _ & _ & E1).
        destruct (Z.ltb_spec (cursor f) 0); [lia|].
        rewrite (seek_end_counted offset _ f Hge E1) in E.
        apply seek_by_raise in E; [congruence | now right].
    + rewrite seek_cur_eq in E.
      apply seek_by_raise in E; [congruence | now left].
    + right; right. auto.
Qed.

(** ** Reading well-formed frames *)

Section FrameProperties.

Variable Datagram : Type.
Variable from_string : Parser -> list byte -> Z -> Exn + Datagram.
Variable readall : M (list (Dgram Datagram)).

Lemma rec_index (n : nat) :
  forall header f o f',
    _read_next_dgram_rec from_string n header f = (o, f') ->
    f' = positioned f (cursor f')
           (match o with
            | Ok _ => _current_dgram_offset f + 1
            | _ => _current_dgram_offset f
            end).
Proof.
  induction n as [|n IH]; intros header f o f'.
  - cbn [_read_next_dgram_rec]. intros [= <- <-]. now rewrite positioned_id.
  - rewrite rec_S. unfold bind at 1.
    destruct (attempt header f) as [[a|e|] f1] eqn:Ea;
      pose proof (byte_level_positioned _ _ _ _ (byte_level_attempt header) Ea)
        as H1;
      try (intros [= <- <-]; exact H1).
    assert (O1 : _current_dgram_offset f1 = _current_dgram_offset f)
      by (rewrite H1; reflexivity).
    destruct a as [|raw_dgram bytes_read]; cbn [after_attempt].
    + unfold bind at 1.
      destruct (_find_next_datagram f1) as [[[]|e|] f2] eqn:Ef;
        pose proof (byte_level_positioned _ _ _ _
                      byte_level_find_next_datagram Ef) as H2;
        pose proof (positioned_trans _ _ _ _ _ H1 H2) as H3;
        rewrite O1 in H3;
        try (intros [= <- <-]; exact H3).
      assert (O2 : _current_dgram_offset f2 = _current_dgram_offset f)
        by (rewrite H3; reflexivity).
      intros E. apply IH in E. rewrite O2 in E.
      exact (positioned_trans _ _ _ _ _ H3 E).
    + rewrite deliver_eq.
      destruct (delivered _ _ _ _) as [e|d]; intros [= <- <-].
      * exact H1.
      * rewrite H1 at 1 2. reflexivity.
Qed.

Lemma _read_next_dgram_index (header : option Header) (f f' : RawSimradFile)
      (o : Outcome (Dgram Datagram)) :
  _read_next_dgram from_string header f = (o, f') ->
  f' = positioned f (cursor f')
         (match o with
          | Ok _ => _current_dgram_offset f + 1
          | _ => _current_dgram_offset f
          end).
Proof. apply rec_index. Qed.

Lemma read_1_index (header : option Header) (f f' : RawSimradFile)
      (o : Outcome (ReadResult Datagram)) :
  read from_string readall 1 header f = (o, f') ->
  f' = positioned f (cursor f')
         (match o with
          | Ok _ => _current_dgram_offset f + 1
          | _ => _current_dgram_offset f
          end).
Proof.
  unfold read. cbn [Z.eqb Pos.eqb]. unfold try_except. unfold bind at 1.
  destruct (_read_next_dgram from_string header f) as [[d|e|] f1] eqn:E;
    pose proof (_read_next_dgram_index _ _ _ _ E) as H1; cbn [ret];
    try (intros [= <- <-]; exact H1).
  assert (O1 : _current_dgram_offset f1 = _current_dgram_offset f)
    by (rewrite H1; reflexivity).
  unfold bind.
  destruct (at_eof f1) as [[b|e'|] f2] eqn:Ee;
    pose proof (byte_level_positioned _ _ _ _ byte_level_at_eof Ee) as H2;
    pose proof (positioned_trans _ _ _ _ _ H1 H2) as H3;
    rewrite O1 in H3;
    [destruct b|..]; intros [= <- <-]; exact H3.
Qed.

Lemma _read_next_dgram_is_frame (f : RawSimradFile) (fr more : list byte) :
  0 <= cursor f -> rest f = fr ++ more -> is_frame fr = true ->
  _read_next_dgram from_string None f
  = deliver from_string (frame_body fr) (len fr + 12)
      (set_cursor f (cursor f + len fr)).
Proof.
  intros Hc Hr Hf.
  destruct (is_frame_split fr Hf)
    as (sz & ty & ts & data & tr & E & Hsz & Hty & Hts & Htr & Hs & Hd & He
        & Hb & Hl).
  rewrite E, <- !app_assoc in Hr.
  rewrite (_read_next_dgram_frame _ from_string f sz ty ts data tr more);
    trivial.
  rewrite Hb, Hl.
  replace (unpack_l sz + 8 + 12) with (unpack_l sz + 20) by lia.
  replace (cursor f + (unpack_l sz + 8)) with (cursor f + unpack_l sz + 8)
    by lia.
  reflexivity.
Qed.

Lemma frame_room (f : RawSimradFile) (fr more : list byte) :
  0 <= cursor f -> rest f = fr ++ more -> is_frame fr = true ->
  cursor f + len fr + len more = len (raw f) /\ 24 <= len fr.
Proof.
  intros Hc Hr Hf.
  destruct (is_frame_split fr Hf) as (sz & _ & _ & _ & _ & _ & _ & _ & _ & _
                                      & Hs & _ & _ & _ & Hl).
  pose proof (len_rest f Hc) as H. rewrite Hr, len_app in H.
  pose proof (len_nonneg more). lia.
Qed.

(** [read(1)] on a well-formed frame: what the caller receives is decided
    by the parser alone. *)
Lemma read_1_frame (f : RawSimradFile) (fr more : list byte) :
  0 <= cursor f -> rest f = fr ++ more -> is_frame fr = true ->
  read from_string readall 1 None f
  = match delivered from_string (_return_raw f) (frame_body fr) (len fr + 12) with
    | inr d => (Ok (One d),
                positioned f (cursor f + len fr) (_current_dgram_offset f + 1))
    | inl e => (Raise (if len more =? 0 then SimradEOF else e),
                set_cursor f (cursor f + len fr))
    end.
Proof.
  intros Hc Hr Hf.
  pose proof (_read_next_dgram_is_frame f fr more Hc Hr Hf) as E.
  destruct (frame_room f fr more Hc Hr Hf) as [Hroom Hl].
  rewrite deliver_eq in E. cbn [_return_raw set_cursor] in E.
  destruct (delivered _ _ _ _) as [e|d].
  - rewrite (read_1_raise _ from_string readall None f _ e E)
      by (cbn [cursor set_cursor]; lia).
    cbn [cursor raw set_cursor]. pose proof (len_nonneg more).
    destruct (Z.eqb_spec (cursor f + len fr) (len (raw f)));
      destruct (Z.eqb_spec (len more) 0); trivial; lia.
  - exact (read_1_ok _ from_string readall None f _ d E).
Qed.

Lemma raw_split (f : RawSimradFile) :
  0 <= cursor f <= len (raw f) ->
  raw f = take (cursor f) (raw f) ++ rest f
  /\ len (take (cursor f) (raw f)) = cursor f.
Proof.
  intros H. split; [unfold rest; now rewrite take_drop|].
  rewrite len_take. lia.
Qed.

Lemma _read_next_dgram_eof (f : RawSimradFile) :
  cursor f = len (raw f) ->
  _read_next_dgram from_string None f = (Raise SimradEOF, f).
Proof.
  intros H. rewrite _read_next_dgram_eq by (rewrite H; apply len_nonneg).
  apply bind_raise. now apply attempt_eof.
Qed.

Lemma read_loop_frames (frs : list (list byte)) :
  forall ds acc f more j,
    0 <= cursor f -> rest f = concat frs ++ more ->
    forallb is_frame frs = true ->
    Forall2 (fun fr d => delivered from_string (_return_raw f)
                           (frame_body fr) (len fr + 12) = inr d) frs ds ->
    read_loop from_string (length frs + j) acc f
    = read_loop from_string j (acc ++ ds)
        (positioned f (cursor f + len (concat frs))
           (_current_dgram_offset f + Z.of_nat (length frs))).
Proof.
  induction frs as [|fr frs IH]; intros ds acc f more j Hc Hr Hf Hd.
  - inversion Hd; subst. cbn [length Nat.add concat].
    rewrite len_nil, !Z.add_0_r, app_nil_r. now rewrite positioned_id.
  - inversion Hd as [|fr' d frs' ds' Hfd Hrest]; subst.
    cbn [forallb] in Hf. apply andb_true_iff in Hf as [Hfr Hfrs].
    cbn [concat] in Hr. rewrite <- app_assoc in Hr.
    cbn [length Nat.add read_loop].
    rewrite (_read_next_dgram_is_frame f fr _ Hc Hr Hfr).
    rewrite deliver_eq. cbn [_return_raw set_cursor]. rewrite Hfd.
    pose proof (len_nonneg fr) as Hl.
    change (set_dgram_offset (set_cursor f (cursor f + len fr))
              (_current_dgram_offset (set_cursor f (cursor f + len fr)) + 1))
      with (positioned f (cursor f + len fr) (_current_dgram_offset f + 1)).
    rewrite (IH ds' _ _ more j).
    + rewrite positioned_twice, <- app_assoc. cbn [concat app].
      rewrite len_app. f_equal. f_equal;
        cbn [cursor _current_dgram_offset positioned set_dgram_offset
             set_cursor]; lia.
    + rewrite positioned_cursor. lia.
    + rewrite rest_positioned. apply (rest_step f fr _ (len fr) Hc Hr eq_refl).
    + exact Hfrs.
    + exact Hrest.
Qed.

Lemma _read_next_dgram_no_bytes (f : RawSimradFile) :
  0 <= cursor f -> rest f = [] ->
  exists e, _read_next_dgram from_string None f = (Raise e, f).
Proof.
  intros Hc Hr.
  destruct (_read_dgram_header_cases f Hc) as (_ & _ & H3 & H4).
  rewrite Hr, len_nil in H3.
  destruct (Z.eq_dec (cursor f) (len (raw f))) as [He|Hne].
  - exists SimradEOF. now apply _read_next_dgram_eof.
  - eexists. rewrite _read_next_dgram_eq by assumption.
    apply bind_raise. apply attempt_header_raise. apply H3; [lia | exact Hne].
Qed.

Lemma read_loop_no_bytes (j : nat) (acc : list (Dgram Datagram))
      (f : RawSimradFile) :
  0 <= cursor f -> rest f = [] ->
  read_loop from_string j acc f = (Ok acc, f).
Proof.
  intros Hc Hr. destruct j as [|j]; [reflexivity|].
  cbn [read_loop].
  destruct (_read_next_dgram_no_bytes f Hc Hr) as [e E]. now rewrite E.
Qed.

Lemma Forall2_firstn {A B} (R : A -> B -> Prop) (l : list A) :
  forall (l' : list B) (n : nat),
    Forall2 R l l' -> Forall2 R (firstn n l) (firstn n l').
Proof.
  induction l as [|a l IH]; intros l' n H; inversion H; subst.
  - destruct n; constructor.
  - destruct n; cbn [firstn]; constructor; auto.
Qed.

Lemma skip_back_after_frame (f : RawSimradFile) (fr more : list byte) (i : Z) :
  0 <= cursor f -> rest f = fr ++ more -> is_frame fr = true ->
  skip_back (positioned f (cursor f + len fr) i)
  = (Ok tt, positioned f (cursor f) (i - 1)).
Proof.
  intros Hc Hr Hf.
  destruct (frame_room f fr more Hc Hr Hf) as [Hroom Hl].
  pose proof (len_nonneg more) as Hm.
  destruct (raw_split f ltac:(lia)) as [Hraw Hpre].
  rewrite Hr in Hraw.
  rewrite (skip_back_frame _ (take (cursor f) (raw f)) fr more); trivial.
  - rewrite positioned_twice, Hpre. reflexivity.
  - rewrite positioned_cursor. lia.
Qed.

(** X8. A call of [read(1)], [skip] or [skip_back] that raises leaves the
    datagram index as it was; so do the bytes of the file, the datagram
    count and [return_raw].  Only the byte cursor may have moved. *)
Theorem failed_call_keeps_index :
  (forall header f f' e,
      read from_string readall 1 header f = (Raise e, f') ->
      f' = positioned f (cursor f') (_current_dgram_offset f))
  /\ (forall header f f' e,
         skip header f = (Raise e, f') ->
         f' = positioned f (cursor f') (_current_dgram_offset f))
  /\ (forall f f' e,
         skip_back f = (Raise e, f') ->
         f' = positioned f (cursor f') (_current_dgram_offset f)).
Proof.
  split; [|split].
  - intros header f f' e E. exact (read_1_index _ _ _ _ E).
  - intros header f f' e E. exact (skip_index _ _ _ _ E).
  - intros f f' e E. exact (skip_back_index _ _ _ E).
Qed.

(** X9. When the parser raises on a well-formed datagram, [read(1)] has
    already consumed the datagram: the cursor is past it and the index is
    not incremented.  The caller sees the parser's exception, unless the
    datagram was the last one of the file: then the exception is replaced
    by [SimradEOF]. *)
Theorem read_parser_error :
  forall (f : RawSimradFile) (fr more : list byte) (e : Exn),
    0 <= cursor f -> rest f = fr ++ more -> is_frame fr = true ->
    delivered from_string (_return_raw f) (frame_body fr) (len fr + 12)
    = inl e ->
    read from_string readall 1 None f
    = (Raise (if len more =? 0 then SimradEOF else e),
       set_cursor f (cursor f + len fr)).
Proof.
  intros f fr more e Hc Hr Hf Hd.
  rewrite (read_1_frame f fr more Hc Hr Hf). now rewrite Hd.
Qed.

(** X10. On a well-formed datagram [skip_back] undoes [skip] and
    [read(1)], and [skip] undoes [skip_back]: the file object is back in
    the state it had, cursor and index. *)
Theorem skip_back_round_trip :
  forall (f : RawSimradFile) (fr more : list byte),
    0 <= cursor f -> rest f = fr ++ more -> is_frame fr = true ->
    let g := positioned f (cursor f + len fr) (_current_dgram_offset f + 1) in
    (skip None ;; skip_back) f = (Ok tt, f)
    /\ (skip_back ;; skip None) g = (Ok tt, g)
    /\ (forall d,
           delivered from_string (_return_raw f) (frame_body fr) (len fr + 12)
           = inr d ->
           (r <- read from_string readall 1 None ;; skip_back ;; ret r) f
           = (Ok (One d), f)).
Proof.
  intros f fr more Hc Hr Hf g.
  pose proof (skip_back_after_frame f fr more (_current_dgram_offset f + 1)
                Hc Hr Hf) as Hb.
  replace (_current_dgram_offset f + 1 - 1) with (_current_dgram_offset f)
    in Hb by lia.
  rewrite positioned_id in Hb. fold g in Hb.
  pose proof (skip_frame f fr more Hc Hr Hf) as Hs. fold g in Hs.
  split; [|split].
  - now rewrite (bind_ok _ _ _ _ _ Hs).
  - now rewrite (bind_ok _ _ _ _ _ Hb).
  - intros d Hd.
    pose proof (read_1_frame f fr more Hc Hr Hf) as E. rewrite Hd in E.
    fold g in E. rewrite (bind_ok _ _ _ _ _ E).
    now rewrite (bind_ok _ _ _ _ _ Hb).
Qed.

(** X11. With the cursor right after a well-formed datagram, [prev]
    returns that datagram and leaves the cursor on its first byte, with the
    index one less.  When the parser raises on it, [prev] raises with the
    cursor where it was but the index already one less. *)
Theorem prev_returns_datagram_behind :
  forall (f : RawSimradFile) (fr more : list byte),
    0 <= cursor f -> rest f = fr ++ more -> is_frame fr = true ->
    let g := positioned f (cursor f + len fr) (_current_dgram_offset f + 1) in
    match delivered from_string (_return_raw f) (frame_body fr) (len fr + 12) with
    | inr d => prev from_string readall g = (Ok (One d), f)
    | inl e =>
        prev from_string readall g
        = (Raise (if len more =? 0 then SimradEOF else e),
           positioned g (cursor g) (_current_dgram_offset g - 1))
    end.
Proof.
  intros f fr more Hc Hr Hf g.
  pose proof (skip_back_after_frame f fr more (_current_dgram_offset f + 1)
                Hc Hr Hf) as Hb.
  replace (_current_dgram_offset f + 1 - 1) with (_current_dgram_offset f)
    in Hb by lia.
  rewrite positioned_id in Hb. fold g in Hb.
  pose proof (read_1_frame f fr more Hc Hr Hf) as E.
  unfold prev. rewrite (bind_ok _ _ _ _ _ Hb).
  destruct (delivered _ _ _ _) as [e|d].
  - rewrite (bind_raise _ _ _ _ _ E). f_equal.
    unfold g, positioned, set_dgram_offset, set_cursor.
    cbn [raw cursor _current_dgram_offset _total_dgram_count _return_raw].
    f_equal. lia.
  - fold g in E. rewrite (bind_ok _ _ _ _ _ E).
    now rewrite (bind_ok _ _ _ _ _ Hb).
Qed.

(** X12. On a run of well-formed datagrams that the parser accepts,
    [read(k)] with [k > 1] returns the first [k] of them in order, or all
    of them when the file ends before; the index advances by the number
    returned and the cursor stops after the last one returned. *)
Theorem read_many_frames :
  forall (f : RawSimradFile) (frs : list (list byte))
         (ds : list (Dgram Datagram)) (more : list byte) (k : Z),
    0 <= cursor f -> rest f = concat frs ++ more ->
    forallb is_frame frs = true ->
    Forall2 (fun fr d => delivered from_string (_return_raw f)
                           (frame_body fr) (len fr + 12) = inr d) frs ds ->
    1 < k -> (k <= Z.of_nat (length frs) \/ more = []) ->
    let n := Nat.min (Z.to_nat k) (length frs) in
    read from_string readall k None f
    = (Ok (Many (firstn n ds)),
       positioned f (cursor f + len (concat (firstn n frs)))
         (_current_dgram_offset f + Z.of_nat n)).
Proof.
  intros f frs ds more k Hc Hr Hf Hd Hk Hcase n.
  unfold read.
  destruct (Z.eqb_spec k 1); [lia|].
  destruct (Z.ltb_spec 0 k); [|lia].
  pose proof (Forall2_length Hd) as Hlen.
  assert (Hn : length (firstn n frs) = n)
    by (rewrite length_firstn; unfold n; lia).
  assert (E : read_loop from_string (Z.to_nat k) [] f
              = (Ok (firstn n ds),
                 positioned f (cursor f + len (concat (firstn n frs)))
                   (_current_dgram_offset f + Z.of_nat n))).
  { replace (Z.to_nat k) with (length (firstn n frs) + (Z.to_nat k - n))%nat
      by (rewrite Hn; unfold n; lia).
    rewrite (read_loop_frames (firstn n frs) (firstn n ds) [] f
               (concat (skipn n frs) ++ more)); trivial.
    - rewrite Hn. cbn [app].
      destruct (Nat.le_gt_cases (Z.to_nat k) (length frs)) as [Hle|Hgt].
      + replace (Z.to_nat k - n)%nat with 0%nat by (unfold n; lia).
        reflexivity.
      + destruct Hcase as [Hcase| ->]; [lia|].
        pose proof (len_nonneg (concat (firstn n frs))) as Hl0.
        apply read_loop_no_bytes; [rewrite positioned_cursor; lia|].
        rewrite rest_positioned.
        replace n with (length frs) by (unfold n; lia).
        rewrite firstn_all.
        rewrite app_nil_r in Hr.
        rewrite (rest_step f (concat frs) [] (len (concat frs)) Hc);
          [reflexivity | now rewrite app_nil_r | reflexivity].
    - rewrite Hr, app_assoc. f_equal. apply concat_firstn_skipn.
    - now apply forallb_firstn.
    - now apply Forall2_firstn. }
  now rewrite (bind_ok _ _ _ _ _ E).
Qed.

(** X13. A header obtained from [get_header] can be handed to [skip] or to
    [read(1)]: from the position [get_header] leaves, sixteen bytes on,
    they do exactly what they would have done from the start of the
    datagram without the header. *)
Theorem get_header_then_skip_or_read :
  forall (f f1 : RawSimradFile) (h : Header),
    0 <= cursor f ->
    get_header f = (Ok h, f1) ->
    f1 = set_cursor f (cursor f + 16)
    /\ skip (Some h) f1 = skip None f
    /\ read from_string readall 1 (Some h) f1
       = read from_string readall 1 None f.
Proof.
  intros f f1 h Hc E. unfold get_header in E. unfold bind at 1 in E.
  destruct (peek false f) as [[h0|e|] f2] eqn:Ep; try discriminate.
  unfold bind in E.
  destruct (nt_timestamp (low_date h0) (high_date h0)) as [e|t];
    cbn [lift raise ret] in E; try discriminate.
  injection E as <- <-.
  destruct (peek_consume_inv _ _ _ Ep) as (h1 & E1 & Ef & Hs & Hr & _).
  split; [exact Ef|]. split.
  - rewrite (skip_none _ _ _ E1). unfold skip. unfold bind at 1.
    cbn [ret size set_timestamp]. rewrite Hs. reflexivity.
  - assert (Hread : _read_next_dgram from_string
                      (Some (set_timestamp h0 t (size h0 + 20))) f2
                    = _read_next_dgram from_string None f).
    { rewrite (_read_next_dgram_eq _ from_string None f) by assumption.
      rewrite (_read_next_dgram_eq _ from_string (Some _) f2)
        by (rewrite Ef; cbn [cursor set_cursor]; lia).
      unfold bind. rewrite attempt_some, (attempt_none f f2 h1 E1).
      rewrite (attempt_payload_ext (set_timestamp h0 t (size h0 + 20)) h1
                 _ _ Hs Hr).
      replace (cursor f2 - 16) with (cursor f)
        by (rewrite Ef; cbn [cursor set_cursor]; lia).
      reflexivity. }
    unfold read. cbn [Z.eqb Pos.eqb]. unfold try_except, bind.
    now rewrite Hread.
Qed.

(** X14. A [KeyError] raised by the parser registered for a datagram type
    is taken for an unknown type: the datagram goes to
    [SimradUnknownParser], and the caller gets what that parser returns or
    raises.  The file object is not touched. *)
Theorem parser_key_error_is_unknown_type :
  forall (raw_dgram : list byte) (n : Z) (f : RawSimradFile) (p : Parser),
    dict_get (take 3 raw_dgram) DGRAM_TYPE_KEY = Some p ->
    from_string p raw_dgram n = inl KeyError ->
    _convert_raw_datagram from_string raw_dgram n f
    = (match from_string (SimradUnknownParser (take 3 raw_dgram)) raw_dgram n with
       | inl e => Raise e
       | inr d => Ok d
       end, f).
Proof.
  intros raw_dgram n f p Hp Hk.
  rewrite _convert_raw_datagram_eq. unfold parse. cbv zeta. rewrite Hp, Hk.
  unfold lift.
  destruct (from_string (SimradUnknownParser (take 3 raw_dgram)) raw_dgram n);
    reflexivity.
Qed.

(** X15. A file that ends inside a datagram header.  With one to three
    bytes left, [read(1)] and [skip] raise a [DatagramReadError] and the
    cursor stays.  With four to fifteen bytes left they raise [SimradEOF]
    as at a clean end of file, and the cursor is at the end of the file:
    the partial header has been consumed. *)
Theorem truncated_header :
  forall f : RawSimradFile,
    0 <= cursor f ->
    let r := len (rest f) in
    (0 < r < 4 ->
     read from_string readall 1 None f
     = (Raise (DatagramReadError
                 "Short read while getting raw file datagram header"
                 4 r (cursor f) (_current_dgram_offset f)), f)
     /\ skip None f
        = (Raise (DatagramReadError "Short read while getting dgram size"
                    4 r (cursor f) (_current_dgram_offset f)), f))
    /\ (4 <= r < 16 ->
        read from_string readall 1 None f
        = (Raise SimradEOF, set_cursor f (len (raw f)))
        /\ skip None f = (Raise SimradEOF, set_cursor f (len (raw f)))).
Proof.
  intros f Hc r.
  destruct (_read_dgram_header_cases f Hc) as (_ & H2 & H3 & _).
  fold r in H2, H3.
  pose proof (len_rest f Hc) as Hl. fold r in Hl.
  pose proof (len_nonneg (raw f)) as Hn.
  split; intros Hr.
  - assert (Hne : cursor f <> len (raw f)) by lia.
    specialize (H3 ltac:(lia) Hne).
    split.
    + pose proof (attempt_header_raise _ _ _ H3) as Ea.
      assert (E : _read_next_dgram from_string None f
                  = (Raise (retitle
                       "Short read while getting raw file datagram header"
                       (DatagramReadError "Short read while getting dgram size"
                          4 r (cursor f) (_current_dgram_offset f))), f)).
      { rewrite _read_next_dgram_eq by assumption. now apply bind_raise. }
      rewrite (read_1_raise _ from_string readall None f f _ E Hc).
      destruct (Z.eqb_spec (cursor f) (len (raw f))); [contradiction|].
      reflexivity.
    + unfold skip. now apply bind_raise.
  - specialize (H2 Hr). split.
    + pose proof (attempt_header_raise _ _ _ H2) as Ea.
      assert (E : _read_next_dgram from_string None f
                  = (Raise SimradEOF, set_cursor f (len (raw f)))).
      { rewrite _read_next_dgram_eq by assumption. now apply bind_raise. }
      rewrite (read_1_raise _ from_string readall None f _ _ E)
        by (cbn [cursor set_cursor]; lia).
      cbn [cursor raw set_cursor]. now rewrite Z.eqb_refl.
    + unfold skip. now apply bind_raise.
Qed.

End FrameProperties.

(** ** Searching for the next tag *)

Lemma drop_take (l : list byte) :
  forall i k, 0 <= i -> drop i (take k l) = take (k - i) (drop i l).
Proof.
  induction l as [|b t IH]; intros i k Hi; cbn [take drop]; [reflexivity|].
  destruct (Z.leb_spec k 0) as [Hk|Hk].
  - cbn [drop]. now rewrite take_nonpos by lia.
  - cbn [drop]. destruct (Z.leb_spec i 0) as [Hi0|Hi0].
    + replace (k - i) with k by lia. now rewrite take_cons by lia.
    + rewrite IH by lia. f_equal. lia.
Qed.

Lemma first_match_here (l : list byte) :
  forall i, first_match l = Some i -> match_here (drop i l) = true.
Proof.
  induction l as [|b t IH]; intros i; cbn [first_match]; [discriminate|].
  destruct (match_here (b :: t)) eqn:E.
  - intros [= <-]. now rewrite drop_nonpos by lia.
  - destruct (first_match t) as [j|] eqn:Ej; cbn [option_map]; [|discriminate].
    intros [= <-]. destruct (first_match_bounds _ _ Ej) as [Hj _].
    rewrite drop_cons by lia. replace (Z.succ j - 1) with j by lia.
    now apply IH.
Qed.

Lemma first_match_take_here (l : list byte) (k i : Z) :
  first_match (take k l) = Some i -> match_here (drop i l) = true.
Proof.
  intros E. destruct (first_match_bounds _ _ E) as [Hi _].
  pose proof (first_match_here _ _ E) as H.
  rewrite drop_take in H by assumption.
  pose proof (match_here_len _ H) as Hl. rewrite len_take in Hl.
  rewrite match_here_take in H by lia. exact H.
Qed.

Lemma take_empty (l : list byte) (k : Z) :
  0 < k -> len (take k l) = 0 -> l = [].
Proof.
  intros Hk H. rewrite len_take in H. apply len_zero_nil.
  pose proof (len_nonneg l). lia.
Qed.

Lemma find_loop_post (fuel : nat) :
  forall initial current f o f',
    0 <= cursor f -> 4 <= current ->
    (current = cursor f \/ rest f = []) ->
    find_loop fuel initial current f = (o, f') ->
    match o with
    | Ok _ =>
        f' = set_cursor f (cursor f') /\ cursor f <= cursor f' + 4
        /\ match_here (drop (cursor f' + 4) (raw f)) = true
    | Raise e =>
        e = SimradEOF /\ f' = set_cursor f (cursor f') /\ rest f' = []
    | OutOfFuel => True
    end.
Proof.
  induction fuel as [|n IH]; intros initial current f o f' Hc H4 Hinv;
    cbn [find_loop]; [intros [= <- _]; exact I|].
  unfold bind. rewrite _read_bytes_eq by (unfold search_buf_bytes; lia).
  set (buf := take search_buf_bytes (rest f)).
  destruct (Z.eqb_spec (len buf) 0) as [E0|E0].
  - intros [= <- <-]. rewrite E0, Z.add_0_r, set_cursor_id.
    split; [reflexivity|]. split; [now rewrite set_cursor_id|].
    apply (take_empty _ search_buf_bytes); [unfold search_buf_bytes; lia|].
    exact E0.
  - assert (Hcur : current = cursor f).
    { destruct Hinv as [H|H]; [exact H|].
      unfold buf in E0. rewrite H in E0. cbn [take] in E0.
      now rewrite len_nil in E0. }
    destruct (first_match buf) as [start|] eqn:Em.
    + destruct (first_match_bounds _ _ Em) as [Hs0 _].
      unfold _seek_bytes.
      destruct (Z.ltb_spec (current + start - 4) 0); [lia|].
      intros [= <- <-]. rewrite set_cursor_twice. cbn [cursor set_cursor].
      split; [reflexivity|]. split; [lia|].
      replace (current + start - 4 + 4) with (cursor f + start) by lia.
      rewrite drop_drop by lia.
      exact (first_match_take_here _ _ _ Em).
    + intros E.
      pose proof (len_nonneg buf) as Hb.
      apply IH in E.
      * destruct o as [[]|e|]; [| |exact I].
        -- destruct E as (Hf & Hp & Hm). rewrite set_cursor_twice in Hf.
           cbn [cursor raw set_cursor] in Hp, Hm. repeat split; trivial. lia.
        -- destruct E as (He & Hf & Hr). rewrite set_cursor_twice in Hf.
           now repeat split.
      * cbn [cursor set_cursor]. lia.
      * unfold search_buf_bytes in *. lia.
      * cbn [cursor set_cursor].
        destruct (Z.eq_dec (len buf) search_buf_bytes) as [Ef|Ef];
          [left; lia | right].
        rewrite rest_advance by lia. apply drop_all.
        unfold buf in *. rewrite len_take in *. lia.
Qed.

Lemma find_loop_no_match (n : nat) (initial current : Z) (f : RawSimradFile) :
  rest f <> [] -> first_match (take search_buf_bytes (rest f)) = None ->
  find_loop (S n) initial current f
  = find_loop n initial (current + search_buf_bytes)
      (set_cursor f (cursor f + len (take search_buf_bytes (rest f)))).
Proof.
  intros Hne Hm. cbn [find_loop]. unfold bind.
  rewrite _read_bytes_eq by (unfold search_buf_bytes; lia).
  destruct (Z.eqb_spec (len (take search_buf_bytes (rest f))) 0) as [E0|E0].
  - apply take_empty in E0; [contradiction | unfold search_buf_bytes; lia].
  - now rewrite Hm.
Qed.

Lemma find_loop_no_bytes (n : nat) (initial current : Z) (f : RawSimradFile) :
  rest f = [] -> find_loop (S n) initial current f = (Raise SimradEOF, f).
Proof.
  intros Hr. cbn [find_loop]. unfold bind.
  rewrite _read_bytes_eq by (unfold search_buf_bytes; lia).
  rewrite Hr. cbn [take].
  rewrite len_nil, Z.add_0_r, set_cursor_id. reflexivity.
Qed.

(** X16. [peek] on a datagram whose payload is shorter than the channel
    field it wants to look at (two bytes for RAW0, 128 for RAW3 and RAW4)
    raises [struct.error], and the cursor is not rewound, [rewind=True] or
    not: it is left at the end of what could be read. *)
Theorem peek_short_payload :
  forall (rewind : bool) (f : RawSimradFile) (sz ty ts tail : list byte),
    0 <= cursor f ->
    rest f = sz ++ ty ++ ts ++ tail ->
    len sz = 4 -> len ty = 4 -> len ts = 8 ->
    len tail < lookahead_len ty ->
    peek rewind f
    = (Raise StructError, set_cursor f (cursor f + 16 + len tail)).
Proof.
  intros rewind f sz ty ts tail Hc Hr Hsz Hty Hts Hl.
  pose proof (_read_dgram_header_ok f sz ty ts tail Hc Hr Hsz Hty Hts) as Eh.
  unfold peek. rewrite (bind_ok _ _ _ _ _ Eh). cbn [type header_of].
  assert (Hr1 : rest (set_cursor f (cursor f + 16)) = tail).
  { rewrite rest_advance by lia. rewrite Hr. now drop_apps. }
  pose proof (len_nonneg tail) as Ht0.
  unfold lookahead_len in Hl.
  destruct (startswith ty RAW0).
  - erewrite bind_ok
      by (rewrite _read_bytes_eq by lia; rewrite Hr1, take_all by lia;
          reflexivity).
    apply bind_raise.
    rewrite set_cursor_twice, cursor_set_cursor.
    destruct (Z.eqb_spec (len tail) 2); [lia | reflexivity].
  - destruct (startswith ty RAW3 || startswith ty RAW4); [|lia].
    erewrite bind_ok
      by (rewrite _read_bytes_eq by lia; rewrite Hr1, take_all by lia;
          reflexivity).
    apply bind_raise.
    rewrite set_cursor_twice, cursor_set_cursor.
    destruct (Z.eqb_spec (len tail) 128); [lia | reflexivity].
Qed.

(** X17. [_find_next_datagram], called at least four bytes into the file,
    either returns with the cursor four bytes before an occurrence of one
    of the seven tags that lies at or after the position it started from,
    or raises [SimradEOF] with nothing left to read.  It raises nothing
    else, touches nothing but the cursor, and its loop ends. *)
Theorem find_next_datagram_lands_on_tag :
  forall (f f' : RawSimradFile) (o : Outcome unit),
    4 <= cursor f ->
    _find_next_datagram f = (o, f') ->
    match o with
    | Ok _ =>
        f' = set_cursor f (cursor f') /\ cursor f <= cursor f' + 4
        /\ match_here (drop (cursor f' + 4) (raw f)) = true
    | Raise e =>
        e = SimradEOF /\ f' = set_cursor f (cursor f') /\ rest f' = []
    | OutOfFuel => False
    end.
Proof.
  intros f f' o Hc E.
  pose proof (_find_next_datagram_fuel f ltac:(lia)) as Hfuel.
  rewrite E in Hfuel. cbn [fst] in Hfuel.
  unfold _find_next_datagram, bind in E. cbn [_tell_bytes] in E.
  apply find_loop_post in E; [|lia|lia|now left].
  destruct o; trivial. now contradiction Hfuel.
Qed.

(** X18. The search reads the file in buffers of 10 MiB and looks for a
    tag inside each buffer separately.  When neither the first buffer nor
    what follows it holds a whole tag, [_find_next_datagram] raises
    [SimradEOF] with the cursor at the end of the file, even if a tag lies
    across the boundary between the two. *)
Theorem find_next_datagram_searches_per_buffer :
  forall (f : RawSimradFile) (a b : list byte),
    0 <= cursor f ->
    rest f = a ++ b -> len a = search_buf_bytes ->
    first_match a = None -> first_match b = None ->
    len b <= search_buf_bytes ->
    _find_next_datagram f = (Raise SimradEOF, set_cursor f (len (raw f))).
Proof.
  intros f a b Hc Hr Ha Hma Hmb Hb.
  pose proof (len_rest f Hc) as Hl. rewrite Hr, len_app in Hl.
  pose proof (len_nonneg b) as Hb0.
  assert (Hraw : len (raw f) = cursor f + search_buf_bytes + len b)
    by (unfold search_buf_bytes in *; lia).
  unfold _find_next_datagram, bind. cbn [_tell_bytes].
  destruct (length (raw f)) as [|[|m]] eqn:Hlen;
    try (unfold len in Hraw; rewrite Hlen in Hraw;
         unfold search_buf_bytes in *; lia).
  assert (Ht : take search_buf_bytes (rest f) = a)
    by (rewrite Hr; now apply take_app_len).
  rewrite find_loop_no_match;
    [| rewrite Hr; destruct a;
       [rewrite len_nil in Ha; unfold search_buf_bytes in Ha; lia
       | discriminate]
     | now rewrite Ht].
  rewrite Ht, Ha.
  set (f1 := set_cursor f (cursor f + search_buf_bytes)).
  assert (Hr1 : rest f1 = b).
  { unfold f1. rewrite rest_advance by (unfold search_buf_bytes; lia).
    rewrite Hr. now apply drop_app_len. }
  destruct b as [|x b'].
  - rewrite find_loop_no_bytes by exact Hr1.
    unfold f1. rewrite len_nil in Hraw. do 2 f_equal. lia.
  - assert (Ht1 : take search_buf_bytes (rest f1) = x :: b')
      by (rewrite Hr1; now apply take_all).
    rewrite find_loop_no_match;
      [| rewrite Hr1; discriminate | now rewrite Ht1].
    rewrite Ht1.
    set (f2 := set_cursor f1 _).
    assert (Hr2 : rest f2 = []).
    { unfold f2. rewrite rest_advance by (cbn; unfold search_buf_bytes; lia).
      rewrite Hr1. now apply drop_all. }
    destruct m as [|m].
    + pose proof (len_nonneg b') as Hb'. rewrite len_cons in Hraw.
      assert (H2 : len (raw f) = 2) by (unfold len; now rewrite Hlen).
      unfold search_buf_bytes in *. lia.
    + rewrite find_loop_no_bytes by exact Hr2.
      unfold f2, f1. rewrite set_cursor_twice. cbn [cursor set_cursor].
      do 2 f_equal. lia.
Qed.

(** X19. [at_eof] and [_bytes_remaining] move the cursor to the end of the
    file and back: they leave the file object as it was, [at_eof] says
    whether the cursor is at the end, and [_bytes_remaining] returns the
    distance to the end, so that [at_eof] holds exactly when no byte
    remains. *)
Theorem at_eof_bytes_remaining :
  forall f : RawSimradFile,
    0 <= cursor f ->
    at_eof f = (Ok (cursor f =? len (raw f)), f)
    /\ _bytes_remaining f = (Ok (len (raw f) - cursor f), f)
    /\ (cursor f =? len (raw f)) = (len (raw f) - cursor f =? 0).
Proof.
  intros f Hc. split; [now apply at_eof_eq|]. split.
  - unfold _bytes_remaining, bind. cbn [_tell_bytes].
    rewrite _seek_bytes_end. rewrite _seek_bytes_set by exact Hc.
    rewrite set_cursor_twice, set_cursor_id. reflexivity.
  - destruct (Z.eqb_spec (cursor f) (len (raw f)));
      destruct (Z.eqb_spec (len (raw f) - cursor f) 0); trivial; lia.
Qed.

(** X20. [reset] puts the file object back in the state [__init__] left
    it in: cursor and index at zero and no datagram count; after it
    [_set_total_dgram_count] counts again instead of raising
    [ValueError]. *)
Theorem reset_reopens :
  forall f : RawSimradFile,
    reset f = (Ok tt, open_file (raw f) (_return_raw f))
    /\ exists k : nat,
         (reset ;; _set_total_dgram_count) f
         = (Ok tt, set_total_dgram_count (open_file (raw f) (_return_raw f))
                     (Some (Z.of_nat k))).
Proof.
  intros f.
  assert (E : reset f = (Ok tt, open_file (raw f) (_return_raw f)))
    by reflexivity.
  split; [exact E|].
  destruct (_set_total_dgram_count_total (open_file (raw f) (_return_raw f))
              eq_refl) as (k & f1 & e & fx & _ & _ & Ek).
  exists k. rewrite (bind_ok _ _ _ _ _ E). exact Ek.
Qed.

(** ** Timestamps out of range *)

Lemma byte_val_bound (b : byte) : 0 <= byte_val b < 256.
Proof.
  unfold byte_val. pose proof (Byte.to_N_bounded b) as H.
  split; [apply N2Z.is_nonneg|]. lia.
Qed.

Lemma le_uint_bound (l : list byte) : 0 <= le_uint l < 256 ^ len l.
Proof.
  induction l as [|b t IH]; cbn [le_uint].
  - rewrite len_nil. cbn. lia.
  - rewrite len_cons. rewrite Z.pow_add_r by (pose proof (len_nonneg t); lia).
    pose proof (byte_val_bound b). lia.
Qed.

Lemma unpack_L_bound (l : list byte) : len l = 4 -> 0 <= unpack_L l < 2 ^ 32.
Proof.
  intros H. unfold unpack_L. pose proof (le_uint_bound l) as B.
  rewrite H in B. exact B.
Qed.

Lemma add_epoch (d s us : Z) :
  0 <= s < 86400 -> 0 <= us < 1000000 ->
  datetime.add UTC_NT_EPOCH (datetime.mk_timedelta d s us)
  = if (0 <? 584389 + d) && (584389 + d <=? 3652059)
    then
      let '(y, m, dd) := datetime._ord2ymd (584389 + d) in
      inr (datetime.mk_datetime y m dd (s / 3600) ((s mod 3600) / 60)
             ((s mod 3600) mod 60) us)
    else inl OverflowError.
Proof.
  intros Hs Hus. unfold datetime.add.
  cbn [datetime.year datetime.month datetime.day datetime.hour datetime.minute
       datetime.second datetime.microsecond datetime.days datetime.seconds
       datetime.microseconds UTC_NT_EPOCH].
  change (datetime._ymd2ord 1601 1 1) with 584389.
  set (total := ((584389 + d) * 86400 + 0 * 3600 + 0 * 60 + 0 + s) * 1000000
                + 0 + us).
  assert (Et : total = (584389 + d) * datetime.us_per_day + (s * 1000000 + us))
    by (unfold total, datetime.us_per_day; lia).
  assert (Hr : 0 <= s * 1000000 + us < datetime.us_per_day)
    by (unfold datetime.us_per_day; lia).
  assert (Ed : total / datetime.us_per_day = 584389 + d).
  { symmetry. apply (Z.div_unique_pos _ _ _ (s * 1000000 + us)); lia. }
  assert (Em : total mod datetime.us_per_day = s * 1000000 + us).
  { symmetry. apply (Z.mod_unique_pos _ _ (584389 + d)); lia. }
  rewrite Ed, Em.
  assert (E1 : (s * 1000000 + us) / 1000000 = s).
  { symmetry. apply (Z.div_unique_pos _ _ _ us); lia. }
  assert (E2 : (s * 1000000 + us) mod 1000000 = us).
  { symmetry. apply (Z.mod_unique_pos _ _ s); lia. }
  rewrite E1, E2. reflexivity.
Qed.

(** The bound of [datetime]: the first tick of year 10000, in units of 100
    nanoseconds since 1601. *)
Lemma nt_timestamp_range (low high : Z) :
  0 <= low < 2 ^ 32 -> 0 <= high < 2 ^ 32 ->
  let ticks := high * 2 ^ 32 + low in
  (ticks < 2650467744000000000 -> exists t, nt_timestamp low high = inr t)
  /\ (2650467744000000000 <= ticks ->
      nt_timestamp low high = inl OverflowError).
Proof.
  intros Hl Hh ticks.
  unfold nt_timestamp, us_past_nt_epoch.
  rewrite Z.shiftl_mul_pow2 by lia. fold ticks.
  assert (Ht : 0 <= ticks < 2 ^ 64) by (unfold ticks; lia).
  set (us := ticks / 10).
  assert (Hus : 0 <= us < 2 ^ 64) by (unfold us; split;
    [apply Z.div_pos; lia | apply Z.div_lt_upper_bound; lia]).
  unfold datetime.timedelta_of_microseconds.
  set (d := us / datetime.us_per_day).
  set (r := us mod datetime.us_per_day).
  assert (Hd : 0 <= d < 999999999).
  { unfold d, datetime.us_per_day. split;
      [apply Z.div_pos; lia | apply Z.div_lt_upper_bound; lia]. }
  assert (Hr : 0 <= r < datetime.us_per_day)
    by (unfold r, datetime.us_per_day; apply Z.mod_pos_bound; lia).
  destruct (Z.ltb_spec 999999999 (Z.abs d)) as [Habs|Habs]; [lia|].
  rewrite add_epoch;
    [| unfold datetime.us_per_day in Hr; split;
       [apply Z.div_pos; lia | apply Z.div_lt_upper_bound; lia]
     | apply Z.mod_pos_bound; lia].
  assert (Edm : us = datetime.us_per_day * d + r)
    by (unfold d, r; apply Z.div_mod; unfold datetime.us_per_day; lia).
  assert (Etm : ticks = 10 * us + ticks mod 10)
    by (unfold us; apply Z.div_mod; lia).
  pose proof (Z.mod_pos_bound ticks 10 ltac:(lia)) as Hm.
  unfold datetime.us_per_day in *.
  split; intros Hcase.
  - destruct (Z.ltb_spec 0 (584389 + d)) as [H1|H1]; [|lia].
    destruct (Z.leb_spec (584389 + d) 3652059) as [H2|H2]; [|lia].
    cbn [andb]. destruct (datetime._ord2ymd _) as [[y m] dd]. eauto.
  - destruct (Z.leb_spec (584389 + d) 3652059) as [H2|H2]; [lia|].
    now rewrite andb_false_r.
Qed.

(** X21. [get_header] computes the time of the datagram as a
    [datetime], which ends with year 9999.  When the 64-bit time of the
    header is at or beyond the first tick of year 10000 it raises
    [OverflowError], with the cursor sixteen bytes on and not rewound;
    below that bound the time never makes it raise.  [peek] reads the same
    header without computing the time, and returns. *)
Theorem get_header_overflow :
  forall (f f1 : RawSimradFile) (h : Header),
    peek false f = (Ok h, f1) ->
    let ticks := high_date h * 2 ^ 32 + low_date h in
    f1 = set_cursor f (cursor f + 16)
    /\ (2650467744000000000 <= ticks ->
        get_header f = (Raise OverflowError, f1))
    /\ (ticks < 2650467744000000000 ->
        exists t, get_header f
                  = (Ok (set_timestamp h t (size h + 20)), f1)).
Proof.
  intros f f1 h Ep ticks.
  destruct (peek_consume_inv _ _ _ Ep) as (h0 & E0 & Ef & _).
  assert (Hb : 0 <= low_date h < 2 ^ 32 /\ 0 <= high_date h < 2 ^ 32).
  { assert (Hh : low_date h = low_date h0 /\ high_date h = high_date h0).
    { revert Ep. unfold peek. rewrite (bind_ok _ _ _ _ _ E0).
      unfold bind.
      repeat match goal with
             | |- context [if ?b then _ else _] => destruct b
             | |- context [match ?c ?g with _ => _ end] =>
                 destruct (c g) as [[?|?|] ?]
             end; intros [= <- _]; split; reflexivity. }
    destruct Hh as [-> ->].
    revert E0. unfold _read_dgram_header. unfold bind at 1.
    destruct (try_except _ _ f) as [[s|e|] g1]; try discriminate.
    unfold bind at 1.
    destruct (_read_bytes 4 g1) as [[buf|e|] g2]; try discriminate.
    unfold bind at 1.
    match goal with |- context [match ?c g2 with _ => _ end] =>
      destruct (c g2) as [[[]|e|] g3] end; try discriminate.
    unfold bind at 1.
    destruct (_read_timestamp g3) as [[[[lo hi] tsb]|e|] g4] eqn:Et;
      try discriminate.
    cbn [ret]. intros [= <- _]. cbn [low_date high_date].
    apply _read_timestamp_inv in Et. destruct Et as (_ & Hl & [= -> -> _]).
    split; apply unpack_L_bound;
      [rewrite len_take | rewrite len_drop]; rewrite Hl; lia. }
  destruct Hb as [Hlo Hhi].
  destruct (nt_timestamp_range _ _ Hlo Hhi) as [Hin Hout].
  split; [exact Ef|]. split; intros H.
  - unfold get_header. rewrite (bind_ok _ _ _ _ _ Ep).
    apply bind_raise. now rewrite (Hout H).
  - destruct (Hin H) as [t Et]. exists t.
    unfold get_header. rewrite (bind_ok _ _ _ _ _ Ep).
    unfold bind. now rewrite Et.
Qed.

(** ** Random access *)

Lemma Forall2_nth_error {A B} (R : A -> B -> Prop) (l : list A) :
  forall (l' : list B) (k : nat) (b : B),
    Forall2 R l l' -> nth_error l' k = Some b ->
    exists a, nth_error l k = Some a /\ R a b.
Proof.
  induction l as [|a l IH]; intros l' k b H; inversion H; subst.
  - destruct k; discriminate.
  - destruct k as [|k]; cbn [nth_error].
    + intros [= <-]. eauto.
    + now apply IH.
Qed.

Lemma skipn_nth_error {A} (l : list A) :
  forall (k : nat) (a : A),
    nth_error l k = Some a ->
    skipn k l = a :: skipn (S k) l /\ firstn (S k) l = firstn k l ++ [a]
    /\ (k < length l)%nat.
Proof.
  induction l as [|x l IH]; intros [|k] a; cbn [nth_error];
    try discriminate.
  - intros [= <-]. cbn. repeat split. lia.
  - intros H. destruct (IH k a H) as (H1 & H2 & H3).
    change (skipn (S k) (x :: l)) with (skipn k l).
    change (skipn (S (S k)) (x :: l)) with (skipn (S k) l).
    change (firstn (S (S k)) (x :: l)) with (x :: firstn (S k) l).
    change (firstn (S k) (x :: l)) with (x :: firstn k l).
    rewrite H1, H2. cbn [length app]. repeat split. lia.
Qed.

Section RandomAccess.

Variable Datagram : Type.
Variable from_string : Parser -> list byte -> Z -> Exn + Datagram.
Variable readall : M (list (Dgram Datagram)).

(** X22. Datagrams can be fetched by number: on a file that starts with
    well-formed datagrams accepted by the parser, [seek(k, SEEK_SET)]
    followed by [read(1)] returns datagram [k], counting from zero, and
    leaves the cursor after it with the index at [k + 1]. *)
Theorem seek_set_then_read :
  forall (f : RawSimradFile) (frs : list (list byte))
         (ds : list (Dgram Datagram)) (more : list byte) (k : nat)
         (d : Dgram Datagram),
    raw f = concat frs ++ more -> forallb is_frame frs = true ->
    Forall2 (fun fr d => delivered from_string (_return_raw f)
                           (frame_body fr) (len fr + 12) = inr d) frs ds ->
    nth_error ds k = Some d ->
    (seek (Z.of_nat k) 0 ;; read from_string readall 1 None) f
    = (Ok (One d),
       positioned f (len (concat (firstn (S k) frs))) (Z.of_nat (S k))).
Proof.
  intros f frs ds more k d Hr Hf Hd Hk.
  destruct (Forall2_nth_error _ _ _ _ _ Hd Hk) as (fr & Hfr & Hdel).
  destruct (skipn_nth_error _ _ _ Hfr) as (Hskip & Hfirst & Hlt).
  set (g := positioned f 0 0).
  assert (Hg0 : rest g = concat frs ++ more).
  { unfold rest. cbn [cursor raw g positioned set_dgram_offset set_cursor].
    now rewrite drop_nonpos by lia. }
  assert (Hsplit : concat frs
                   = concat (firstn k frs) ++ fr ++ concat (skipn (S k) frs)).
  { rewrite (concat_firstn_skipn frs k), Hskip. reflexivity. }
  assert (Es : seek (Z.of_nat k) 0 f
               = (Ok tt, positioned f (len (concat (firstn k frs)))
                           (Z.of_nat k))).
  { rewrite seek_set_eq by lia. rewrite seek_by_nonneg by lia.
    rewrite Nat2Z.id. fold g.
    pose proof (skips_over_frames (firstn k frs) g
                  (concat (skipn k frs) ++ more)) as H1.
    rewrite length_firstn, Nat.min_l in H1 by lia.
    rewrite H1.
    - unfold g. rewrite positioned_twice. reflexivity.
    - cbn. lia.
    - rewrite Hg0, app_assoc. f_equal. apply concat_firstn_skipn.
    - now apply forallb_firstn. }
  rewrite (bind_ok _ _ _ _ _ Es).
  set (g1 := positioned f _ _).
  pose proof (len_nonneg (concat (firstn k frs))) as Hl.
  assert (Hr1 : rest g1 = fr ++ concat (skipn (S k) frs) ++ more).
  { apply (rest_at g1 (concat (firstn k frs))); [|reflexivity].
    change (raw g1) with (raw f). rewrite Hr, Hsplit.
    now rewrite <- !app_assoc. }
  assert (Hfr' : is_frame fr = true).
  { pose proof (forallb_skipn _ _ k Hf) as H. rewrite Hskip in H.
    cbn [forallb] in H. now apply andb_true_iff in H. }
  rewrite (read_1_frame _ from_string readall g1 fr _
             ltac:(unfold g1; rewrite positioned_cursor; lia) Hr1 Hfr').
  change (_return_raw g1) with (_return_raw f). rewrite Hdel.
  unfold g1. rewrite positioned_twice, positioned_cursor.
  rewrite Hfirst, concat_app, len_app. cbn [concat]. rewrite app_nil_r.
  f_equal. f_equal.
  cbn [_current_dgram_offset positioned set_dgram_offset]. lia.
Qed.

End RandomAccess.

(** ** The further properties at work on the example streams *)

Local Abbreviation rec_read := (read recording_parser no_readall).

Lemma set_total_dgram_count_counts_witness :
  let f0 := open_file (concat three_frames) false in
  (exists (k : nat) f1 e fx,
      repeat_call k (skip None) (positioned f0 0 0) = (Ok tt, f1)
      /\ skip None f1 = (Raise e, fx)
      /\ _set_total_dgram_count f0
         = (Ok tt, set_total_dgram_count f0 (Some (Z.of_nat k))))
  /\ _set_total_dgram_count (set_total_dgram_count f0 (Some 3))
     = (Raise ValueError, set_total_dgram_count f0 (Some 3)).
Proof.
  intros f0. split.
  - apply (proj1 (set_total_dgram_count_counts f0 ltac:(cbn; lia))).
    reflexivity.
  - apply (proj2 (set_total_dgram_count_counts
                    (set_total_dgram_count f0 (Some 3)) ltac:(cbn; lia)) 3).
    reflexivity.
Defined.

Lemma set_total_dgram_count_frames_witness :
  let f0 := open_file (concat three_frames ++ [x10; x00]) false in
  _set_total_dgram_count f0 = (Ok tt, set_total_dgram_count f0 (Some 3)).
Proof.
  intros f0.
  apply (set_total_dgram_count_frames f0 three_frames [x10; x00]);
    [cbn; lia | reflexivity | reflexivity | reflexivity | cbn; lia].
Defined.

Lemma seek_set_lands_on_frame_witness :
  let f := mkFile (concat three_frames) 72 3 None false in
  seek 2 0 f = (Ok tt, positioned f 48 2).
Proof.
  intros f.
  apply (seek_set_lands_on_frame f three_frames [] 2%nat);
    [reflexivity | reflexivity | cbn; lia].
Defined.

Lemma seek_end_lands_on_frame_witness :
  let f0 := open_file (concat three_frames) false in
  seek (-1) 2 f0
  = (Ok tt, set_total_dgram_count (positioned f0 48 2) (Some 3)).
Proof.
  intros f0.
  apply (seek_end_lands_on_frame f0 three_frames 1%nat);
    [cbn; lia | reflexivity | reflexivity | reflexivity | cbn; lia].
Defined.

Lemma seek_index_witness :
  let f := mkFile (concat three_frames) 72 3 None false in
  let f' := positioned f 48 2 in
  let g' := set_total_dgram_count (positioned f 48 2) (Some 3) in
  (seek 2 0 f = (Ok tt, f') /\ _current_dgram_offset f' = 2)
  /\ (seek (-1) 2 f = (Ok tt, g')
      /\ exists n, _total_dgram_count g' = Some n
                   /\ _current_dgram_offset g' = n + -1).
Proof.
  intros f f' g'.
  assert (E1 : seek 2 0 f = (Ok tt, f')) by (vm_compute; reflexivity).
  assert (E2 : seek (-1) 2 f = (Ok tt, g')) by (vm_compute; reflexivity).
  split; [split; [exact E1|] | split; [exact E2|]].
  - destruct (seek_index 2 0 f f' E1) as (_ & _ & H & _).
    apply H. reflexivity.
  - destruct (seek_index (-1) 2 f g' E2) as (_ & _ & _ & _ & H).
    destruct (H eq_refl) as (n & Hn & Hi & _). exists n. split; assumption.
Defined.

Lemma seek_cur_composes_witness :
  let f0 := open_file (concat three_frames) false in
  (seek 1 1 ;; seek 2 1) f0 = seek 3 1 f0
  /\ seek 3 1 f0 = (Ok tt, positioned f0 72 3).
Proof.
  intros f0. split.
  - apply (seek_cur_composes 1 2 f0). left. lia.
  - vm_compute. reflexivity.
Defined.

Lemma seek_value_error_witness :
  let f0 := open_file (concat three_frames) false in
  seek (-1) 0 f0 = (Raise ValueError, f0)
  /\ seek 1 2 f0 = (Raise ValueError, f0)
  /\ seek 0 7 f0 = (Raise ValueError, f0).
Proof.
  intros f0.
  assert (Hc : 0 <= cursor f0) by (cbn; lia).
  split; [|split].
  - apply (proj1 (seek_value_error (-1) 0 f0 Hc)). left. lia.
  - apply (proj1 (seek_value_error 1 2 f0 Hc)). right. left. lia.
  - apply (proj1 (seek_value_error 0 7 f0 Hc)). right. right. lia.
Defined.

Lemma failed_call_keeps_index_witness :
  let f := mkFile cut_in_header 24 1 None false in
  rec_read 1 None f = (Raise SimradEOF, set_cursor f 33)
  /\ set_cursor f 33 = positioned f 33 1.
Proof.
  intros f.
  assert (E : rec_read 1 None f = (Raise SimradEOF, set_cursor f 33))
    by (vm_compute; reflexivity).
  split; [exact E|].
  exact (proj1 (failed_call_keeps_index _ recording_parser no_readall)
           None f _ _ E).
Defined.

Lemma read_parser_error_witness :
  let f0 := open_file (nme0_frame ++ raw0_frame) false in
  let f1 := set_cursor f0 24 in
  read failing_parser no_readall 1 None f0
  = (Raise (ParserError "bad datagram"), set_cursor f0 24)
  /\ read failing_parser no_readall 1 None f1
     = (Raise SimradEOF, set_cursor f0 48).
Proof.
  intros f0 f1. split.
  - apply (read_parser_error _ failing_parser no_readall f0 nme0_frame
             raw0_frame (ParserError "bad datagram"));
      [cbn; lia | reflexivity | reflexivity | reflexivity].
  - apply (read_parser_error _ failing_parser no_readall f1 raw0_frame []
             (ParserError "bad datagram"));
      [cbn; lia | reflexivity | reflexivity | reflexivity].
Defined.

Lemma skip_back_round_trip_witness :
  let f0 := open_file (concat three_frames) false in
  let g := positioned f0 24 1 in
  (skip None ;; skip_back) f0 = (Ok tt, f0)
  /\ (skip_back ;; skip None) g = (Ok tt, g)
  /\ (r <- rec_read 1 None ;; skip_back ;; ret r) f0
     = (Ok (One nme0_record), f0).
Proof.
  intros f0 g.
  destruct (skip_back_round_trip _ recording_parser no_readall f0 nme0_frame
              (raw0_frame ++ nme0_frame))
    as (H1 & H2 & H3); [cbn; lia | reflexivity | reflexivity |].
  split; [exact H1|]. split; [exact H2|]. apply H3. reflexivity.
Defined.

Lemma prev_returns_datagram_behind_witness :
  let f0 := open_file (concat three_frames) false in
  prev recording_parser no_readall (positioned f0 24 1)
  = (Ok (One nme0_record), f0)
  /\ prev failing_parser no_readall (positioned f0 24 1)
     = (Raise (ParserError "bad datagram"), positioned f0 24 0).
Proof.
  intros f0. split.
  - apply (prev_returns_datagram_behind _ recording_parser no_readall f0
             nme0_frame (raw0_frame ++ nme0_frame));
      [cbn; lia | reflexivity | reflexivity].
  - apply (prev_returns_datagram_behind _ failing_parser no_readall f0
             nme0_frame (raw0_frame ++ nme0_frame));
      [cbn; lia | reflexivity | reflexivity].
Defined.

Lemma read_many_frames_witness :
  let f0 := open_file (concat three_frames) false in
  rec_read 2 None f0
  = (Ok (Many [nme0_record; raw0_record]), positioned f0 48 2)
  /\ rec_read 5 None f0
     = (Ok (Many [nme0_record; raw0_record; nme0_record]),
        positioned f0 72 3).
Proof.
  intros f0.
  assert (Hd : Forall2
                 (fun fr d => delivered recording_parser (_return_raw f0)
                                (frame_body fr) (len fr + 12) = inr d)
                 three_frames [nme0_record; raw0_record; nme0_record])
    by (repeat constructor).
  split.
  - apply (read_many_frames _ recording_parser no_readall f0 three_frames
             [nme0_record; raw0_record; nme0_record] [] 2);
      [cbn; lia | reflexivity | reflexivity | exact Hd | lia
       | left; cbn; lia].
  - apply (read_many_frames _ recording_parser no_readall f0 three_frames
             [nme0_record; raw0_record; nme0_record] [] 5);
      [cbn; lia | reflexivity | reflexivity | exact Hd | lia
       | right; reflexivity].
Defined.

Lemma get_header_then_skip_or_read_witness :
  let f0 := open_file (concat three_frames) false in
  let f1 := set_cursor f0 16 in
  let h := set_timestamp (header_of size16 NME0 one_second)
             (datetime.mk_datetime 1601 1 1 0 0 1 0) 36 in
  get_header f0 = (Ok h, f1)
  /\ skip (Some h) f1 = skip None f0
  /\ rec_read 1 (Some h) f1 = rec_read 1 None f0.
Proof.
  intros f0 f1 h.
  assert (E : get_header f0 = (Ok h, f1)) by (vm_compute; reflexivity).
  split; [exact E|].
  apply (get_header_then_skip_or_read _ recording_parser no_readall f0 f1 h);
    [cbn; lia | exact E].
Defined.

Lemma parser_key_error_is_unknown_type_witness :
  let f0 := open_file nme0_frame false in
  let body := NME0 ++ one_second ++ gps_data in
  _convert_raw_datagram keyerror_parser body 36 f0
  = (Ok (mkCall (SimradUnknownParser ["N"; "M"; "E"]%byte) body 36), f0).
Proof.
  intros f0 body.
  apply (parser_key_error_is_unknown_type _ keyerror_parser body 36 f0
           SimradNMEAParser); reflexivity.
Defined.

Lemma truncated_header_witness :
  let f := mkFile cut_in_header 24 1 None false in
  let g := mkFile (nme0_frame ++ [x10; x00]) 24 1 None false in
  (rec_read 1 None g
   = (Raise (DatagramReadError
               "Short read while getting raw file datagram header" 4 2 24 1),
      g)
   /\ skip None g
      = (Raise (DatagramReadError "Short read while getting dgram size"
                  4 2 24 1), g))
  /\ (rec_read 1 None f = (Raise SimradEOF, set_cursor f 33)
      /\ skip None f = (Raise SimradEOF, set_cursor f 33)).
Proof.
  intros f g. split.
  - apply (proj1 (truncated_header _ recording_parser no_readall g
                    ltac:(cbn; lia))).
    cbn. lia.
  - apply (proj2 (truncated_header _ recording_parser no_readall f
                    ltac:(cbn; lia))).
    cbn. lia.
Defined.

Lemma peek_short_payload_witness :
  let f0 := open_file raw0_cut_in_channel false in
  peek true f0 = (Raise StructError, set_cursor f0 17).
Proof.
  intros f0.
  apply (peek_short_payload true f0 size16 RAW0 one_second [x07]);
    [cbn; lia | reflexivity | reflexivity | reflexivity | reflexivity
     | cbn; lia].
Defined.

Lemma find_next_datagram_lands_on_tag_witness :
  let f := mkFile (corrupt_frame ++ nme0_frame) 24 0 None false in
  let g := mkFile (corrupt_frame ++ corrupt_frame) 24 0 None false in
  (_find_next_datagram f = (Ok tt, f)
   /\ match_here (drop (24 + 4) (raw f)) = true)
  /\ (_find_next_datagram g = (Raise SimradEOF, set_cursor g 48)
      /\ rest (set_cursor g 48) = []).
Proof.
  intros f g.
  assert (E1 : _find_next_datagram f = (Ok tt, f)) by (vm_compute; reflexivity).
  assert (E2 : _find_next_datagram g = (Raise SimradEOF, set_cursor g 48))
    by (vm_compute; reflexivity).
  split; [split; [exact E1|] | split; [exact E2|]].
  - exact (proj2 (proj2 (find_next_datagram_lands_on_tag f f (Ok tt)
                           ltac:(cbn; lia) E1))).
  - exact (proj2 (proj2 (find_next_datagram_lands_on_tag g _ _
                           ltac:(cbn; lia) E2))).
Defined.

Lemma find_next_datagram_searches_per_buffer_witness :
  let f0 := open_file split_tag_stream false in
  first_match (rest f0) = Some (search_buf_bytes - 2)
  /\ _find_next_datagram f0 = (Raise SimradEOF, set_cursor f0 (len (raw f0))).
Proof.
  intros f0.
  assert (Hn : Z.of_nat (Z.to_nat (search_buf_bytes - 2)) = search_buf_bytes - 2)
    by (apply Z2Nat.id; unfold search_buf_bytes; lia).
  assert (Hr : rest f0 = split_tag_stream)
    by (unfold rest, f0, open_file; cbn [cursor raw]; apply drop_nonpos; lia).
  split.
  - rewrite Hr. unfold split_tag_stream. rewrite first_match_zeros.
    assert (E0 : first_match NME0 = Some 0) by reflexivity.
    rewrite E0. cbn [option_map]. rewrite Hn. f_equal; lia.
  - apply (find_next_datagram_searches_per_buffer f0
             (repeat x00 (Z.to_nat (search_buf_bytes - 2)) ++ ["N"; "M"]%byte)
             ["E"; "0"]%byte).
    + unfold f0, open_file. cbn [cursor]. lia.
    + rewrite Hr. unfold split_tag_stream, NME0. rewrite <- app_assoc.
      reflexivity.
    + rewrite len_app, len_repeat, Hn. rewrite len_cons, len_cons, len_nil.
      lia.
    + rewrite first_match_zeros. reflexivity.
    + reflexivity.
    + rewrite len_cons, len_cons, len_nil. unfold search_buf_bytes. lia.
Defined.

Lemma at_eof_bytes_remaining_witness :
  let f := mkFile (concat three_frames) 24 1 None false in
  let g := mkFile (concat three_frames) 72 3 None false in
  (at_eof f = (Ok false, f) /\ _bytes_remaining f = (Ok 48, f))
  /\ (at_eof g = (Ok true, g) /\ _bytes_remaining g = (Ok 0, g)).
Proof.
  intros f g. split.
  - destruct (at_eof_bytes_remaining f) as (H1 & H2 & _); [cbn; lia|].
    split; [exact H1 | exact H2].
  - destruct (at_eof_bytes_remaining g) as (H1 & H2 & _); [cbn; lia|].
    split; [exact H1 | exact H2].
Defined.

Lemma get_header_overflow_witness :
  let f0 := open_file far_future_frame false in
  let h := header_of size16 NME0 [xff; xff; xff; xff; xff; xff; xff; xff] in
  peek false f0 = (Ok h, set_cursor f0 16)
  /\ get_header f0 = (Raise OverflowError, set_cursor f0 16).
Proof.
  intros f0 h.
  assert (E : peek false f0 = (Ok h, set_cursor f0 16))
    by (vm_compute; reflexivity).
  split; [exact E|].
  apply (proj1 (proj2 (get_header_overflow f0 _ h E))).
  vm_compute. discriminate.
Defined.

Lemma seek_set_then_read_witness :
  let f := mkFile (concat three_frames) 72 3 None false in
  (seek 1 0 ;; rec_read 1 None) f
  = (Ok (One raw0_record), positioned f 48 2).
Proof.
  intros f.
  apply (seek_set_then_read _ recording_parser no_readall f three_frames
           [nme0_record; raw0_record; nme0_record] [] 1%nat raw0_record);
    [reflexivity | reflexivity | repeat constructor | reflexivity].
Defined.
